(** * Win-probability model tuning notebooks: a shallow embedding

    The repository holds two revisions of the model tuning notebook:
    - [CSGO_Model_Tuning.ipynb], called the tuning notebook below;
    - a later copy of it, called the revised notebook below, which adds
      the BombSite encoding, the standardisation and the pickled logistic
      regression, and moves the cutoff date.

    Numbers are exact rationals ([Q]); a missing value (pandas NaN / NaT)
    is a separate constructor or [None].  Calls into pandas and
    scikit-learn are given by small executable definitions that follow the
    documented behaviour of the releases the notebooks were written for
    (early 2020). *)

From Stdlib Require Import List ZArith QArith Qabs String Ascii Bool Lia.
From Stdlib Require Import Permutation.
Import ListNotations.

Local Open Scope string_scope.
Local Open Scope list_scope.
Local Open Scope Z_scope.
Local Open Scope Q_scope.

(* ================================================================== *)
(** * Part I: definitions *)
(* ================================================================== *)

(** ** Exceptions *)

Inductive exn : Type :=
| KeyError
| IndexError
| ValueError
| TypeError.

Inductive result (A : Type) : Type :=
| Ok (a : A)
| Raise (e : exn).

Arguments Ok {A} a.
Arguments Raise {A} e.

Definition bind {A B : Type} (m : result A) (k : A -> result B) : result B :=
  match m with
  | Ok a => k a
  | Raise e => Raise e
  end.

Notation "x <- m ;; k" := (bind m (fun x => k))
  (at level 61, m at next level, right associativity).

(** ** Data frames *)

(** One cell of a frame.  [NA] is pandas' missing value: NaN in an object
    or float column, NaT in a datetime64 column. *)
Inductive cell : Type :=
| NA
| Str (s : string)
| Num (q : Q)
| Time (t : Z).

(** A frame is a header and the rows under it, entry [i] of a row
    belonging to column [i] of the header. *)
Record Frame (A : Type) : Type := mkDF {
  columns : list string;
  rows : list (list A)
}.

Arguments mkDF {A} columns rows.
Arguments columns {A} f.
Arguments rows {A} f.

(** The frames of the preprocessing cells hold cells; the design matrices
    handed to the models hold numbers. *)
Definition DataFrame : Type := Frame cell.

(** The frame invariant: distinct column names (as [pd.read_csv] makes
    them) and rows as wide as the header. *)
Definition wf {A : Type} (df : Frame A) : Prop :=
  NoDup (columns df) /\
  Forall (fun r => List.length r = List.length (columns df)) (rows df).

(** The entry of row [r] under column [c], if the header has [c]. *)
Fixpoint lookup {A : Type} (c : string) (cols : list string) (r : list A)
  : option A :=
  match cols, r with
  | k :: cols', v :: r' => if String.eqb c k then Some v else lookup c cols' r'
  | _, _ => None
  end.

Definition loc (cols : list string) (r : list cell) (c : string) : cell :=
  match lookup c cols r with
  | Some v => v
  | None => NA
  end.

Definition has_column {A : Type} (df : Frame A) (c : string) : bool :=
  existsb (String.eqb c) (columns df).

(** [df[c]]: the series of column [c]; KeyError when there is none. *)
Definition getitem (df : DataFrame) (c : string) : result (list cell) :=
  if has_column df c
  then Ok (map (fun r => loc (columns df) r c) (rows df))
  else Raise KeyError.

(** Keep the elements of [l] whose mask entry is [True]. *)
Fixpoint mask_rows {A : Type} (mask : list bool) (l : list A) : list A :=
  match mask, l with
  | b :: mask', x :: l' =>
      if b then x :: mask_rows mask' l' else mask_rows mask' l'
  | _, _ => []
  end.

(** [df[mask]]: boolean indexing. *)
Definition boolean_index (mask : list bool) (df : DataFrame) : DataFrame :=
  mkDF (columns df) (mask_rows mask (rows df)).

Fixpoint zip_with {A B C : Type} (f : A -> B -> C) (l : list A) (l' : list B)
  : list C :=
  match l, l' with
  | x :: l, y :: l' => f x y :: zip_with f l l'
  | _, _ => []
  end.

(** Overwrite the entry of row [r] under column [c]. *)
Fixpoint set_cell {A : Type} (c : string) (cols : list string) (r : list A)
  (v : A) : list A :=
  match cols, r with
  | k :: cols', x :: r' =>
      if String.eqb c k then v :: r' else x :: set_cell c cols' r' v
  | _, _ => r
  end.

(** [df[c] = series]: an existing column is overwritten in place, a new
    one is added as the last column.  The series assigned in these
    notebooks carry the frame's own index, so the alignment is by
    position. *)
Definition setitem (df : DataFrame) (c : string) (series : list cell)
  : result DataFrame :=
  if Nat.eqb (List.length series) (List.length (rows df)) then
    if has_column df c
    then Ok (mkDF (columns df)
                  (zip_with (fun r v => set_cell c (columns df) r v)
                            (rows df) series))
    else Ok (mkDF (columns df ++ [c])
                  (zip_with (fun r v => r ++ [v]) (rows df) series))
  else Raise ValueError.

(** ** Train/test split by date

    [df["GameDate"] < CUTOFF_DATE] and [df["GameDate"] >= CUTOFF_DATE] on
    the datetime64 column that [pd.to_datetime] has made: a comparison
    with NaT is [False] either way.  (Cells of another kind do not occur
    in a datetime64 column.) *)
Definition lt_cutoff (cutoff : Z) (c : cell) : bool :=
  match c with
  | Time t => (t <? cutoff)%Z
  | _ => false
  end.

Definition ge_cutoff (cutoff : Z) (c : cell) : bool :=
  match c with
  | Time t => (t >=? cutoff)%Z
  | _ => false
  end.

(** The cutoff dates, as nanoseconds since the epoch: "2019-06-01" in the
    revised notebook, "2019-12-15" in the tuning notebook. *)
Definition CUTOFF_DATE : Z := 1559347200000000000.
Definition CUTOFF_DATE_tuning : Z := 1576368000000000000.

(** [train_df = df[df["GameDate"] < CUTOFF_DATE]] *)
Definition train_df (cutoff : Z) (df : DataFrame) : result DataFrame :=
  dates <- getitem df "GameDate" ;;
  Ok (boolean_index (map (lt_cutoff cutoff) dates) df).

(** [test_df = df[df["GameDate"] >= CUTOFF_DATE]] *)
Definition test_df (cutoff : Z) (df : DataFrame) : result DataFrame :=
  dates <- getitem df "GameDate" ;;
  Ok (boolean_index (map (ge_cutoff cutoff) dates) df).

(** The column holds timestamps or NaT, as after [pd.to_datetime]. *)
Definition is_datetime (c : cell) : Prop :=
  match c with
  | NA | Time _ => True
  | _ => False
  end.

Definition datetime_column (df : DataFrame) (c : string) : Prop :=
  Forall (fun r => is_datetime (loc (columns df) r c)) (rows df).

(** The GameDate cell of a row of [df]. *)
Definition GameDate (df : DataFrame) (r : list cell) : cell :=
  loc (columns df) r "GameDate".

(** ** One-hot encoding *)

(** Remove column [c] from a header, and its entry from a row. *)
Fixpoint drop_name (c : string) (cols : list string) : list string :=
  match cols with
  | [] => []
  | k :: cols' => if String.eqb c k then cols' else k :: drop_name c cols'
  end.

Fixpoint drop_cell {A : Type} (c : string) (cols : list string) (r : list A)
  : list A :=
  match cols, r with
  | k :: cols', v :: r' =>
      if String.eqb c k then r' else v :: drop_cell c cols' r'
  | _, _ => r
  end.

(** The non-missing values of a column of strings. *)
Fixpoint str_values (series : list cell) : list string :=
  match series with
  | [] => []
  | Str s :: series' => s :: str_values series'
  | _ :: series' => str_values series'
  end.

Fixpoint insert_sorted (s : string) (l : list string) : list string :=
  match l with
  | [] => [s]
  | x :: l' => if String.leb s x then s :: l else x :: insert_sorted s l'
  end.

Definition sort_strings (l : list string) : list string :=
  fold_right insert_sorted [] l.

(** The categories of a column: its distinct non-missing values, sorted. *)
Definition levels (series : list cell) : list string :=
  sort_strings (nodup string_dec (str_values series)).

(** The name of an indicator column, [prefix_sep = "_"]. *)
Definition dummy_name (c level : string) : string :=
  (c ++ "_" ++ level)%string.

(** The indicator of [level] in a row whose encoded cell is [v]; a missing
    value gets 0 under every level ([dummy_na = False]). *)
Definition indicator (v : cell) (level : string) : cell :=
  match v with
  | Str s => if String.eqb s level then Num 1 else Num 0
  | _ => Num 0
  end.

(** [pd.get_dummies(df, columns = [c], drop_first = False)]: column [c] is
    dropped and one indicator column per category is added after the
    remaining columns. *)
Definition get_dummies (df : DataFrame) (c : string) : result DataFrame :=
  series <- getitem df c ;;
  let lv := levels series in
  Ok (mkDF (drop_name c (columns df) ++ map (dummy_name c) lv)
           (map (fun r => drop_cell c (columns df) r
                          ++ map (indicator (loc (columns df) r c)) lv)
                (rows df))).

(** The column holds strings or NaN. *)
Definition is_category (c : cell) : Prop :=
  match c with
  | NA | Str _ => True
  | _ => False
  end.

Definition category_column (df : DataFrame) (c : string) : Prop :=
  Forall (fun r => is_category (loc (columns df) r c)) (rows df).

(** The idiom both notebooks use:
    [saved = df[c]; df = pd.get_dummies(df, columns = [c]); df[c] = saved]. *)
Definition one_hot (df : DataFrame) (c : string) : result DataFrame :=
  saved <- getitem df c ;;
  df' <- get_dummies df c ;;
  setitem df' c saved.

(** The encoding lines of the preprocessing cell, which follow the
    conversion of GameDate.  The tuning notebook encodes MapName only
    (its BombSite lines are commented out). *)
Definition preprocess_tuning (df : DataFrame) : result DataFrame :=
  one_hot df "MapName".

(** The revised notebook encodes MapName, then BombSite. *)
Definition preprocess_revised (df : DataFrame) : result DataFrame :=
  df' <- one_hot df "MapName" ;;
  one_hot df' "BombSite".

(** Whether a cell is missing. *)
Definition isna (c : cell) : bool :=
  match c with
  | NA => true
  | _ => false
  end.

(** The values of column [c], row by row. *)
Definition series (df : DataFrame) (c : string) : list cell :=
  map (fun r => loc (columns df) r c) (rows df).

(** No column of the frame is named like an indicator of [c]. *)
Definition fresh (c : string) (df : DataFrame) : Prop :=
  forall k, In k (columns df) -> String.prefix (c ++ "_")%string k = false.

Definition is_one (v : cell) : bool :=
  match v with
  | Num q => Qeq_bool q 1
  | _ => false
  end.

(** The categories of [c] whose indicator is 1 in row [r] of a frame
    with header [cols]. *)
Definition ones (cols : list string) (r : list cell) (c : string)
  (lv : list string) : list string :=
  filter (fun m => is_one (loc cols r (dummy_name c m))) lv.

(** What the encoding of column [c] promises of the encoded frame [df']:
    it has column [c] and one indicator column per category of [c]; row by
    row, under every category [m] the indicator is 0 or 1, and 1 exactly
    when the row's [c] was [m]; a row with a value has exactly one
    indicator at 1, a row without has none; and column [c] holds what it
    held. *)
Definition encodes (c : string) (df df' : DataFrame) : Prop :=
  let lv := levels (series df c) in
  In c (columns df') /\
  (forall m, In m lv -> In (dummy_name c m) (columns df')) /\
  Forall2 (fun r r' =>
    (forall m, In m lv ->
       (loc (columns df') r' (dummy_name c m) = Num 1
        <-> loc (columns df) r c = Str m) /\
       (loc (columns df') r' (dummy_name c m) = Num 1
        \/ loc (columns df') r' (dummy_name c m) = Num 0)) /\
    (forall s, loc (columns df) r c = Str s ->
       ones (columns df') r' c lv = [s]) /\
    (loc (columns df) r c = NA -> ones (columns df') r' c lv = []) /\
    loc (columns df') r' c = loc (columns df) r c)
  (rows df) (rows df').

(** Every column of [df] other than those of [cs] is a column of [df']
    and holds, row by row, what it held. *)
Definition keeps (cs : list string) (df df' : DataFrame) : Prop :=
  (forall k, In k (columns df) -> ~ In k cs -> In k (columns df')) /\
  Forall2 (fun r r' =>
    forall k, In k (columns df) -> ~ In k cs ->
      loc (columns df') r' k = loc (columns df) r k)
  (rows df) (rows df').

(** The frame [one_hot] builds. *)
Definition one_hot_row (c : string) (cols lv : list string) (r : list cell)
  : list cell :=
  (drop_cell c cols r ++ map (indicator (loc cols r c)) lv) ++ [loc cols r c].

Definition one_hot_frame (df : DataFrame) (c : string) : DataFrame :=
  let lv := levels (series df c) in
  mkDF ((drop_name c (columns df) ++ map (dummy_name c) lv) ++ [c])
       (map (one_hot_row c (columns df) lv) (rows df)).

(** ** Printed output *)

(** A number as [print] shows it.  The value of [log_loss] is a mean of
    logarithms and is kept as the call it comes from. *)
Inductive number : Type :=
| NaN
| Exact (q : Q)
| LogLossOf (y_true : list Z) (y_pred : list (Q * Q)).

(** A printed line: a heading, a number, or a dict of parameters. *)
Inductive line : Type :=
| Text (s : string)
| Value (v : number)
| Dict (d : list (string * Q)).

(** A notebook cell prints and may raise: what is printed before an
    exception stays printed. *)
Definition io (A : Type) : Type := list line -> list line * result A.

Definition io_ret {A : Type} (a : A) : io A := fun out => (out, Ok a).

Definition io_bind {A B : Type} (m : io A) (k : A -> io B) : io B :=
  fun out =>
    match m out with
    | (out', Ok a) => k a out'
    | (out', Raise e) => (out', Raise e)
    end.

Definition print (l : line) : io unit := fun out => (out ++ [l], Ok tt).

Definition lift {A : Type} (r : result A) : io A := fun out => (out, r).

Notation "x <~ m ;;; k" := (io_bind m (fun x => k))
  (at level 61, m at next level, right associativity).
Notation "m ;;; k" := (io_bind m (fun _ => k))
  (at level 61, right associativity).

(** Run a cell on an empty output area. *)
Definition run {A : Type} (m : io A) : list line * result A := m [].

(** ** scikit-learn metrics *)

(** A float: [None] is NaN. *)
Definition num : Type := option Q.

(** [assert_all_finite]: ValueError on NaN. *)
Fixpoint all_finite (l : list num) : result (list Q) :=
  match l with
  | [] => Ok []
  | Some q :: l' => l'' <- all_finite l' ;; Ok (q :: l'')
  | None :: _ => Raise ValueError
  end.

Fixpoint all_finite2 (l : list (num * num)) : result (list (Q * Q)) :=
  match l with
  | [] => Ok []
  | (Some a, Some b) :: l' => l'' <- all_finite2 l' ;; Ok ((a, b) :: l'')
  | _ :: _ => Raise ValueError
  end.

(** [check_consistent_length] *)
Definition check_consistent_length {A B : Type} (a : list A) (b : list B)
  : result unit :=
  if Nat.eqb (List.length a) (List.length b) then Ok tt else Raise ValueError.

(** [np.unique] on labels, up to order. *)
Definition unique_labels (y : list Z) : list Z := nodup Z.eq_dec y.

Definition Zsum (l : list Z) : Z := fold_right Z.add 0%Z l.
Definition Qsum (l : list Q) : Q := fold_right Qplus 0 l.
Definition Zmax_list (l : list Z) : Z :=
  match l with
  | [] => 0%Z
  | x :: l' => fold_right Z.max x l'
  end.

(** [log_loss(y_true, y_pred)] with a two-column [y_pred]: the labels must
    show exactly the two classes of the columns. *)
Definition log_loss (y_true : list Z) (y_pred : list (num * num))
  : result number :=
  P <- all_finite2 y_pred ;;
  _ <- check_consistent_length y_true P ;;
  match unique_labels y_true with
  | [_; _] => Ok (LogLossOf y_true P)
  | _ => Raise ValueError
  end.

(** [brier_score_loss(y_true, y_prob)]: the mean squared difference
    between the probability and the 0/1 outcome "label = pos_label",
    where pos_label is 1 for labels all 0 or all -1 and the greatest
    label otherwise. *)
Definition pos_label (y_true : list Z) : Z :=
  match unique_labels y_true with
  | [0%Z] => 1%Z
  | [(-1)%Z] => 1%Z
  | _ => Zmax_list y_true
  end.

Definition outcome (pos : Z) (label : Z) : Q :=
  if Z.eqb label pos then 1 else 0.

Definition brier_score_loss (y_true : list Z) (y_prob : list num)
  : result number :=
  p <- all_finite y_prob ;;
  _ <- check_consistent_length y_true p ;;
  if Nat.ltb 2 (List.length (unique_labels y_true)) then Raise ValueError
  else
    match p with
    | [] => Raise ValueError
    | _ =>
        if forallb (fun q => Qle_bool 0 q && Qle_bool q 1) p
        then
          let pos := pos_label y_true in
          Ok (Exact (Qsum (zip_with (fun y q => (outcome pos y - q) ^ 2)
                                    y_true p)
                     / inject_Z (Z.of_nat (List.length p))))
        else Raise ValueError
    end.

(** [roc_auc_score(y_true, y_score)]: the area under the ROC curve by the
    trapezoidal rule. *)

(** Insertion into a list sorted by decreasing score. *)
Fixpoint insert_desc (x : Q * bool) (l : list (Q * bool)) : list (Q * bool) :=
  match l with
  | [] => [x]
  | y :: l' =>
      if Qle_bool (fst y) (fst x) then x :: l else y :: insert_desc x l'
  end.

Definition sort_desc (l : list (Q * bool)) : list (Q * bool) :=
  fold_right insert_desc [] l.

(** [_binary_clf_curve]: walking the scores downwards, the numbers of
    false and true positives above each distinct score. *)
Fixpoint clf_curve (l : list (Q * bool)) (fps tps : Z) : list (Z * Z) :=
  match l with
  | [] => []
  | (s, y) :: rest =>
      let fps' := if y then fps else (fps + 1)%Z in
      let tps' := if y then (tps + 1)%Z else tps in
      match rest with
      | [] => [(fps', tps')]
      | (s', _) :: _ =>
          if Qeq_bool s s' then clf_curve rest fps' tps'
          else (fps', tps') :: clf_curve rest fps' tps'
      end
  end.

(** [roc_curve]: the curve starts at (0, 0); the rates are the counts
    over the final counts.  ([drop_intermediate] removes collinear points
    only and is left out.) *)
Definition roc_curve (y_true : list bool) (y_score : list Q) : list (Q * Q) :=
  let counts := (0%Z, 0%Z) :: clf_curve (sort_desc (combine y_score y_true)) 0 0 in
  let '(n, p) := last counts (0%Z, 0%Z) in
  map (fun '(fps, tps) => (inject_Z fps / inject_Z n, inject_Z tps / inject_Z p))
      counts.

(** [auc]: [np.trapz]. *)
Fixpoint trapz (pts : list (Q * Q)) : Q :=
  match pts with
  | (x0, y0) :: rest =>
      match rest with
      | (x1, y1) :: _ => (x1 - x0) * (y0 + y1) / 2 + trapz rest
      | [] => 0
      end
  | [] => 0
  end.

(** The labels must show exactly two classes; the greater is the
    positive one. *)
Definition roc_auc_score (y_true : list Z) (y_score : list num)
  : result number :=
  s <- all_finite y_score ;;
  _ <- check_consistent_length y_true s ;;
  match unique_labels y_true with
  | [a; b] =>
      let pos := Z.max a b in
      Ok (Exact (trapz (roc_curve (map (Z.eqb pos) y_true) s)))
  | _ => Raise ValueError
  end.

(** [accuracy_score(y_true, y_pred)] for a boolean [y_pred]: the share of
    rows where the label equals the prediction, [True] being 1 and
    [False] 0. *)
Definition agrees (label : Z) (pred : bool) : bool :=
  Z.eqb label (if pred then 1 else 0)%Z.

Definition accuracy_score (y_true : list Z) (y_pred : list bool)
  : result number :=
  _ <- check_consistent_length y_true y_pred ;;
  match y_true with
  | [] => Ok NaN
  | _ =>
      Ok (Exact (inject_Z (Z.of_nat (List.length
                    (filter (fun yp => agrees (fst yp) (snd yp))
                            (combine y_true y_pred))))
                 / inject_Z (Z.of_nat (List.length y_true))))
  end.

(** ** The print function *)

(** [y_pred_probs[:,1] >= 0.5]; a comparison with NaN is [False]. *)
Definition ge_half (p : num) : bool :=
  match p with
  | Some q => Qle_bool (1 # 2) q
  | None => false
  end.

Definition print_results (y_true_labels : list Z)
  (y_pred_probs : list (num * num)) : io unit :=
  print (Text "---------- LOG LOSS") ;;;
  ll <~ lift (log_loss y_true_labels y_pred_probs) ;;;
  print (Value ll) ;;;
  print (Text "---------- BRIER SCORE") ;;;
  bs <~ lift (brier_score_loss y_true_labels (map snd y_pred_probs)) ;;;
  print (Value bs) ;;;
  print (Text "---------- AUC") ;;;
  auc <~ lift (roc_auc_score y_true_labels (map snd y_pred_probs)) ;;;
  print (Value auc) ;;;
  print (Text "---------- ACCURACY") ;;;
  acc <~ lift (accuracy_score y_true_labels
                 (map ge_half (map snd y_pred_probs))) ;;;
  print (Value acc).

(** ** The baselines *)

(** A row of [train_df] or [test_df] after [dropna]: the map, the label
    and the feature values of the round.  The baseline cells read the
    first two. *)
Record Round : Type := mkRound {
  MapName : string;
  CTWin : Z;
  features : list Q
}.

(** [Series.mean()]: NaN on an empty series. *)
Definition mean (l : list Z) : num :=
  match l with
  | [] => None
  | _ => Some (inject_Z (Zsum l) / inject_Z (Z.of_nat (List.length l)))
  end.

(** [1 - x] on floats. *)
Definition one_minus (x : num) : num := option_map (fun q => 1 - q) x.

(** [np.column_stack((a, b))] *)
Definition column_stack (a b : list num) : list (num * num) := combine a b.

(** [test_df["BaselinePred"] = train_df.CTWin.mean()]: the scalar is
    broadcast to every row. *)
Definition BaselinePred (train test : list Round) : list num :=
  map (fun _ => mean (map CTWin train)) test.

(** [np.column_stack((1 - pred, pred))]: the matrix handed to
    [print_results]. *)
Definition stack_probs (pred : list num) : list (num * num) :=
  column_stack (map one_minus pred) pred.

Definition baseline_probs (train test : list Round) : list (num * num) :=
  stack_probs (BaselinePred train test).

(** The "Baseline Win Rate Results" cell. *)
Definition baseline (train test : list Round) : io unit :=
  print_results (map CTWin test) (baseline_probs train test).

(** [Series.unique()]: the distinct values in order of first appearance. *)
Definition unique (l : list string) : list string :=
  fold_left (fun seen x => if in_dec string_dec x seen then seen
                           else seen ++ [x]) l [].

(** [train.groupby("MapName").CTWin.mean().reset_index()]: one row per
    map of the training set, in the order of the map names. *)
Definition map_win_rate (train : list Round) : list (string * num) :=
  map (fun m => (m, mean (map CTWin
                            (filter (fun r => String.eqb (MapName r) m) train))))
      (sort_strings (nodup string_dec (map MapName train))).

(** [.values[0]]: IndexError on an empty array. *)
Definition values0 {A : Type} (l : list A) : result A :=
  match l with
  | x :: _ => Ok x
  | [] => Raise IndexError
  end.

(** A test row with its PredMapWinRate. *)
Definition Predicted : Type := (Round * num)%type.

(** The loop of [baseline_map] over the maps of the test set;
    [map_subset_df] collects one frame per map. *)
Fixpoint baseline_map_loop (rates : list (string * num)) (test : list Predicted)
  (maps : list string) (map_subset_df : list (list Predicted))
  : result (list (list Predicted)) :=
  match maps with
  | [] => Ok map_subset_df
  | map_name :: maps' =>
      let subset_map :=
        filter (fun r => String.eqb (MapName (fst r)) map_name) test in
      rate <- values0 (map snd
                (filter (fun e => String.eqb (fst e) map_name) rates)) ;;
      let subset_map := map (fun r => (fst r, rate)) subset_map in
      baseline_map_loop rates test maps' (map_subset_df ++ [subset_map])
  end.

(** [pd.concat]: ValueError when there is nothing to concatenate. *)
Definition pd_concat {A : Type} (dfs : list (list A)) : result (list A) :=
  match dfs with
  | [] => Raise ValueError
  | _ => Ok (List.concat dfs)
  end.

(** The rows [baseline_map] scores, each with its prediction. *)
Definition baseline_map_predict (train test : list Round)
  : result (list Predicted) :=
  let rates := map_win_rate train in
  let test := map (fun r => (r, Some (1 # 2))) test in
  dfs <- baseline_map_loop rates test (unique (map (fun r => MapName (fst r)) test)) [] ;;
  pd_concat dfs.

Definition baseline_map (train test : list Round) : io unit :=
  test <~ lift (baseline_map_predict train test) ;;;
  print_results (map (fun r => CTWin (fst r)) test)
                (stack_probs (map snd test)).

(** The mean CTWin of the training rounds played on map [m]. *)
Definition map_mean (train : list Round) (m : string) : num :=
  mean (map CTWin (filter (fun r => String.eqb (MapName r) m) train)).

(** Every map of the test set is a map of the training set. *)
Definition maps_seen (train test : list Round) : Prop :=
  forall r, In r test -> In (MapName r) (map MapName train).

Definition binary_labels (l : list Round) : Prop :=
  Forall (fun r => CTWin r = 0%Z \/ CTWin r = 1%Z) l.

(** A probability row: two finite entries in [0, 1] that sum to 1. *)
Definition probability_row (row : num * num) : Prop :=
  exists q p, row = (Some q, Some p) /\ 0 <= p /\ p <= 1 /\ q + p == 1.

(** A matrix without NaN, as floats. *)
Definition finite (M : list (Q * Q)) : list (num * num) :=
  map (fun row => (Some (fst row), Some (snd row))) M.

(** The numbers of negative and of positive rows of a scored sample. *)
Definition negatives (l : list (Q * bool)) : Z :=
  Z.of_nat (List.length (filter (fun x => negb (snd x)) l)).
Definition positives (l : list (Q * bool)) : Z :=
  Z.of_nat (List.length (filter (fun x => snd x) l)).

(** ** Standardisation (revised notebook) *)

(** The one-hot encoded feature columns, [COLS_ALL] of the revised
    notebook, and the columns it standardises. *)
Definition COLS_ALL : list string :=
  ["MapName_de_dust2"; "MapName_de_inferno"; "MapName_de_mirage";
   "MapName_de_nuke"; "MapName_de_overpass"; "MapName_de_train";
   "MapName_de_vertigo"; "BombSite_A"; "BombSite_B"; "BombSite_NotPlanted";
   "TicksSinceStart"; "CTEqVal"; "TEqVal"; "TRemaining"; "CTRemaining";
   "THpRemaining"; "CTHpRemaining"; "BombPlanted"; "CTDistBombsiteA";
   "CTDistBombsiteB"; "TDistBombsiteA"; "TDistBombsiteB"].

Definition cols_scaled : list string :=
  ["TicksSinceStart"; "CTEqVal"; "TEqVal"; "TRemaining"; "CTRemaining";
   "THpRemaining"; "CTHpRemaining"; "BombPlanted"; "CTDistBombsiteA";
   "CTDistBombsiteB"; "TDistBombsiteA"; "TDistBombsiteB"].

(** A design matrix with its header: [train_df[COLS_ALL]] after
    [dropna], so every entry is a number. *)
Definition Design : Type := Frame Q.

Definition at_ (cols : list string) (r : list Q) (c : string) : Q :=
  match lookup c cols r with
  | Some v => v
  | None => 0
  end.

(** The values of column [c] of a design matrix. *)
Definition feature (X : Design) (c : string) : list Q :=
  map (fun r => at_ (columns X) r c) (rows X).

(** [X[cs].values]: KeyError when a column is not there. *)
Definition select_values (X : Design) (cs : list string)
  : result (list (list Q)) :=
  if forallb (has_column X) cs
  then Ok (map (fun r => map (at_ (columns X) r) cs) (rows X))
  else Raise KeyError.

(** [X[cs] = values]: row by row, each listed column takes its new
    value. *)
Definition assign_values (X : Design) (cs : list string)
  (values : list (list Q)) : Design :=
  mkDF (columns X)
       (zip_with (fun r v =>
                    fold_left (fun r' cv => set_cell (fst cv) (columns X) r' (snd cv))
                              (combine cs v) r)
                 (rows X) values).

Definition Qmean (l : list Q) : Q :=
  Qsum l / inject_Z (Z.of_nat (List.length l)).

(** The population variance ([ddof = 0]). *)
Definition variance (l : list Q) : Q :=
  Qmean (map (fun x => (x - Qmean l) ^ 2) l).

(** [_handle_zeros_in_scale]: [scale[scale == 0.0] = 1.0]. *)
Definition handle_zeros_in_scale (s : Q) : Q :=
  if Qeq_bool s 0 then 1 else s.

(** A fitted [StandardScaler]. *)
Record StandardScaler : Type := mkScaler {
  mean_ : list Q;
  scale_ : list Q
}.

Fixpoint zip3 {A B C D : Type} (f : A -> B -> C -> D)
  (l1 : list A) (l2 : list B) (l3 : list C) : list D :=
  match l1, l2, l3 with
  | x :: l1, y :: l2, z :: l3 => f x y z :: zip3 f l1 l2 l3
  | _, _, _ => []
  end.

Section Scaler.

(** [np.sqrt], whatever its rounding. *)
Variable sqrt : Q -> Q.

(** Column [j] of a matrix. *)
Definition column (X : list (list Q)) (j : nat) : list Q :=
  map (fun r => nth j r 0) X.

(** The standard deviation [fit] divides by: 1 for a constant column. *)
Definition scale_of (l : list Q) : Q :=
  handle_zeros_in_scale (sqrt (variance l)).

(** [StandardScaler().fit(X)]: per column, the mean and the scale;
    ValueError on a matrix with no row. *)
Definition fit (X : list (list Q)) : result StandardScaler :=
  match X with
  | [] => Raise ValueError
  | r :: _ =>
      let js := seq 0 (List.length r) in
      Ok (mkScaler (map (fun j => Qmean (column X j)) js)
                   (map (fun j => scale_of (column X j)) js))
  end.

(** [scaler.transform(X)]: ValueError on a matrix with no row, or when
    the number of columns is not the one the scaler was fitted on. *)
Definition transform (scaler : StandardScaler) (X : list (list Q))
  : result (list (list Q)) :=
  match X with
  | [] => Raise ValueError
  | _ =>
      if forallb (fun r => Nat.eqb (List.length r)
                                   (List.length (mean_ scaler))) X
      then Ok (map (fun r => zip3 (fun x m s => (x - m) / s)
                                  r (mean_ scaler) (scale_ scaler)) X)
      else Raise ValueError
  end.

(** The standardisation lines of the logistic regression cell: the
    scaler is fitted on the training values and applied to the training
    and to the test values. *)
Definition standardize (X_train_ALL X_test_ALL : Design)
  : result (Design * Design) :=
  features_scaled <- select_values X_train_ALL cols_scaled ;;
  scaler <- fit features_scaled ;;
  features_scaled <- transform scaler features_scaled ;;
  let X_train_ALL_scaled :=
    assign_values X_train_ALL cols_scaled features_scaled in
  features_scaled_test <- select_values X_test_ALL cols_scaled ;;
  features_scaled_test <- transform scaler features_scaled_test ;;
  let X_test_ALL_scaled :=
    assign_values X_test_ALL cols_scaled features_scaled_test in
  Ok (X_train_ALL_scaled, X_test_ALL_scaled).

End Scaler.

(** A row [r'] of a standardised matrix against the row [r] it comes
    from, the statistics being those of the training matrix [X_train]:
    a standardised column holds (x - mean) / scale, any other column
    holds x. *)
Definition row_standardized (sqrt : Q -> Q) (X_train : Design)
  (r r' : list Q) : Prop :=
  forall c, In c COLS_ALL ->
    (In c cols_scaled ->
       at_ COLS_ALL r' c
       = (at_ COLS_ALL r c - Qmean (feature X_train c))
         / scale_of sqrt (feature X_train c)) /\
    (~ In c cols_scaled -> at_ COLS_ALL r' c = at_ COLS_ALL r c).

(** The matrix [standardize] builds from [X] with the statistics of
    [X_train]. *)
Definition standardized (sqrt : Q -> Q) (X_train X : Design) : Design :=
  assign_values X cols_scaled
    (map (fun r =>
            map (fun c => (at_ (columns X) r c - Qmean (feature X_train c))
                          / scale_of sqrt (feature X_train c))
                cols_scaled)
         (rows X)).

(** ** Hyperparameter search *)

Definition RANDOM_STATE : Z := 2020.

(** A parameter grid maps a parameter name to the values to try; a
    candidate gives each parameter one value. *)
Definition param_grid : Type := list (string * list Q).
Definition params : Type := list (string * Q).

(** [xgb_params] of the revised notebook. *)
Definition xgb_params : param_grid :=
  [ ("max_depth", [6; 8; 10; 12; 14]);
    ("colsample_bytree", [2 # 10; 4 # 10; 6 # 10; 8 # 10]);
    ("learning_rate", [1 # 100; 5 # 100; 1 # 10; 2 # 10]);
    ("min_child_weight", [1; 3; 5; 7]) ].

(** [xgb_params] of the tuning notebook. *)
Definition xgb_params_tuning : param_grid :=
  [ ("max_depth", [6; 8; 10; 12; 14]);
    ("lambda", [1; 3; 5]);
    ("gamma", [0; 5 # 10; 1; 3]);
    ("colsample_bytree", [2 # 10; 4 # 10; 6 # 10; 8 # 10]) ].

Fixpoint insert_item (x : string * list Q) (l : param_grid) : param_grid :=
  match l with
  | [] => [x]
  | y :: l' =>
      if String.leb (fst x) (fst y) then x :: l else y :: insert_item x l'
  end.

(** [sorted(param_grid.items())] *)
Definition sorted_items (grid : param_grid) : param_grid :=
  fold_right insert_item [] grid.

(** [itertools.product] over the value lists, the last parameter varying
    fastest. *)
Fixpoint product (items : param_grid) : list params :=
  match items with
  | [] => [[]]
  | (k, vs) :: items' =>
      flat_map (fun v => map (cons (k, v)) (product items')) vs
  end.

(** [ParameterGrid(param_grid)]: every combination of values. *)
Definition ParameterGrid (grid : param_grid) : list params :=
  product (sorted_items grid).

(** A row of the design matrix with its label. *)
Definition Sample : Type := (list Q * Z)%type.

(** [KFold]: the sizes of the folds, the first [n mod k] one larger. *)
Definition fold_sizes (n k : nat) : list nat :=
  map (fun i => (n / k + if Nat.ltb i (n mod k) then 1 else 0)%nat) (seq 0 k).

Fixpoint chunks (sizes : list nat) (l : list nat) : list (list nat) :=
  match sizes with
  | [] => []
  | s :: sizes' => firstn s l :: chunks sizes' (skipn s l)
  end.

Definition mem (i : nat) (l : list nat) : bool := existsb (Nat.eqb i) l.

(** The rows at the positions that satisfy [p], in their own order. *)
Definition take_rows {A : Type} (p : nat -> bool) (X : list A) : list A :=
  map snd (filter (fun ix => p (fst ix)) (combine (seq 0 (List.length X)) X)).

(** The result of a search. *)
Record SearchResult (Model : Type) : Type := mkSearch {
  cv_results_ : list (params * Q);
  best_params_ : params;
  best_estimator_ : Model
}.

Arguments mkSearch {Model} cv_results_ best_params_ best_estimator_.
Arguments cv_results_ {Model} s.
Arguments best_params_ {Model} s.
Arguments best_estimator_ {Model} s.

Section GridSearch.

(** The classifier and the floating-point value of the log loss are
    taken as given: fitting a clone of the base estimator set to the
    parameters of a candidate, [predict_proba], and the number that
    [log_loss] returns. *)
Variable Model : Type.
Variable fit_model : params -> list Sample -> Model.
Variable predict_proba : Model -> list Sample -> list (num * num).
Variable log_loss_value : list Z -> list (num * num) -> Q.

(** The scorer "neg_log_loss": minus the log loss of the predicted
    probabilities against the labels. *)
Definition neg_log_loss (model : Model) (X : list Sample) : Q :=
  - log_loss_value (map snd X) (predict_proba model X).

(** [rng.shuffle(np.arange(n))] for the generator seeded with
    [random_state]. *)
Variable shuffled : Z -> nat -> list nat.

(** [KFold(n_splits, random_state, shuffle = True).split(X)]: the
    shuffled positions are cut into folds; each fold is the validation
    part of one split, the rows outside it the training part.
    ValueError when there are fewer rows than folds. *)
Definition KFold (n_splits : nat) (random_state : Z) (X : list Sample)
  : result (list (list Sample * list Sample)) :=
  let n := List.length X in
  if Nat.ltb n n_splits then Raise ValueError
  else Ok (map (fun test_index =>
                  (take_rows (fun i => negb (mem i test_index)) X,
                   take_rows (fun i => mem i test_index) X))
               (chunks (fold_sizes n n_splits) (shuffled random_state n))).

(** The mean over the splits of the score of the candidate fitted on
    the training part and scored on the validation part. *)
Definition mean_test_score (folds : list (list Sample * list Sample))
  (p : params) : Q :=
  Qmean (map (fun fold => neg_log_loss (fit_model p (fst fold)) (snd fold))
             folds).

(** [best_index_]: the first candidate of the greatest mean score. *)
Fixpoint best_of (score : params -> Q) (best : params)
  (candidates : list params) : params :=
  match candidates with
  | [] => best
  | c :: candidates' =>
      best_of score (if Qlt_le_dec (score best) (score c) then c else best)
              candidates'
  end.

(** [GridSearchCV(xgb, param_grid, cv, scoring = "neg_log_loss")
    .fit(X, y)], with the default [refit = True]: the best candidate is
    fitted again on all of [X]. *)
Definition GridSearchCV_fit (grid : param_grid)
  (cv : list Sample -> result (list (list Sample * list Sample)))
  (X : list Sample) : result (SearchResult Model) :=
  folds <- cv X ;;
  match ParameterGrid grid with
  | [] => Raise ValueError
  | c :: candidates =>
      let best := best_of (mean_test_score folds) c candidates in
      Ok (mkSearch
            (map (fun p => (p, mean_test_score folds p)) (c :: candidates))
            best
            (fit_model best X))
  end.

(** The XGBoost cell: search, save the best estimator under [file],
    print the best parameters, and evaluate the best estimator on the
    test set.  It yields the files written and what is printed. *)
Definition tune_xgb (grid : param_grid) (file : string)
  (train test : list Sample)
  : result (list (string * Model) * (list line * result unit)) :=
  let xgb_kfold := KFold 5 RANDOM_STATE in
  xgb_cv <- GridSearchCV_fit grid xgb_kfold train ;;
  let xgb_all := best_estimator_ xgb_cv in
  Ok ([(file, xgb_all)],
      run (print (Dict (best_params_ xgb_cv)) ;;;
           print_results (map snd test) (predict_proba xgb_all test))).

End GridSearch.

(** A candidate picks one of the declared values for each parameter. *)
Definition picks (grid : param_grid) (p : params) : Prop :=
  Forall2 (fun item kv => fst kv = fst item /\ In (snd kv) (snd item))
          (sorted_items grid) p.

(** The XGBoost searches of the two notebooks: the grid and the file the
    best estimator is saved to. *)
Definition xgb_searches : list (param_grid * string) :=
  [ (xgb_params, "models/xgboost.model");
    (xgb_params_tuning, "models/xgboost_all_features.model");
    (xgb_params_tuning, "models/xgboost_no_spatial_features.model") ].

(** ** Example data *)

(** A frame of three rounds: one played the day before the cutoff, one
    with no date, one played on the cutoff date. *)
Definition undated_df : DataFrame :=
  mkDF ["GameDate"; "MapName"; "CTWin"]
       [ [Time 1559260800000000000; Str "de_dust2"; Num 1];
         [NA; Str "de_nuke"; Num 0];
         [Time 1559347200000000000; Str "de_nuke"; Num 1] ].

(** A frame of three rounds, the second with no map. *)
Definition unmapped_df : DataFrame :=
  mkDF ["GameDate"; "MapName"; "BombSite"; "CTWin"]
       [ [Time 10; Str "de_nuke"; Str "A"; Num 1];
         [Time 12; NA; NA; Num 0];
         [Time 20; Str "de_dust2"; NA; Num 1] ].

(** Example rounds. *)
Definition dust2_win : Round := mkRound "de_dust2" 1 [100; 0].
Definition dust2_loss : Round := mkRound "de_dust2" 0 [300; 1].
Definition nuke_win : Round := mkRound "de_nuke" 1 [200; 0].
Definition nuke_loss : Round := mkRound "de_nuke" 0 [250; 1].
Definition vertigo_loss : Round := mkRound "de_vertigo" 0 [50; 0].

(** A square root on rationals for the examples: exact on n/d when n*d is
    a perfect square, rounded down to a multiple of 1/d otherwise. *)
Definition sqrt_down (q : Q) : Q :=
  Z.sqrt (Qnum q * Zpos (Qden q)) # Qden q.

(** A row of a design matrix: a round on de_dust2, with the bomb
    planted at site A or not planted; of the twelve standardised features
    only TicksSinceStart and BombPlanted vary in the examples. *)
Definition design_row (ticks planted : Q) : list Q :=
  [1; 0; 0; 0; 0; 0; 0; planted; 0; 1 - planted;
   ticks; 4000; 3000; 5; 5; 500; 500; planted; 10; 20; 30; 40].

(** A training matrix in which the bomb is never planted, and a test
    matrix in which it is. *)
Definition never_planted_train : Design :=
  mkDF COLS_ALL [design_row 100 0; design_row 300 0].

Definition planted_test : Design :=
  mkDF COLS_ALL [design_row 400 1].

(** A model for the examples: it is the parameters it was fitted with
    and predicts its colsample_bytree as the probability of a win; the
    loss is the mean distance of that probability from the label; the
    shuffle reverses the positions. *)
Definition toy_fit (p : params) (X : list Sample) : params := p.

Definition toy_predict (m : params) (X : list Sample) : list (num * num) :=
  match lookup "colsample_bytree" (map fst m) (map snd m) with
  | Some c => map (fun _ => (Some (1 - c), Some c)) X
  | None => map (fun _ => (Some (1 # 2), Some (1 # 2))) X
  end.

Definition toy_loss (y : list Z) (P : list (num * num)) : Q :=
  Qmean (zip_with (fun label row =>
                     match snd row with
                     | Some p => Qabs (inject_Z label - p)
                     | None => 1
                     end) y P).

Definition reversed (seed : Z) (n : nat) : list nat := rev (seq 0 n).

Definition six_samples : list Sample :=
  [ ([1], 1%Z); ([2], 0%Z); ([3], 1%Z); ([4], 0%Z); ([5], 1%Z); ([6], 0%Z) ].

(** ** Design matrices (revised notebook) *)

(** The columns handed to CatBoost, [COLS_CB_ALL] of the revised
    notebook: the two categorical columns as they are, then the numeric
    features. *)
Definition COLS_CB_ALL : list string :=
  ["MapName"; "BombSite"; "TicksSinceStart"; "CTEqVal"; "TEqVal";
   "TRemaining"; "CTRemaining"; "THpRemaining"; "CTHpRemaining";
   "BombPlanted"; "CTDistBombsiteA"; "CTDistBombsiteB"; "TDistBombsiteA";
   "TDistBombsiteB"].

(** Whether row [r] has a value under every column of [subset]. *)
Definition notna_on (cols subset : list string) (r : list cell) : bool :=
  forallb (fun c => negb (isna (loc cols r c))) subset.

(** [df.dropna(subset = subset, inplace = True)]: the rows with a missing
    value under a column of [subset] are removed; KeyError when [subset]
    names a column the frame does not have. *)
Definition dropna (df : DataFrame) (subset : list string) : result DataFrame :=
  if forallb (has_column df) subset
  then Ok (mkDF (columns df)
                (filter (notna_on (columns df) subset) (rows df)))
  else Raise KeyError.

(** [df[cols]] for a list of column names: a new frame with these
    columns, in this order; KeyError when one is not there. *)
Definition getitems (df : DataFrame) (cols : list string) : result DataFrame :=
  if forallb (has_column df) cols
  then Ok (mkDF cols (map (fun r => map (loc (columns df) r) cols) (rows df)))
  else Raise KeyError.

(** The rows of [df] with a value under every column of [subset]. *)
Definition complete_rows (df : DataFrame) (subset : list string)
  : list (list cell) :=
  filter (notna_on (columns df) subset) (rows df).

(** The matrix [X] and the labels [y] are cut from the rows of [df] that
    are complete on [subset]: row by row, in the order of [df], [X] holds
    the cells under [cols] and [y] the CTWin cell of the same round. *)
Definition cut_from (df : DataFrame) (subset cols : list string)
  (X : DataFrame) (y : list cell) : Prop :=
  columns X = cols /\
  rows X = map (fun r => map (loc (columns df) r) cols)
               (complete_rows df subset) /\
  y = map (fun r => loc (columns df) r "CTWin") (complete_rows df subset).

(** No cell of the frame is missing. *)
Definition no_missing (X : DataFrame) : Prop :=
  Forall (Forall (fun v => v <> NA)) (rows X).

(** What the data preparation cell leaves behind: the design matrices
    and label series, and the two frames as [dropna] has left them. *)
Record Prepared : Type := mkPrepared {
  X_train_ALL : DataFrame;
  y_train : list cell;
  X_test_ALL : DataFrame;
  y_test : list cell;
  X_train_cb_ALL : DataFrame;
  y_train_cb : list cell;
  X_test_cb_ALL : DataFrame;
  y_test_cb : list cell;
  train_rounds : DataFrame;
  test_rounds : DataFrame
}.

(** The data preparation cell.  [dropna(inplace = True)] rebinds the
    frame's data; a selection or a series taken before keeps the rows it
    was taken with. *)
Definition prepare (train test : DataFrame) : result Prepared :=
  train <- dropna train COLS_ALL ;;
  X_train_ALL <- getitems train COLS_ALL ;;
  y_train <- getitem train "CTWin" ;;
  test <- dropna test COLS_ALL ;;
  X_test_ALL <- getitems test COLS_ALL ;;
  y_test <- getitem test "CTWin" ;;
  train <- dropna train COLS_CB_ALL ;;
  X_train_cb_ALL <- getitems train COLS_CB_ALL ;;
  y_train_cb <- getitem train "CTWin" ;;
  test <- dropna test COLS_CB_ALL ;;
  X_test_cb_ALL <- getitems test COLS_CB_ALL ;;
  y_test_cb <- getitem test "CTWin" ;;
  Ok (mkPrepared X_train_ALL y_train X_test_ALL y_test
                 X_train_cb_ALL y_train_cb X_test_cb_ALL y_test_cb
                 train test).

(** The cells from the encoding to the design matrices. *)
Definition design_matrices (df : DataFrame) : result Prepared :=
  df <- preprocess_revised df ;;
  train <- train_df CUTOFF_DATE df ;;
  test <- test_df CUTOFF_DATE df ;;
  prepare train test.

(** The values the one-hot columns of [COLS_ALL] stand for. *)
Definition encoded_values : list (string * string) :=
  [ ("MapName", "de_dust2"); ("MapName", "de_inferno");
    ("MapName", "de_mirage"); ("MapName", "de_nuke");
    ("MapName", "de_overpass"); ("MapName", "de_train");
    ("MapName", "de_vertigo");
    ("BombSite", "A"); ("BombSite", "B"); ("BombSite", "NotPlanted") ].

(** The columns the cells read from the csv file. *)
Definition csv_columns : list string :=
  ["GameDate"; "MapName"; "BombSite"; "CTWin"] ++ cols_scaled.

(** Row [x] of a design matrix over [COLS_ALL] encodes round [r] of the
    csv frame with header [cols]: under each one-hot column it holds the
    indicator of the round's MapName or BombSite (0 under every value when
    that cell is missing), under each numeric column the round's value. *)
Definition encodes_round (cols : list string) (r x : list cell) : Prop :=
  (forall c m, In (c, m) encoded_values ->
     loc COLS_ALL x (dummy_name c m) = indicator (loc cols r c) m) /\
  (forall c, In c cols_scaled -> loc COLS_ALL x c = loc cols r c).

(** The rounds of the csv frame on one side of the cutoff date that have
    every numeric feature. *)
Definition usable (side : cell -> bool) (df : DataFrame) (r : list cell)
  : bool :=
  side (GameDate df r) && notna_on (columns df) cols_scaled r.

(** ** Baselines *)

(** The share of the rounds of [l] whose CTWin is [v]. *)
Definition share (v : Z) (l : list Round) : Q :=
  inject_Z (Z.of_nat (List.length (filter (fun r => Z.eqb (CTWin r) v) l)))
  / inject_Z (Z.of_nat (List.length l)).

(** ** Design matrices (tuning notebook) *)

Module Tuning.

(** The column lists of the tuning notebook: no BombSite columns, and a
    second feature set without the distances to the bomb sites. *)
Definition COLS_ALL : list string :=
  ["MapName_de_dust2"; "MapName_de_inferno"; "MapName_de_mirage";
   "MapName_de_nuke"; "MapName_de_overpass"; "MapName_de_train";
   "MapName_de_vertigo";
   "TicksSinceStart"; "CTEqVal"; "TEqVal"; "TRemaining"; "CTRemaining";
   "THpRemaining"; "CTHpRemaining"; "BombPlanted"; "CTDistBombsiteA";
   "CTDistBombsiteB"; "TDistBombsiteA"; "TDistBombsiteB"].

Definition COLS_NO_SPATIAL : list string :=
  ["MapName_de_dust2"; "MapName_de_inferno"; "MapName_de_mirage";
   "MapName_de_nuke"; "MapName_de_overpass"; "MapName_de_train";
   "MapName_de_vertigo";
   "TicksSinceStart"; "CTEqVal"; "TEqVal"; "TRemaining"; "CTRemaining";
   "THpRemaining"; "CTHpRemaining"; "BombPlanted"].

Definition COLS_CB_ALL : list string :=
  ["MapName"; "TicksSinceStart"; "CTEqVal"; "TEqVal"; "TRemaining";
   "CTRemaining"; "THpRemaining"; "CTHpRemaining"; "BombPlanted";
   "CTDistBombsiteA"; "CTDistBombsiteB"; "TDistBombsiteA"; "TDistBombsiteB"].

Definition COLS_CB_NO_SPATIAL : list string :=
  ["MapName"; "TicksSinceStart"; "CTEqVal"; "TEqVal"; "TRemaining";
   "CTRemaining"; "THpRemaining"; "CTHpRemaining"; "BombPlanted"].

Record Prepared : Type := mkPrepared {
  X_train_ALL : DataFrame;
  X_train_NO_SPATIAL : DataFrame;
  y_train : list cell;
  X_test_ALL : DataFrame;
  X_test_NO_SPATIAL : DataFrame;
  y_test : list cell;
  X_train_cb_ALL : DataFrame;
  X_train_cb_NO_SPATIAL : DataFrame;
  y_train_cb : list cell;
  X_test_cb_ALL : DataFrame;
  X_test_cb_NO_SPATIAL : DataFrame;
  y_test_cb : list cell;
  train_rounds : DataFrame;
  test_rounds : DataFrame
}.

(** The data preparation cell of the tuning notebook. *)
Definition prepare (train test : DataFrame) : result Prepared :=
  train <- dropna train COLS_ALL ;;
  X_train_ALL <- getitems train COLS_ALL ;;
  X_train_NO_SPATIAL <- getitems train COLS_NO_SPATIAL ;;
  y_train <- getitem train "CTWin" ;;
  test <- dropna test COLS_ALL ;;
  X_test_ALL <- getitems test COLS_ALL ;;
  X_test_NO_SPATIAL <- getitems test COLS_NO_SPATIAL ;;
  y_test <- getitem test "CTWin" ;;
  train <- dropna train COLS_CB_ALL ;;
  X_train_cb_ALL <- getitems train COLS_CB_ALL ;;
  X_train_cb_NO_SPATIAL <- getitems train COLS_CB_NO_SPATIAL ;;
  y_train_cb <- getitem train "CTWin" ;;
  test <- dropna test COLS_CB_ALL ;;
  X_test_cb_ALL <- getitems test COLS_CB_ALL ;;
  X_test_cb_NO_SPATIAL <- getitems test COLS_CB_NO_SPATIAL ;;
  y_test_cb <- getitem test "CTWin" ;;
  Ok (mkPrepared X_train_ALL X_train_NO_SPATIAL y_train
                 X_test_ALL X_test_NO_SPATIAL y_test
                 X_train_cb_ALL X_train_cb_NO_SPATIAL y_train_cb
                 X_test_cb_ALL X_test_cb_NO_SPATIAL y_test_cb
                 train test).

(** The cells from the encoding to the design matrices. *)
Definition design_matrices (df : DataFrame) : result Prepared :=
  df <- preprocess_tuning df ;;
  train <- train_df CUTOFF_DATE_tuning df ;;
  test <- test_df CUTOFF_DATE_tuning df ;;
  prepare train test.

(** The maps the one-hot columns of [COLS_ALL] stand for. *)
Definition encoded_maps : list string :=
  ["de_dust2"; "de_inferno"; "de_mirage"; "de_nuke"; "de_overpass";
   "de_train"; "de_vertigo"].

(** The columns the cells of the tuning notebook read from the csv
    file. *)
Definition csv_columns : list string :=
  ["GameDate"; "MapName"; "CTWin"] ++ cols_scaled.

(** Row [x] of a design matrix with header [header] encodes round [r] of
    the csv frame with header [cols]: under each one-hot column it holds
    the indicator of the round's MapName (0 under every map when the
    cell is missing), under each numeric column of the header the
    round's value. *)
Definition encodes_round (header cols : list string) (r x : list cell)
  : Prop :=
  (forall m, In m encoded_maps ->
     loc header x (dummy_name "MapName" m)
     = indicator (loc cols r "MapName") m) /\
  (forall c, In c cols_scaled -> In c header ->
     loc header x c = loc cols r c).

End Tuning.

(** ** Example rounds *)

(** A row of the csv file, in the order of [csv_columns]; of the numeric
    features only TicksSinceStart varies in the examples. *)
Definition csv_round (date map site : cell) (win : Q) (ticks : cell)
  : list cell :=
  [date; map; site; Num win; ticks; Num 4000; Num 3000; Num 5; Num 5;
   Num 500; Num 500; Num 0; Num 10; Num 20; Num 30; Num 40].

(** 2019-05-31, before both cutoff dates, and 2019-12-15, not before
    either of them. *)
Definition day_before : cell := Time 1559260800000000000.
Definition day_after : cell := Time 1576368000000000000.

(** Nine rounds in which every map and every bomb site value occurs; one
    round has no map, one no bomb site, one no tick count. *)
Definition example_rounds : DataFrame :=
  mkDF csv_columns
       [ csv_round day_before (Str "de_dust2") (Str "A") 1 (Num 100);
         csv_round day_before (Str "de_inferno") (Str "B") 0 (Num 200);
         csv_round day_before (Str "de_mirage") (Str "NotPlanted") 1 (Num 300);
         csv_round day_before (Str "de_nuke") (Str "A") 0 (Num 400);
         csv_round day_before NA (Str "B") 1 (Num 500);
         csv_round day_before (Str "de_overpass") (Str "NotPlanted") 0 NA;
         csv_round day_after (Str "de_train") (Str "A") 1 (Num 100);
         csv_round day_after (Str "de_vertigo") NA 0 (Num 200);
         csv_round day_after (Str "de_dust2") (Str "B") 1 (Num 300) ].

(** A frame for the examples, when a cell raises. *)
Definition no_frame : DataFrame := mkDF [] [].

Definition or_else {A : Type} (m : result A) (d : A) : A :=
  match m with
  | Ok a => a
  | Raise _ => d
  end.

(** The training and test frames of the example rounds, as the
    preprocessing cell of either notebook leaves them. *)
Definition example_train : DataFrame :=
  or_else (df <- preprocess_revised example_rounds ;; train_df CUTOFF_DATE df)
          no_frame.

Definition example_test : DataFrame :=
  or_else (df <- preprocess_revised example_rounds ;; test_df CUTOFF_DATE df)
          no_frame.

Definition example_train_tuning : DataFrame :=
  or_else (df <- preprocess_tuning example_rounds ;;
           train_df CUTOFF_DATE_tuning df)
          no_frame.

Definition example_test_tuning : DataFrame :=
  or_else (df <- preprocess_tuning example_rounds ;;
           test_df CUTOFF_DATE_tuning df)
          no_frame.

(* ================================================================== *)
(** * Part II: theorems *)
(* ================================================================== *)

(** ** Frames: lookups and masks *)

Lemma mask_rows_map {A : Type} (f : A -> bool) (l : list A) :
  mask_rows (map f l) l = filter f l.
Proof.
  induction l as [|x l IH]; simpl; [reflexivity|].
  destruct (f x); now rewrite IH.
Qed.

Lemma mask_rows_map_series {A B : Type} (g : A -> B) (f : B -> bool) (l : list A) :
  mask_rows (map f (map g l)) l = filter (fun x => f (g x)) l.
Proof.
  rewrite map_map. apply mask_rows_map.
Qed.

Lemma train_df_filter cutoff df :
  has_column df "GameDate" = true ->
  train_df cutoff df =
  Ok (mkDF (columns df)
           (filter (fun r => lt_cutoff cutoff (GameDate df r)) (rows df))).
Proof.
  intros Hc. unfold train_df, getitem. rewrite Hc. simpl.
  unfold boolean_index. now rewrite mask_rows_map_series.
Qed.

Lemma test_df_filter cutoff df :
  has_column df "GameDate" = true ->
  test_df cutoff df =
  Ok (mkDF (columns df)
           (filter (fun r => ge_cutoff cutoff (GameDate df r)) (rows df))).
Proof.
  intros Hc. unfold test_df, getitem. rewrite Hc. simpl.
  unfold boolean_index. now rewrite mask_rows_map_series.
Qed.

Lemma lt_cutoff_spec cutoff c :
  lt_cutoff cutoff c = true <-> exists t, c = Time t /\ (t < cutoff)%Z.
Proof.
  destruct c; simpl; split; try discriminate;
    try (intros (t' & Ht & _); discriminate).
  - intros H. exists t. split; [reflexivity|]. now apply Z.ltb_lt.
  - intros (t' & Ht & Hlt). injection Ht as <-. now apply Z.ltb_lt.
Qed.

Lemma ge_cutoff_spec cutoff c :
  ge_cutoff cutoff c = true <-> exists t, c = Time t /\ (cutoff <= t)%Z.
Proof.
  destruct c; simpl; split; try discriminate;
    try (intros (t' & Ht & _); discriminate).
  - intros H. exists t. split; [reflexivity|]. rewrite Z.geb_le in H. lia.
  - intros (t' & Ht & Hlt). injection Ht as <-. rewrite Z.geb_le. lia.
Qed.

(** Three filters that exclude each other and cover every element split a
    list up to the order of its elements. *)
Lemma filter3_Permutation {A : Type} (f g h : A -> bool) (l : list A) :
  (forall x, In x l ->
     (f x = true /\ g x = false /\ h x = false) \/
     (f x = false /\ g x = true /\ h x = false) \/
     (f x = false /\ g x = false /\ h x = true)) ->
  Permutation (filter f l ++ filter g l ++ filter h l) l.
Proof.
  induction l as [|x l IH]; intros H; simpl; [constructor|].
  assert (IH' := IH (fun y Hy => H y (or_intror Hy))).
  destruct (H x (or_introl eq_refl)) as [(-> & -> & ->)|[(-> & -> & ->)|(-> & -> & ->)]];
    simpl.
  - now constructor.
  - apply Permutation_sym, Permutation_cons_app, Permutation_sym. exact IH'.
  - apply Permutation_sym.
    rewrite app_assoc. apply Permutation_cons_app.
    rewrite <- app_assoc. now apply Permutation_sym.
Qed.

(** C1 (as amended).  On a frame whose GameDate column holds timestamps or
    NaT, both selections succeed and keep the header; a row is in the
    training set exactly when its GameDate is a timestamp strictly before
    the cutoff, and in the test set exactly when it is a timestamp on or
    after the cutoff, so a row dated on the cutoff is a test row; no row is
    in both; every row with a GameDate is in one of them and a row with a
    missing GameDate is in neither; and the training rows, the test rows
    and the undated rows together are the rows of the frame, each as often
    as it occurs. *)
Theorem split_by_date (cutoff : Z) (df : DataFrame) :
  has_column df "GameDate" = true ->
  datetime_column df "GameDate" ->
  exists train test,
    train_df cutoff df = Ok train /\
    test_df cutoff df = Ok test /\
    columns train = columns df /\
    columns test = columns df /\
    (forall r, In r (rows train) <->
       In r (rows df) /\ exists t, GameDate df r = Time t /\ (t < cutoff)%Z) /\
    (forall r, In r (rows test) <->
       In r (rows df) /\ exists t, GameDate df r = Time t /\ (cutoff <= t)%Z) /\
    (forall r, In r (rows df) -> GameDate df r = Time cutoff ->
       In r (rows test)) /\
    (forall r, ~ (In r (rows train) /\ In r (rows test))) /\
    (forall r, In r (rows df) -> GameDate df r <> NA ->
       In r (rows train) \/ In r (rows test)) /\
    (forall r, In r (rows df) -> GameDate df r = NA ->
       ~ In r (rows train) /\ ~ In r (rows test)) /\
    Permutation
      (rows train ++ rows test
       ++ filter (fun r => isna (GameDate df r)) (rows df))
      (rows df).
Proof.
  intros Hc Hty.
  eexists. eexists.
  split; [apply train_df_filter; exact Hc|].
  split; [apply test_df_filter; exact Hc|].
  cbn [columns rows].
  assert (Htrain : forall r,
    In r (filter (fun r => lt_cutoff cutoff (GameDate df r)) (rows df)) <->
    In r (rows df) /\ exists t, GameDate df r = Time t /\ (t < cutoff)%Z).
  { intros r. rewrite filter_In, lt_cutoff_spec. reflexivity. }
  assert (Htest : forall r,
    In r (filter (fun r => ge_cutoff cutoff (GameDate df r)) (rows df)) <->
    In r (rows df) /\ exists t, GameDate df r = Time t /\ (cutoff <= t)%Z).
  { intros r. rewrite filter_In, ge_cutoff_spec. reflexivity. }
  repeat match goal with |- _ /\ _ => split end; try reflexivity.
  - apply Htrain.
  - apply Htest.
  - intros r Hin Hd. apply Htest. split; [exact Hin|].
    exists cutoff. split; [exact Hd|lia].
  - intros r [H1 H2]. apply Htrain in H1. apply Htest in H2.
    destruct H1 as (_ & t & Ht & Hlt), H2 as (_ & t' & Ht' & Hge).
    rewrite Ht in Ht'. injection Ht' as <-. lia.
  - intros r Hin Hna.
    unfold datetime_column in Hty. rewrite Forall_forall in Hty.
    specialize (Hty r Hin). fold (GameDate df r) in Hty.
    destruct (GameDate df r) as [| s | q | t] eqn:E; simpl in Hty;
      try contradiction; try congruence.
    destruct (Z_lt_le_dec t cutoff).
    + left. apply Htrain. split; [exact Hin|]. now exists t.
    + right. apply Htest. split; [exact Hin|]. now exists t.
  - intros r Hin Hna. split; intros H.
    + apply Htrain in H. destruct H as (_ & t & Ht & _).
      rewrite Hna in Ht. discriminate.
    + apply Htest in H. destruct H as (_ & t & Ht & _).
      rewrite Hna in Ht. discriminate.
  - apply filter3_Permutation. intros r Hin.
    unfold datetime_column in Hty. rewrite Forall_forall in Hty.
    specialize (Hty r Hin). fold (GameDate df r) in Hty.
    destruct (GameDate df r) as [| s | q | t]; simpl in Hty;
      try contradiction; simpl.
    + right; right. auto.
    + destruct (Z.ltb_spec t cutoff), (Z.geb_spec t cutoff); try lia; auto.
Qed.

(** The split of [undated_df] at the cutoff of the revised notebook. *)
Lemma split_by_date_witness :
  exists train test,
    train_df CUTOFF_DATE undated_df = Ok train /\
    test_df CUTOFF_DATE undated_df = Ok test /\
    columns train = columns undated_df /\
    columns test = columns undated_df /\
    (forall r, In r (rows train) <->
       In r (rows undated_df) /\
       exists t, GameDate undated_df r = Time t /\ (t < CUTOFF_DATE)%Z) /\
    (forall r, In r (rows test) <->
       In r (rows undated_df) /\
       exists t, GameDate undated_df r = Time t /\ (CUTOFF_DATE <= t)%Z) /\
    (forall r, In r (rows undated_df) -> GameDate undated_df r = Time CUTOFF_DATE ->
       In r (rows test)) /\
    (forall r, ~ (In r (rows train) /\ In r (rows test))) /\
    (forall r, In r (rows undated_df) -> GameDate undated_df r <> NA ->
       In r (rows train) \/ In r (rows test)) /\
    (forall r, In r (rows undated_df) -> GameDate undated_df r = NA ->
       ~ In r (rows train) /\ ~ In r (rows test)) /\
    Permutation
      (rows train ++ rows test
       ++ filter (fun r => isna (GameDate undated_df r)) (rows undated_df))
      (rows undated_df).
Proof.
  apply (split_by_date CUTOFF_DATE undated_df).
  - reflexivity.
  - repeat constructor.
Defined.

(** C1 (as stated) fails on [undated_df]: its second row, which has no
    GameDate, is a row of the frame and of neither set. *)
Lemma split_drops_undated_row :
  train_df CUTOFF_DATE undated_df
    = Ok (mkDF ["GameDate"; "MapName"; "CTWin"]
               [[Time 1559260800000000000; Str "de_dust2"; Num 1]]) /\
  test_df CUTOFF_DATE undated_df
    = Ok (mkDF ["GameDate"; "MapName"; "CTWin"]
               [[Time 1559347200000000000; Str "de_nuke"; Num 1]]) /\
  In [NA; Str "de_nuke"; Num 0] (rows undated_df).
Proof.
  repeat split. simpl. auto.
Qed.

(** ** Headers and rows *)

Lemma has_column_In {A : Type} (df : Frame A) c :
  has_column df c = true <-> In c (columns df).
Proof.
  unfold has_column. rewrite existsb_exists. split.
  - intros (k & Hk & E). apply String.eqb_eq in E. now subst.
  - intros H. exists c. split; [exact H|apply String.eqb_refl].
Qed.

Lemma lookup_not_In {A : Type} k cols (r : list A) :
  ~ In k cols -> lookup k cols r = None.
Proof.
  revert r. induction cols as [|x cols IH]; intros r H; [reflexivity|].
  destruct r as [|v r]; [reflexivity|]. simpl.
  destruct (String.eqb_spec k x) as [->|_].
  - exfalso. apply H. now left.
  - apply IH. intros Hin. apply H. now right.
Qed.

Lemma lookup_app {A : Type} k cols cs (r rs : list A) :
  List.length r = List.length cols ->
  lookup k (cols ++ cs) (r ++ rs) =
  match lookup k cols r with
  | Some v => Some v
  | None => lookup k cs rs
  end.
Proof.
  revert r. induction cols as [|x cols IH]; intros [|v r] H;
    simpl in *; try discriminate; [reflexivity|].
  destruct (String.eqb k x); [reflexivity|].
  apply IH. now injection H.
Qed.

Lemma lookup_nil {A : Type} k cols : @lookup A k cols [] = None.
Proof. now destruct cols. Qed.

Lemma lookup_drop {A : Type} c k cols (r : list A) :
  k <> c ->
  lookup k (drop_name c cols) (drop_cell c cols r) = lookup k cols r.
Proof.
  intros Hk. revert r. induction cols as [|x cols IH]; intros [|v r];
    simpl; try reflexivity.
  - now rewrite lookup_nil.
  - destruct (String.eqb_spec c x) as [->|Hc].
    + destruct (String.eqb_spec k x); [contradiction|reflexivity].
    + simpl. destruct (String.eqb k x); [reflexivity|apply IH].
Qed.

Lemma In_drop_name c k cols :
  NoDup cols -> (In k (drop_name c cols) <-> In k cols /\ k <> c).
Proof.
  induction 1 as [|x cols Hx Hnd IH]; simpl; [tauto|].
  destruct (String.eqb_spec c x) as [->|Hc].
  - split.
    + intros H. split; [now right|]. intros ->. contradiction.
    + intros [[->|H] Hk]; [contradiction|exact H].
  - simpl. rewrite IH. split.
    + intros [->|[H Hk]]; [split; [now left|congruence]|tauto].
    + intros [[->|H] Hk]; [now left|tauto].
Qed.

Lemma NoDup_drop_name c cols : NoDup cols -> NoDup (drop_name c cols).
Proof.
  induction 1 as [|x cols Hx Hnd IH]; simpl; [constructor|].
  destruct (String.eqb c x); [exact Hnd|].
  constructor; [|exact IH].
  rewrite In_drop_name by exact Hnd. tauto.
Qed.

Lemma length_drop {A : Type} c cols (r : list A) :
  List.length r = List.length cols ->
  List.length (drop_cell c cols r) = List.length (drop_name c cols).
Proof.
  revert r. induction cols as [|x cols IH]; intros [|v r] H;
    simpl in *; try discriminate; [reflexivity|].
  injection H as H.
  destruct (String.eqb c x); [exact H|]. simpl. now rewrite IH.
Qed.

Lemma lookup_map_map {A : Type} (g : string -> string) (f : string -> A) m lv :
  (forall a b, g a = g b -> a = b) ->
  In m lv ->
  lookup (g m) (map g lv) (map f lv) = Some (f m).
Proof.
  intros Hg. induction lv as [|x lv IH]; intros Hin; [destruct Hin|].
  simpl. destruct (String.eqb_spec (g m) (g x)) as [E|E].
  - now rewrite (Hg _ _ E).
  - destruct Hin as [->|Hin]; [congruence|now apply IH].
Qed.

Lemma lookup_Some_In {A : Type} k cols (r : list A) v :
  lookup k cols r = Some v -> In k cols.
Proof.
  intros H. destruct (in_dec string_dec k cols) as [Hin|Hn]; [exact Hin|].
  rewrite lookup_not_In in H by exact Hn. discriminate.
Qed.

(** ** Indicator names *)

Lemma append_inj_l (p a b : string) : (p ++ a = p ++ b)%string -> a = b.
Proof.
  induction p as [|x p IH]; simpl; intros H; [exact H|].
  injection H as H. now apply IH.
Qed.

Lemma dummy_name_inj c a b : dummy_name c a = dummy_name c b -> a = b.
Proof.
  unfold dummy_name. intros H.
  apply append_inj_l in H. now apply append_inj_l in H.
Qed.

Lemma prefix_append (p s : string) : String.prefix p (p ++ s) = true.
Proof.
  induction p as [|x p IH]; simpl; [now destruct s|].
  destruct (ascii_dec x x); [exact IH|contradiction].
Qed.

Lemma prefix_dummy_name c m :
  String.prefix (c ++ "_")%string (dummy_name c m) = true.
Proof.
  unfold dummy_name.
  replace (c ++ "_" ++ m)%string with ((c ++ "_") ++ m)%string.
  - apply prefix_append.
  - induction c as [|x c IH]; simpl; [reflexivity|now rewrite IH].
Qed.

Lemma prefix_sep_self c : String.prefix (c ++ "_")%string c = false.
Proof.
  induction c as [|x c IH]; simpl; [reflexivity|].
  destruct (ascii_dec x x); [exact IH|contradiction].
Qed.

Lemma fresh_dummy_name c df m : fresh c df -> ~ In (dummy_name c m) (columns df).
Proof.
  intros Hf Hin. apply Hf in Hin. rewrite prefix_dummy_name in Hin. discriminate.
Qed.

(** ** Categories *)

Lemma In_insert_sorted s x l : In x (insert_sorted s l) <-> x = s \/ In x l.
Proof.
  induction l as [|y l IH]; simpl; [intuition|].
  destruct (String.leb s y); simpl; [intuition|].
  rewrite IH. intuition.
Qed.

Lemma In_sort_strings x l : In x (sort_strings l) <-> In x l.
Proof.
  induction l as [|y l IH]; simpl; [tauto|].
  rewrite In_insert_sorted, IH. intuition.
Qed.

Lemma NoDup_insert_sorted s l : ~ In s l -> NoDup l -> NoDup (insert_sorted s l).
Proof.
  induction l as [|y l IH]; simpl; intros Hs Hnd; [repeat constructor; auto|].
  destruct (String.leb s y).
  - constructor; [exact Hs|exact Hnd].
  - inversion Hnd as [|? ? Hy Hl]; subst. constructor.
    + rewrite In_insert_sorted. intuition.
    + apply IH; [tauto|exact Hl].
Qed.

Lemma NoDup_sort_strings l : NoDup l -> NoDup (sort_strings l).
Proof.
  induction 1 as [|y l Hy Hnd IH]; simpl; [constructor|].
  apply NoDup_insert_sorted; [|exact IH].
  now rewrite In_sort_strings.
Qed.

Lemma NoDup_levels s : NoDup (levels s).
Proof. apply NoDup_sort_strings, NoDup_nodup. Qed.

Lemma In_str_values s v : In s (str_values v) <-> In (Str s) v.
Proof.
  induction v as [|c v IH]; simpl; [tauto|].
  destruct c; simpl; rewrite IH; split; intros H;
    try (now right); try (destruct H as [H|H]; [discriminate|exact H]).
  - destruct H as [->|H]; [now left|now right].
  - destruct H as [H|H]; [injection H as ->; now left|now right].
Qed.

Lemma In_levels s v : In s (levels v) <-> In (Str s) v.
Proof.
  unfold levels. now rewrite In_sort_strings, nodup_In, In_str_values.
Qed.

Lemma filter_eqb_NoDup s lv :
  NoDup lv -> In s lv -> filter (String.eqb s) lv = [s].
Proof.
  induction 1 as [|x lv Hx Hnd IH]; intros Hin; [destruct Hin|].
  simpl. destruct (String.eqb_spec s x) as [->|Hs].
  - f_equal. clear IH Hin Hnd.
    induction lv as [|y lv IH]; [reflexivity|]. simpl.
    destruct (String.eqb_spec x y) as [->|_].
    + exfalso. apply Hx. now left.
    + apply IH. intros H. apply Hx. now right.
  - destruct Hin as [->|Hin]; [contradiction|now apply IH].
Qed.

Lemma filter_false {A : Type} (l : list A) : filter (fun _ => false) l = [].
Proof. induction l; simpl; auto. Qed.

Lemma indicator_one v m : indicator v m = Num 1 <-> v = Str m.
Proof.
  destruct v; simpl; split; try discriminate.
  - destruct (String.eqb_spec s m) as [->|_]; [reflexivity|discriminate].
  - intros H. injection H as ->. now rewrite String.eqb_refl.
Qed.

Lemma indicator_zero_or_one v m :
  indicator v m = Num 1 \/ indicator v m = Num 0.
Proof.
  destruct v; simpl; auto. destruct (String.eqb s m); auto.
Qed.

Lemma is_one_indicator v m :
  is_one (indicator v m) = match v with Str s => String.eqb s m | _ => false end.
Proof.
  destruct v; simpl; try reflexivity. now destruct (String.eqb s m).
Qed.

(** ** The encoded frame *)

Lemma zip_with_map_map {A B C D : Type} (h : B -> C -> D) (f : A -> B)
  (g : A -> C) (l : list A) :
  zip_with h (map f l) (map g l) = map (fun x => h (f x) (g x)) l.
Proof. induction l; simpl; congruence. Qed.

Lemma dummy_name_neq c m : dummy_name c m <> c.
Proof.
  intros E. pose proof (prefix_dummy_name c m) as H.
  rewrite E, prefix_sep_self in H. discriminate.
Qed.

Lemma one_hot_eq df c :
  NoDup (columns df) -> has_column df c = true ->
  one_hot df c = Ok (one_hot_frame df c).
Proof.
  intros Hnd Hc. unfold one_hot, get_dummies, getitem. rewrite Hc. simpl.
  fold (series df c). unfold setitem. cbn [rows columns].
  unfold series at 1. rewrite !length_map, Nat.eqb_refl.
  replace (has_column _ c) with false.
  - unfold one_hot_frame. f_equal. unfold series.
    now rewrite zip_with_map_map.
  - symmetry. apply not_true_is_false. rewrite has_column_In. cbn [columns].
    rewrite in_app_iff, In_drop_name, in_map_iff by exact Hnd.
    intros [[_ H]|(m & H & _)]; [congruence|].
    now apply dummy_name_neq in H.
Qed.

Section OneHotRow.

Variables (c : string) (cols lv : list string) (r : list cell).
Hypothesis Hnd : NoDup cols.
Hypothesis Hlen : List.length r = List.length cols.
Hypothesis Hfresh :
  forall k, In k cols -> String.prefix (c ++ "_")%string k = false.

Let cols' := (drop_name c cols ++ map (dummy_name c) lv) ++ [c].
Let r' := one_hot_row c cols lv r.

Lemma one_hot_row_length : List.length r' = List.length cols'.
Proof.
  unfold r', cols', one_hot_row.
  rewrite !length_app, !length_map, length_drop by exact Hlen. reflexivity.
Qed.

Lemma lookup_In_Some k : In k cols -> exists v, lookup k cols r = Some v.
Proof.
  clear Hnd Hfresh cols' r'. revert r Hlen.
  induction cols as [|x cols0 IH]; intros [|v r0] Hlen Hin;
    simpl in *; try discriminate; [destruct Hin|].
  destruct (String.eqb_spec k x) as [->|Hk]; [now exists v|].
  destruct Hin as [->|Hin]; [contradiction|].
  apply IH; [now injection Hlen|exact Hin].
Qed.

Lemma one_hot_row_other k :
  In k cols -> k <> c -> loc cols' r' k = loc cols r k.
Proof.
  intros Hin Hk. unfold loc, cols', r', one_hot_row.
  rewrite <- !app_assoc.
  rewrite lookup_app by (apply length_drop; exact Hlen).
  rewrite lookup_drop by exact Hk.
  destruct (lookup_In_Some k Hin) as (v & ->). reflexivity.
Qed.

Lemma one_hot_row_restored : loc cols' r' c = loc cols r c.
Proof.
  unfold loc at 1. unfold cols', r', one_hot_row.
  rewrite lookup_app
    by (rewrite !length_app, !length_map, length_drop by exact Hlen;
        reflexivity).
  rewrite lookup_not_In.
  - simpl. now rewrite String.eqb_refl.
  - rewrite in_app_iff, In_drop_name, in_map_iff by exact Hnd.
    intros [[_ H]|(m & H & _)]; [congruence|].
    now apply dummy_name_neq in H.
Qed.

Lemma one_hot_row_indicator m :
  In m lv ->
  loc cols' r' (dummy_name c m) = indicator (loc cols r c) m.
Proof.
  intros Hm. unfold loc at 1. unfold cols', r', one_hot_row.
  rewrite <- !app_assoc.
  rewrite lookup_app by (apply length_drop; exact Hlen).
  rewrite lookup_not_In.
  - rewrite lookup_app by (now rewrite !length_map).
    rewrite lookup_map_map; [reflexivity|apply dummy_name_inj|exact Hm].
  - rewrite In_drop_name by exact Hnd. intros [Hin _].
    apply Hfresh in Hin. rewrite prefix_dummy_name in Hin. discriminate.
Qed.

Lemma one_hot_row_ones :
  ones cols' r' c lv =
  match loc cols r c with
  | Str s => filter (String.eqb s) lv
  | _ => []
  end.
Proof.
  unfold ones.
  rewrite (filter_ext_in _
    (fun m => match loc cols r c with
              | Str s => String.eqb s m | _ => false end)).
  - destruct (loc cols r c); try apply filter_false. reflexivity.
  - intros m Hm. rewrite one_hot_row_indicator by exact Hm.
    apply is_one_indicator.
Qed.

End OneHotRow.

Lemma Forall_Forall2_map {A B : Type} (P : A -> Prop) (R : A -> B -> Prop)
  (f : A -> B) (l : list A) :
  Forall P l -> (forall x, In x l -> P x -> R x (f x)) -> Forall2 R l (map f l).
Proof.
  induction 1 as [|x l Hx Hl IH]; intros H; simpl; constructor.
  - apply H; [now left|exact Hx].
  - apply IH. intros y Hy. apply H. now right.
Qed.

Lemma NoDup_map_dummy_name c lv :
  NoDup lv -> NoDup (map (dummy_name c) lv).
Proof.
  induction 1 as [|x lv Hx Hnd IH]; simpl; constructor; [|exact IH].
  rewrite in_map_iff. intros (y & E & Hy).
  apply dummy_name_inj in E. now subst.
Qed.

Lemma one_hot_frame_wf df c :
  wf df -> fresh c df -> wf (one_hot_frame df c).
Proof.
  intros [Hnd Hrows] Hf. split; cbn [columns rows one_hot_frame].
  - rewrite <- app_assoc. apply NoDup_app.
    + now apply NoDup_drop_name.
    + apply NoDup_app.
      * apply NoDup_map_dummy_name, NoDup_levels.
      * repeat constructor. intros [].
      * intros k Hk [<-|[]]. apply in_map_iff in Hk.
        destruct Hk as (m & H & _). now apply dummy_name_neq in H.
    + intros k Hk Hk'. apply In_drop_name in Hk; [|exact Hnd].
      destruct Hk as [Hk Hkc]. apply in_app_iff in Hk'.
      destruct Hk' as [Hk'|[<-|[]]]; [|congruence].
      apply in_map_iff in Hk'. destruct Hk' as (m & <- & _).
      now apply (fresh_dummy_name c df m).
  - apply Forall_map. rewrite Forall_forall in *. intros r Hr.
    apply one_hot_row_length. now apply Hrows.
Qed.

(** The core of [encodes]: the indicators are those of the row's value. *)
Lemma encodes_intro c df df' :
  In c (columns df') ->
  (forall m, In m (levels (series df c)) -> In (dummy_name c m) (columns df')) ->
  Forall2 (fun r r' =>
    loc (columns df') r' c = loc (columns df) r c /\
    forall m, In m (levels (series df c)) ->
      loc (columns df') r' (dummy_name c m) = indicator (loc (columns df) r c) m)
    (rows df) (rows df') ->
  encodes c df df'.
Proof.
  intros Hc Hd H. split; [exact Hc|]. split; [exact Hd|].
  assert (Hin : Forall (fun r => In r (rows df)) (rows df))
    by (apply Forall_forall; auto).
  revert H Hin. generalize (rows df) at 1 3 4. generalize (rows df').
  intros l' l H. induction H as [|r r' l l' [Hres Hind] Hrest IH];
    intros Hin; constructor.
  - inversion Hin as [|? ? Hr _]; subst.
    assert (Hones : ones (columns df') r' c (levels (series df c)) =
                    match loc (columns df) r c with
                    | Str s => filter (String.eqb s) (levels (series df c))
                    | _ => []
                    end).
    { unfold ones.
      rewrite (filter_ext_in _
        (fun m => match loc (columns df) r c with
                  | Str s => String.eqb s m | _ => false end)).
      - destruct (loc (columns df) r c); try apply filter_false. reflexivity.
      - intros m Hm. rewrite Hind by exact Hm. apply is_one_indicator. }
    repeat match goal with |- _ /\ _ => split end.
    + intros m Hm. rewrite Hind by exact Hm. split.
      * apply indicator_one.
      * apply indicator_zero_or_one.
    + intros s Hs. rewrite Hones, Hs. apply filter_eqb_NoDup.
      * apply NoDup_levels.
      * apply In_levels. unfold series. rewrite <- Hs.
        apply in_map_iff. now exists r.
    + intros Hna. now rewrite Hones, Hna.
    + exact Hres.
  - apply IH. now inversion Hin.
Qed.

Lemma one_hot_frame_encodes df c :
  wf df -> fresh c df -> encodes c df (one_hot_frame df c).
Proof.
  intros [Hnd Hrows] Hf. apply encodes_intro; cbn [columns rows one_hot_frame].
  - apply in_app_iff. right. now left.
  - intros m Hm. rewrite !in_app_iff. left. right. now apply in_map.
  - apply (Forall_Forall2_map _ _ _ _ Hrows). intros r _ Hlen. split.
    + now apply one_hot_row_restored.
    + intros m Hm. now apply one_hot_row_indicator.
Qed.

Lemma one_hot_frame_keeps df c :
  wf df -> keeps [c] df (one_hot_frame df c).
Proof.
  intros [Hnd Hrows]. split; cbn [columns rows one_hot_frame].
  - intros k Hk Hn. rewrite !in_app_iff. left. left.
    apply In_drop_name; [exact Hnd|]. split; [exact Hk|].
    intros ->. apply Hn. now left.
  - apply (Forall_Forall2_map _ _ _ _ Hrows). intros r _ Hlen k Hk Hn.
    apply one_hot_row_other; [exact Hlen|exact Hk|].
    intros ->. apply Hn. now left.
Qed.

(** ** Two encodings in a row *)

Lemma Forall2_compose {A B C : Type} (P : A -> B -> Prop) (Q : B -> C -> Prop)
  (l1 : list A) (l2 : list B) (l3 : list C) :
  Forall2 P l1 l2 -> Forall2 Q l2 l3 ->
  Forall2 (fun a c => exists b, P a b /\ Q b c) l1 l3.
Proof.
  intros H. revert l3. induction H as [|a b l1 l2 Hab _ IH]; intros l3 H3;
    inversion H3; subst; constructor; eauto.
Qed.

Lemma keeps_trans cs cs' df df1 df2 :
  keeps cs df df1 -> keeps cs' df1 df2 -> keeps (cs ++ cs') df df2.
Proof.
  intros [Hc1 Hr1] [Hc2 Hr2]. split.
  - intros k Hk Hn. rewrite in_app_iff in Hn. apply Hc2; [apply Hc1|]; tauto.
  - eapply Forall2_impl; [|exact (Forall2_compose _ _ _ _ _ Hr1 Hr2)].
    intros r r2 (r1 & H1 & H2) k Hk Hn. rewrite in_app_iff in Hn.
    rewrite H2; [apply H1| apply Hc1|]; tauto.
Qed.

Lemma keeps_series cs df df' c :
  keeps cs df df' -> In c (columns df) -> ~ In c cs ->
  series df' c = series df c.
Proof.
  intros [_ Hr] Hc Hn. unfold series.
  induction Hr as [|r r' l l' H _ IH]; simpl; [reflexivity|].
  now rewrite IH, H.
Qed.

(** An encoding survives a step that keeps its columns. *)
Lemma encodes_keeps c cs df df1 df2 :
  encodes c df df1 -> keeps cs df1 df2 ->
  ~ In c cs ->
  (forall m, ~ In (dummy_name c m) cs) ->
  encodes c df df2.
Proof.
  intros (Hc & Hd & Hr) [Hk2 Hr2] Hn Hnd.
  split; [now apply Hk2|]. split; [intros m Hm; apply Hk2; auto|].
  eapply Forall2_impl; [|exact (Forall2_compose _ _ _ _ _ Hr Hr2)].
  intros r r2 (r1 & (H1 & H2 & H3 & H4) & Hkeep).
  assert (Hsame : forall m, In m (levels (series df c)) ->
            loc (columns df2) r2 (dummy_name c m)
            = loc (columns df1) r1 (dummy_name c m))
    by (intros m Hm; apply Hkeep; auto).
  assert (Hones : ones (columns df2) r2 c (levels (series df c))
                  = ones (columns df1) r1 c (levels (series df c))).
  { unfold ones. apply filter_ext_in. intros m Hm. now rewrite Hsame. }
  repeat match goal with |- _ /\ _ => split end.
  - intros m Hm. rewrite Hsame by exact Hm. now apply H1.
  - intros s Hs. rewrite Hones. now apply H2.
  - intros Hna. rewrite Hones. now apply H3.
  - rewrite Hkeep; auto.
Qed.

(** An encoding of a kept column is an encoding of the original one. *)
Lemma keeps_encodes c cs df df1 df2 :
  keeps cs df df1 -> In c (columns df) -> ~ In c cs ->
  encodes c df1 df2 -> encodes c df df2.
Proof.
  intros Hk Hc Hn (Hc2 & Hd & Hr).
  pose proof (keeps_series _ _ _ _ Hk Hc Hn) as Hs.
  destruct Hk as [_ Hr1]. unfold encodes. rewrite <- Hs.
  split; [exact Hc2|]. split; [exact Hd|].
  eapply Forall2_impl; [|exact (Forall2_compose _ _ _ _ _ Hr1 Hr)].
  intros r r2 (r1 & Hkeep & H). cbv beta in H.
  rewrite (Hkeep c Hc Hn) in H. exact H.
Qed.

Lemma preprocess_tuning_correct (df : DataFrame) :
  wf df -> has_column df "MapName" = true -> fresh "MapName" df ->
  exists df',
    preprocess_tuning df = Ok df' /\ wf df' /\
    encodes "MapName" df df' /\ keeps ["MapName"] df df'.
Proof.
  intros Hwf Hc Hf. exists (one_hot_frame df "MapName").
  split; [apply one_hot_eq; [apply Hwf|exact Hc]|].
  split; [now apply one_hot_frame_wf|].
  split; [now apply one_hot_frame_encodes|now apply one_hot_frame_keeps].
Qed.

(** C5 (as amended).  On a frame with distinct column names, MapName and
    BombSite columns of strings or NaN, and no column already named like
    an indicator, the preprocessing cell of either notebook succeeds.  In
    its result every map value m of the data has an indicator column
    MapName_m, which is 1 in a row exactly when that row's MapName was m
    and 0 otherwise, so that a row with a MapName has exactly one map
    indicator at 1 and a row whose MapName is missing has none; the
    MapName column holds what it held; and every other column is still
    there and unchanged.  In the revised notebook the same holds of
    BombSite and its indicators. *)
Theorem one_hot_preprocessing (df : DataFrame) :
  wf df ->
  has_column df "MapName" = true -> category_column df "MapName" ->
  fresh "MapName" df ->
  has_column df "BombSite" = true -> category_column df "BombSite" ->
  fresh "BombSite" df ->
  (exists df',
     preprocess_tuning df = Ok df' /\ wf df' /\
     encodes "MapName" df df' /\ keeps ["MapName"] df df') /\
  (exists df',
     preprocess_revised df = Ok df' /\ wf df' /\
     encodes "MapName" df df' /\ encodes "BombSite" df df' /\
     keeps ["MapName"; "BombSite"] df df').
Proof.
  intros Hwf Hm _ Hfm Hb _ Hfb.
  split; [now apply preprocess_tuning_correct|].
  set (df1 := one_hot_frame df "MapName").
  assert (Hwf1 : wf df1) by now apply one_hot_frame_wf.
  assert (Henc1 : encodes "MapName" df df1) by now apply one_hot_frame_encodes.
  assert (Hk1 : keeps ["MapName"] df df1) by now apply one_hot_frame_keeps.
  assert (HbIn : In "BombSite" (columns df)) by now apply has_column_In.
  assert (Hnb : ~ In "BombSite" ["MapName"])
    by (intros [H|[]]; discriminate).
  assert (Hb1 : has_column df1 "BombSite" = true).
  { apply has_column_In. now apply (proj1 Hk1). }
  assert (Hf1 : fresh "BombSite" df1).
  { intros k Hk. unfold df1 in Hk. cbn [columns one_hot_frame] in Hk.
    rewrite !in_app_iff in Hk. destruct Hk as [[Hk|Hk]|[<-|[]]].
    - apply In_drop_name in Hk; [|apply Hwf]. now apply Hfb.
    - apply in_map_iff in Hk. destruct Hk as (m & <- & _). reflexivity.
    - reflexivity. }
  exists (one_hot_frame df1 "BombSite").
  split.
  { unfold preprocess_revised.
    rewrite (one_hot_eq df "MapName") by (apply Hwf || exact Hm).
    simpl. apply one_hot_eq; [apply Hwf1|exact Hb1]. }
  split; [now apply one_hot_frame_wf|].
  split.
  { apply (encodes_keeps _ ["BombSite"] _ df1); [exact Henc1| |..].
    - now apply one_hot_frame_keeps.
    - intros [H|[]]; discriminate.
    - intros m [H|[]]; discriminate. }
  split.
  { apply (keeps_encodes _ ["MapName"] _ df1); try assumption.
    now apply one_hot_frame_encodes. }
  apply (keeps_trans ["MapName"] ["BombSite"] df df1); [exact Hk1|].
  now apply one_hot_frame_keeps.
Qed.

Lemma unmapped_df_wf : wf unmapped_df.
Proof.
  split.
  - repeat constructor; simpl; intuition discriminate.
  - repeat constructor.
Qed.

Lemma unmapped_df_fresh c :
  c = "MapName" \/ c = "BombSite" -> fresh c unmapped_df.
Proof.
  intros [-> | ->] k Hk; simpl in Hk;
    repeat (destruct Hk as [<-|Hk]; [reflexivity|]); destruct Hk.
Qed.

(** The preprocessing cells applied to [unmapped_df]. *)
Lemma one_hot_preprocessing_witness :
  (exists df',
     preprocess_tuning unmapped_df = Ok df' /\ wf df' /\
     encodes "MapName" unmapped_df df' /\ keeps ["MapName"] unmapped_df df') /\
  (exists df',
     preprocess_revised unmapped_df = Ok df' /\ wf df' /\
     encodes "MapName" unmapped_df df' /\ encodes "BombSite" unmapped_df df' /\
     keeps ["MapName"; "BombSite"] unmapped_df df').
Proof.
  apply (one_hot_preprocessing unmapped_df).
  - exact unmapped_df_wf.
  - reflexivity.
  - repeat constructor.
  - apply unmapped_df_fresh. now left.
  - reflexivity.
  - repeat constructor.
  - apply unmapped_df_fresh. now right.
Defined.

(** C5 (as stated) fails on [unmapped_df]: in the encoded frame the second
    row, whose MapName is missing, has both map indicators at 0. *)
Lemma one_hot_missing_map_has_no_indicator :
  preprocess_tuning unmapped_df =
  Ok (mkDF ["GameDate"; "BombSite"; "CTWin";
            "MapName_de_dust2"; "MapName_de_nuke"; "MapName"]
           [ [Time 10; Str "A"; Num 1; Num 0; Num 1; Str "de_nuke"];
             [Time 12; NA; Num 0; Num 0; Num 0; NA];
             [Time 20; NA; Num 1; Num 1; Num 0; Str "de_dust2"] ]) /\
  levels (series unmapped_df "MapName") = ["de_dust2"; "de_nuke"] /\
  ones ["GameDate"; "BombSite"; "CTWin";
        "MapName_de_dust2"; "MapName_de_nuke"; "MapName"]
       [Time 12; NA; Num 0; Num 0; Num 0; NA]
       "MapName" ["de_dust2"; "de_nuke"] = [].
Proof.
  repeat split.
Qed.

(** ** Means of labels *)

Lemma Zsum_bounds (l : list Z) :
  Forall (fun z => z = 0 \/ z = 1)%Z l ->
  (0 <= Zsum l <= Z.of_nat (List.length l))%Z.
Proof.
  induction 1 as [|z l Hz _ IH]; simpl; [lia|].
  change (fold_right Z.add 0%Z l) with (Zsum l). lia.
Qed.

Lemma ratio_bounds (s n : Z) :
  (0 <= s <= n)%Z -> (0 < n)%Z ->
  0 <= inject_Z s / inject_Z n /\ inject_Z s / inject_Z n <= 1.
Proof.
  intros Hs Hn.
  assert (Hn' : 0 < inject_Z n).
  { change (inject_Z 0 < inject_Z n). rewrite <- Zlt_Qlt. exact Hn. }
  split.
  - apply Qle_shift_div_l; [exact Hn'|]. rewrite Qmult_0_l.
    change (inject_Z 0 <= inject_Z s). rewrite <- Zle_Qle. lia.
  - apply Qle_shift_div_r; [exact Hn'|]. rewrite Qmult_1_l.
    rewrite <- Zle_Qle. lia.
Qed.

Lemma mean_nonempty (l : list Z) :
  l <> [] ->
  mean l = Some (inject_Z (Zsum l) / inject_Z (Z.of_nat (List.length l))).
Proof. destruct l; [contradiction|reflexivity]. Qed.

Lemma mean_binary (l : list Z) :
  l <> [] -> Forall (fun z => z = 0 \/ z = 1)%Z l ->
  exists p, mean l = Some p /\ 0 <= p /\ p <= 1.
Proof.
  intros Hne Hb. rewrite mean_nonempty by exact Hne.
  eexists. split; [reflexivity|].
  apply ratio_bounds; [now apply Zsum_bounds|].
  destruct l; [contradiction|simpl; lia].
Qed.

Lemma probability_row_of (p : Q) :
  0 <= p -> p <= 1 -> probability_row (one_minus (Some p), Some p).
Proof.
  intros H0 H1. exists (1 - p), p. repeat split; try assumption. ring.
Qed.

Lemma stack_probs_map (l : list num) :
  stack_probs l = map (fun p => (one_minus p, p)) l.
Proof.
  unfold stack_probs, column_stack.
  induction l as [|x l IH]; simpl; [reflexivity|]. now rewrite IH.
Qed.

(** ** The frequency baseline *)

(** C4.  With a non-empty training set the frequency baseline gives every
    test row the same prediction, the sum of the training labels over
    their number, whatever the row holds: the predictions are as many as
    the test rows, each is that mean, and two test sets of the same size
    get the same predictions. *)
Theorem baseline_is_training_mean (train test : list Round) :
  train <> [] ->
  let mu := inject_Z (Zsum (map CTWin train))
            / inject_Z (Z.of_nat (List.length train)) in
  BaselinePred train test = repeat (Some mu) (List.length test) /\
  (forall i r, nth_error test i = Some r ->
     nth_error (BaselinePred train test) i = Some (Some mu)) /\
  (forall test', List.length test' = List.length test ->
     BaselinePred train test' = BaselinePred train test) /\
  baseline_probs train test
  = repeat (Some (1 - mu), Some mu) (List.length test).
Proof.
  intros Hne mu.
  assert (Hmean : mean (map CTWin train) = Some mu).
  { rewrite mean_nonempty by (destruct train; [contradiction|discriminate]).
    unfold mu. now rewrite length_map. }
  clearbody mu.
  assert (Hrep : forall t, BaselinePred train t = repeat (Some mu) (List.length t)).
  { intros t. unfold BaselinePred. rewrite Hmean.
    induction t as [|x t IH]; simpl; [reflexivity|]. now rewrite IH. }
  repeat match goal with |- _ /\ _ => split end.
  - apply Hrep.
  - intros i r Hi. rewrite Hrep. apply nth_error_repeat.
    apply nth_error_Some. congruence.
  - intros test' Hlen. now rewrite !Hrep, Hlen.
  - unfold baseline_probs. rewrite stack_probs_map, Hrep.
    induction (List.length test) as [|n IH]; simpl; [reflexivity|].
    now rewrite IH.
Qed.

Lemma baseline_is_training_mean_witness :
  let train := [dust2_win; nuke_loss; nuke_win] in
  let test := [vertigo_loss; dust2_loss] in
  let mu := inject_Z (Zsum (map CTWin train))
            / inject_Z (Z.of_nat (List.length train)) in
  BaselinePred train test = repeat (Some mu) (List.length test) /\
  (forall i r, nth_error test i = Some r ->
     nth_error (BaselinePred train test) i = Some (Some mu)) /\
  (forall test', List.length test' = List.length test ->
     BaselinePred train test' = BaselinePred train test) /\
  baseline_probs train test
  = repeat (Some (1 - mu), Some mu) (List.length test).
Proof.
  apply (baseline_is_training_mean [dust2_win; nuke_loss; nuke_win]
           [vertigo_loss; dust2_loss]).
  discriminate.
Defined.

(** ** The per-map baseline *)

(** The table has one row for a map of the training set, none for
    another map. *)
Lemma map_win_rate_lookup (train : list Round) (m : string) :
  map snd (filter (fun e => String.eqb (fst e) m) (map_win_rate train)) =
  if in_dec string_dec m (map MapName train) then [map_mean train m] else [].
Proof.
  unfold map_win_rate.
  set (keys := sort_strings (nodup string_dec (map MapName train))).
  assert (Hnd : NoDup keys) by apply NoDup_sort_strings, NoDup_nodup.
  assert (Hin : In m keys <-> In m (map MapName train)).
  { unfold keys. now rewrite In_sort_strings, nodup_In. }
  assert (Hfilter : forall ks,
    map snd (filter (fun e => String.eqb (fst e) m)
               (map (fun k => (k, map_mean train k)) ks))
    = map (map_mean train) (filter (String.eqb m) ks)).
  { induction ks as [|k ks IH]; simpl; [reflexivity|].
    rewrite (String.eqb_sym k m).
    destruct (String.eqb m k); simpl; now rewrite IH. }
  unfold map_mean in Hfilter at 1. rewrite Hfilter.
  destruct (in_dec string_dec m (map MapName train)) as [Hm|Hm].
  - rewrite filter_eqb_NoDup; [reflexivity|exact Hnd|now apply Hin].
  - replace (filter (String.eqb m) keys) with (@nil string); [reflexivity|].
    symmetry. rewrite <- Hin in Hm. clear -Hm.
    induction keys as [|k ks IH]; simpl; [reflexivity|].
    destruct (String.eqb_spec m k) as [->|_].
    + exfalso. apply Hm. now left.
    + apply IH. intros H. apply Hm. now right.
Qed.

Lemma unique_from_In (x : string) (l seen : list string) :
  In x (fold_left (fun seen x => if in_dec string_dec x seen then seen
                                 else seen ++ [x]) l seen)
  <-> In x seen \/ In x l.
Proof.
  revert seen. induction l as [|y l IH]; intros seen; simpl; [tauto|].
  rewrite IH. destruct (in_dec string_dec y seen) as [Hy|Hy].
  - split; [tauto|]. intros [H|[<-|H]]; auto.
  - rewrite in_app_iff. simpl. tauto.
Qed.

Lemma unique_from_NoDup (l seen : list string) :
  NoDup seen ->
  NoDup (fold_left (fun seen x => if in_dec string_dec x seen then seen
                                  else seen ++ [x]) l seen).
Proof.
  revert seen. induction l as [|y l IH]; intros seen Hnd; simpl; [exact Hnd|].
  apply IH. destruct (in_dec string_dec y seen) as [Hy|Hy]; [exact Hnd|].
  apply NoDup_app; [exact Hnd|repeat constructor; intros []|].
  intros z Hz [<-|[]]. contradiction.
Qed.

Lemma In_unique x l : In x (unique l) <-> In x l.
Proof. unfold unique. rewrite unique_from_In. simpl. tauto. Qed.

Lemma NoDup_unique l : NoDup (unique l).
Proof. apply unique_from_NoDup. constructor. Qed.

(** The frame the loop builds for one map of the training set. *)
Lemma baseline_map_loop_seen train (test : list Predicted) maps acc :
  (forall m, In m maps -> In m (map MapName train)) ->
  baseline_map_loop (map_win_rate train) test maps acc =
  Ok (acc ++ map (fun m =>
                    map (fun r => (fst r, map_mean train m))
                        (filter (fun r => String.eqb (MapName (fst r)) m) test))
                 maps).
Proof.
  revert acc. induction maps as [|m maps IH]; intros acc Hseen; simpl.
  - now rewrite app_nil_r.
  - rewrite map_win_rate_lookup.
    destruct (in_dec string_dec m (map MapName train)) as [_|Hn].
    + simpl. rewrite IH by (intros; apply Hseen; now right).
      now rewrite <- app_assoc.
    + exfalso. apply Hn, Hseen. now left.
Qed.

(** One map outside the training set stops the loop with IndexError. *)
Lemma baseline_map_loop_unseen train (test : list Predicted) maps acc :
  (exists m, In m maps /\ ~ In m (map MapName train)) ->
  baseline_map_loop (map_win_rate train) test maps acc = Raise IndexError.
Proof.
  revert acc. induction maps as [|m maps IH]; intros acc (u & Hu & Hn).
  - destruct Hu.
  - simpl. rewrite map_win_rate_lookup.
    destruct (in_dec string_dec m (map MapName train)) as [Hm|_];
      [|reflexivity].
    simpl. apply IH. exists u. split; [|exact Hn].
    destruct Hu as [->|Hu]; [contradiction|exact Hu].
Qed.

Lemma test_maps (test : list Round) :
  map (fun r : Predicted => MapName (fst r))
      (map (fun r => (r, Some (1 # 2))) test)
  = map MapName test.
Proof. now rewrite map_map. Qed.

(** C3.  When some row of the test set has a map that no training row
    has, [baseline_map] raises IndexError at [.values[0]]: it reaches no
    prediction for any row, the 0.5 set before the loop included, and
    prints nothing. *)
Theorem baseline_map_unseen_map_raises (train test : list Round) :
  (exists r, In r test /\ ~ In (MapName r) (map MapName train)) ->
  baseline_map_predict train test = Raise IndexError /\
  run (baseline_map train test) = ([], Raise IndexError).
Proof.
  intros (r & Hr & Hn).
  assert (H : baseline_map_predict train test = Raise IndexError).
  { unfold baseline_map_predict. rewrite test_maps.
    rewrite baseline_map_loop_unseen; [reflexivity|].
    exists (MapName r). split; [|exact Hn].
    apply In_unique. now apply in_map. }
  split; [exact H|].
  unfold run, baseline_map, io_bind, lift. now rewrite H.
Qed.

Lemma baseline_map_unseen_map_raises_witness :
  baseline_map_predict [dust2_win; nuke_loss] [dust2_loss; vertigo_loss]
    = Raise IndexError /\
  run (baseline_map [dust2_win; nuke_loss] [dust2_loss; vertigo_loss])
    = ([], Raise IndexError).
Proof.
  apply (baseline_map_unseen_map_raises [dust2_win; nuke_loss]
           [dust2_loss; vertigo_loss]).
  exists vertigo_loss. split.
  - simpl. auto.
  - simpl. intros [H|[H|[]]]; discriminate.
Defined.

(** C2 fails on a test set with one map of the training set and one
    outside it: the round on de_dust2 gets no prediction, because the
    loop raises on de_vertigo first. *)
Lemma baseline_map_leaves_seen_row_unpredicted :
  In "de_dust2" (map MapName [dust2_win; nuke_loss]) /\
  map_mean [dust2_win; nuke_loss] "de_dust2" = Some (1 # 1) /\
  baseline_map_predict [dust2_win; nuke_loss] [vertigo_loss; dust2_loss]
    = Raise IndexError /\
  run (baseline_map [dust2_win; nuke_loss] [vertigo_loss; dust2_loss])
    = ([], Raise IndexError).
Proof.
  repeat split. simpl. auto.
Qed.

(** ** Every test row gets its map's mean *)

Lemma filter_or_Permutation {A : Type} (f g : A -> bool) (l : list A) :
  (forall x, In x l -> f x = true -> g x = false) ->
  Permutation (filter f l ++ filter g l) (filter (fun x => f x || g x) l).
Proof.
  induction l as [|x l IH]; intros H; simpl; [constructor|].
  assert (IH' := IH (fun y Hy => H y (or_intror Hy))).
  destruct (f x) eqn:Ef; simpl.
  - rewrite (H x (or_introl eq_refl) Ef). now constructor.
  - destruct (g x); [|exact IH'].
    apply Permutation_sym, Permutation_cons_app, Permutation_sym. exact IH'.
Qed.

Lemma filter_all {A : Type} (f : A -> bool) (l : list A) :
  (forall x, In x l -> f x = true) -> filter f l = l.
Proof.
  induction l as [|x l IH]; intros H; simpl; [reflexivity|].
  rewrite (H x (or_introl eq_refl)), IH; [reflexivity|].
  intros y Hy. apply H. now right.
Qed.

Lemma existsb_eqb_In (k : string) (ms : list string) :
  existsb (String.eqb k) ms = true <-> In k ms.
Proof.
  rewrite existsb_exists. split.
  - intros (m & Hm & E). apply String.eqb_eq in E. now subst.
  - intros H. exists k. split; [exact H|apply String.eqb_refl].
Qed.

(** Splitting a list by the distinct values of a key and gluing the parts
    gives back its elements. *)
Lemma concat_groups_Permutation {A : Type} (key : A -> string)
  (l : list A) (ms : list string) :
  NoDup ms ->
  Permutation
    (List.concat (map (fun m => filter (fun r => String.eqb (key r) m) l) ms))
    (filter (fun r => existsb (String.eqb (key r)) ms) l).
Proof.
  induction 1 as [|m ms Hm Hnd IH]; simpl.
  - rewrite filter_false. constructor.
  - eapply Permutation_trans;
      [apply Permutation_app_head; exact IH|].
    apply filter_or_Permutation. intros r _ E.
    apply String.eqb_eq in E. subst m.
    apply not_true_is_false. now rewrite existsb_eqb_In.
Qed.

Lemma subset_rows train (test : list Round) m :
  map fst
    (map (fun r : Predicted => (fst r, map_mean train m))
       (filter (fun r : Predicted => String.eqb (MapName (fst r)) m)
          (map (fun r => (r, Some (1 # 2))) test)))
  = filter (fun r => String.eqb (MapName r) m) test.
Proof.
  induction test as [|r test IH]; simpl; [reflexivity|].
  destruct (String.eqb (MapName r) m); simpl; now rewrite IH.
Qed.

(** With every test map in the training set and a test set that is not
    empty, [baseline_map] reaches a prediction for every test row, and it
    is the mean CTWin of the training rows on the row's map. *)
Lemma baseline_map_predict_seen (train test : list Round) :
  maps_seen train test -> test <> [] ->
  exists rows,
    baseline_map_predict train test = Ok rows /\
    Permutation (map fst rows) test /\
    Forall (fun rp : Predicted =>
              snd rp = map_mean train (MapName (fst rp))) rows.
Proof.
  intros Hseen Hne. unfold baseline_map_predict. rewrite test_maps.
  rewrite baseline_map_loop_seen.
  2:{ intros m Hm. apply In_unique, in_map_iff in Hm.
      destruct Hm as (r & <- & Hr). now apply Hseen. }
  simpl.
  destruct (unique (map MapName test)) as [|m0 ms] eqn:Eu.
  { exfalso. destruct test as [|r test]; [contradiction|].
    assert (H : In (MapName r) (unique (map MapName (r :: test))))
      by (apply In_unique; now left).
    rewrite Eu in H. destruct H. }
  rewrite <- Eu. clear m0 ms Eu.
  replace (pd_concat _) with
    (Ok (List.concat (map (fun m =>
            map (fun r : Predicted => (fst r, map_mean train m))
              (filter (fun r : Predicted => String.eqb (MapName (fst r)) m)
                 (map (fun r => (r, Some (1 # 2))) test)))
          (unique (map MapName test))))).
  2:{ destruct (unique (map MapName test)) eqn:E; [|reflexivity].
      exfalso. destruct test as [|r test]; [contradiction|].
      assert (H : In (MapName r) (unique (map MapName (r :: test))))
        by (apply In_unique; now left).
      rewrite E in H. destruct H. }
  eexists. split; [reflexivity|]. split.
  - rewrite concat_map, map_map.
    rewrite (map_ext _ _ (subset_rows train test)).
    eapply Permutation_trans;
      [apply concat_groups_Permutation, NoDup_unique|].
    rewrite filter_all; [apply Permutation_refl|].
    intros r Hr. apply existsb_eqb_In, In_unique. now apply in_map.
  - apply Forall_forall. intros rp Hrp.
    apply in_concat in Hrp. destruct Hrp as (sub & Hsub & Hrp).
    apply in_map_iff in Hsub. destruct Hsub as (m & <- & _).
    apply in_map_iff in Hrp. destruct Hrp as (r & <- & Hr).
    apply filter_In in Hr. destruct Hr as [_ E].
    apply String.eqb_eq in E. simpl. now rewrite E.
Qed.

Lemma map_mean_binary train m :
  binary_labels train -> In m (map MapName train) ->
  exists p, map_mean train m = Some p /\ 0 <= p /\ p <= 1.
Proof.
  intros Hb Hm. unfold map_mean. apply mean_binary.
  - apply in_map_iff in Hm. destruct Hm as (r & <- & Hr).
    assert (H : In (CTWin r)
      (map CTWin (filter (fun r0 => String.eqb (MapName r0) (MapName r)) train))).
    { apply in_map, filter_In. split; [exact Hr|apply String.eqb_refl]. }
    intros E. rewrite E in H. destruct H.
  - apply Forall_map. apply Forall_forall. intros r Hr.
    apply filter_In in Hr. unfold binary_labels in Hb.
    rewrite Forall_forall in Hb. apply Hb, Hr.
Qed.

(** C9.  With a non-empty training set of 0/1 labels, every row of the
    matrix the frequency baseline hands to [print_results] has two finite
    entries, the second (the prediction) in [0, 1] and the two summing to
    1.  When every test map is a training map, the per-map baseline scores
    every test row, and every row of its matrix is of that kind too; it
    raises only on an empty test set, where there is nothing to
    concatenate. *)
Theorem baseline_predictions_are_probabilities (train test : list Round) :
  train <> [] -> binary_labels train ->
  Forall probability_row (baseline_probs train test) /\
  (maps_seen train test ->
   match baseline_map_predict train test with
   | Ok rows =>
       Permutation (map fst rows) test /\
       Forall probability_row (stack_probs (map snd rows))
   | Raise _ => test = []
   end).
Proof.
  intros Hne Hb. split.
  - unfold baseline_probs, BaselinePred. rewrite stack_probs_map, map_map.
    apply Forall_map, Forall_forall. intros r _.
    destruct (mean_binary (map CTWin train)) as (p & -> & H0 & H1).
    + destruct train; [contradiction|discriminate].
    + apply Forall_map. exact Hb.
    + now apply probability_row_of.
  - intros Hseen. destruct test as [|r0 test]; [reflexivity|].
    destruct (baseline_map_predict_seen train (r0 :: test) Hseen)
      as (rows & -> & Hperm & Hrows); [discriminate|].
    split; [exact Hperm|].
    rewrite stack_probs_map, map_map. apply Forall_map.
    rewrite Forall_forall in *. intros rp Hrp. rewrite (Hrows rp Hrp).
    destruct (map_mean_binary train (MapName (fst rp)) Hb)
      as (p & -> & H0 & H1).
    + apply Hseen. apply (Permutation_in _ Hperm). now apply in_map.
    + now apply probability_row_of.
Qed.

Lemma baseline_predictions_are_probabilities_witness :
  let train := [dust2_win; nuke_loss; nuke_win] in
  let test := [nuke_loss; dust2_loss] in
  Forall probability_row (baseline_probs train test) /\
  match baseline_map_predict train test with
  | Ok rows =>
      Permutation (map fst rows) test /\
      Forall probability_row (stack_probs (map snd rows))
  | Raise _ => test = []
  end.
Proof.
  destruct (baseline_predictions_are_probabilities
              [dust2_win; nuke_loss; nuke_win] [nuke_loss; dust2_loss])
    as [Hfreq Hmap].
  - discriminate.
  - repeat (apply Forall_cons; [simpl; auto|]). apply Forall_nil.
  - split; [exact Hfreq|]. apply Hmap.
    intros r [<-|[<-|[]]]; simpl; auto.
Defined.

(** ** Labels *)

Lemma binary_unique_labels (y : list Z) :
  Forall (fun l => l = 0 \/ l = 1)%Z y -> In 0%Z y -> In 1%Z y ->
  unique_labels y = [0; 1]%Z \/ unique_labels y = [1; 0]%Z.
Proof.
  intros Hb H0 H1. unfold unique_labels.
  assert (Hnd := NoDup_nodup Z.eq_dec y).
  assert (Hin : forall x, In x (nodup Z.eq_dec y) -> x = 0%Z \/ x = 1%Z).
  { intros x Hx. apply nodup_In in Hx. rewrite Forall_forall in Hb. auto. }
  apply (nodup_In Z.eq_dec) in H0, H1.
  destruct (nodup Z.eq_dec y) as [|a [|b [|c l]]].
  - destruct H0.
  - destruct H0 as [->|[]]. destruct H1 as [H|[]]. discriminate.
  - inversion Hnd as [|? ? Ha _]; subst.
    destruct (Hin a (or_introl eq_refl)) as [-> | ->],
             (Hin b (or_intror (or_introl eq_refl))) as [-> | ->]; auto;
      exfalso; apply Ha; now left.
  - exfalso. inversion Hnd as [|? ? Ha Hnd']; subst.
    inversion Hnd' as [|? ? Hb' _]; subst.
    destruct (Hin a (or_introl eq_refl)) as [-> | ->],
             (Hin b (or_intror (or_introl eq_refl))) as [-> | ->],
             (Hin c (or_intror (or_intror (or_introl eq_refl)))) as [-> | ->];
      simpl in Ha, Hb'; intuition.
Qed.

Lemma Zmax_list_binary (y : list Z) :
  Forall (fun l => l = 0 \/ l = 1)%Z y -> In 1%Z y -> Zmax_list y = 1%Z.
Proof.
  intros Hb H1. destruct y as [|a y]; [destruct H1|]. simpl.
  inversion Hb as [|? ? Ha Hy]; subst. clear Hb.
  revert a Ha H1. induction y as [|b y IH]; intros a Ha H1; simpl.
  - destruct H1 as [->|[]]. reflexivity.
  - inversion Hy as [|? ? Hb Hy']; subst.
    assert (Hm : (fold_right Z.max a y = 0 \/ fold_right Z.max a y = 1)%Z).
    { clear -Ha Hy'. induction Hy' as [|c y Hc _ IH]; simpl; [exact Ha|lia]. }
    destruct H1 as [->|[->|H1]].
    + assert (fold_right Z.max 1%Z y = 1%Z); [|lia].
      clear -Hy'. induction Hy' as [|c y Hc _ IH]; simpl; lia.
    + lia.
    + specialize (IH Hy' a Ha (or_intror H1)). lia.
Qed.

Lemma pos_label_binary (y : list Z) :
  Forall (fun l => l = 0 \/ l = 1)%Z y -> In 0%Z y -> In 1%Z y ->
  pos_label y = 1%Z.
Proof.
  intros Hb H0 H1. unfold pos_label.
  destruct (binary_unique_labels y Hb H0 H1) as [-> | ->];
    now apply Zmax_list_binary.
Qed.

(** ** NaN checks *)

Lemma all_finite2_finite (M : list (Q * Q)) : all_finite2 (finite M) = Ok M.
Proof.
  unfold finite. induction M as [|[a b] M IH]; simpl; [reflexivity|].
  now rewrite IH.
Qed.

Lemma all_finite_Some (l : list Q) : all_finite (map Some l) = Ok l.
Proof. induction l as [|q l IH]; simpl; [reflexivity|]. now rewrite IH. Qed.

Lemma snd_finite (M : list (Q * Q)) :
  map snd (finite M) = map Some (map snd M).
Proof. unfold finite. now rewrite !map_map. Qed.

Lemma check_consistent_length_ok {A B : Type} (a : list A) (b : list B) :
  List.length a = List.length b -> check_consistent_length a b = Ok tt.
Proof.
  intros H. unfold check_consistent_length. now rewrite H, Nat.eqb_refl.
Qed.

Lemma ge_half_spec (q : Q) : ge_half (Some q) = true <-> 1 # 2 <= q.
Proof. apply Qle_bool_iff. Qed.

(** ** What [print_results] prints *)

Section PrintResults.

Variables (y : list Z) (M : list (Q * Q)).
Hypothesis Hbinary : Forall (fun l => l = 0 \/ l = 1)%Z y.
Hypothesis Hneg : In 0%Z y.
Hypothesis Hpos : In 1%Z y.
Hypothesis Hlen : List.length M = List.length y.
Hypothesis Hrange : Forall (fun row => 0 <= snd row /\ snd row <= 1) M.

Lemma log_loss_ok : log_loss y (finite M) = Ok (LogLossOf y M).
Proof.
  unfold log_loss. rewrite all_finite2_finite. simpl.
  rewrite check_consistent_length_ok by (symmetry; exact Hlen). simpl.
  now destruct (binary_unique_labels y Hbinary Hneg Hpos) as [-> | ->].
Qed.

Lemma brier_score_loss_ok :
  brier_score_loss y (map snd (finite M)) =
  Ok (Exact (Qsum (zip_with (fun l p => (outcome 1 l - p) ^ 2)
                            y (map snd M))
             / inject_Z (Z.of_nat (List.length M)))).
Proof.
  unfold brier_score_loss. rewrite snd_finite, all_finite_Some. simpl.
  rewrite check_consistent_length_ok
    by (rewrite length_map; symmetry; exact Hlen).
  simpl.
  replace (Nat.ltb 2 (List.length (unique_labels y))) with false
    by (now destruct (binary_unique_labels y Hbinary Hneg Hpos) as [-> | ->]).
  destruct (map snd M) as [|p ps] eqn:E.
  { exfalso. destruct y; [destruct Hneg|]. destruct M; discriminate. }
  rewrite <- E.
  replace (forallb _ (map snd M)) with true.
  - rewrite pos_label_binary by assumption. now rewrite length_map.
  - symmetry. apply forallb_forall. intros q Hq.
    apply in_map_iff in Hq. destruct Hq as (row & <- & Hrow).
    rewrite Forall_forall in Hrange. destruct (Hrange row Hrow) as [H0 H1].
    apply andb_true_iff. split; now apply Qle_bool_iff.
Qed.

Lemma roc_auc_score_ok :
  roc_auc_score y (map snd (finite M)) =
  Ok (Exact (trapz (roc_curve (map (Z.eqb 1) y) (map snd M)))).
Proof.
  unfold roc_auc_score. rewrite snd_finite, all_finite_Some. simpl.
  rewrite check_consistent_length_ok
    by (rewrite length_map; symmetry; exact Hlen).
  simpl.
  now destruct (binary_unique_labels y Hbinary Hneg Hpos) as [-> | ->].
Qed.

Lemma accuracy_score_ok :
  accuracy_score y (map ge_half (map snd (finite M))) =
  Ok (Exact (inject_Z (Z.of_nat (List.length
                (filter (fun yp => agrees (fst yp) (snd yp))
                   (combine y (map (fun row => Qle_bool (1 # 2) (snd row)) M)))))
             / inject_Z (Z.of_nat (List.length y)))).
Proof.
  unfold accuracy_score.
  rewrite check_consistent_length_ok
    by (rewrite !length_map; unfold finite; rewrite length_map;
        symmetry; exact Hlen).
  simpl. destruct y as [|l y'] eqn:E; [destruct Hneg|]. rewrite <- E.
  unfold finite. now rewrite !map_map.
Qed.

Lemma print_results_ok :
  run (print_results y (finite M)) =
  ([ Text "---------- LOG LOSS";
     Value (LogLossOf y M);
     Text "---------- BRIER SCORE";
     Value (Exact (Qsum (zip_with (fun l p => (outcome 1 l - p) ^ 2)
                                  y (map snd M))
                   / inject_Z (Z.of_nat (List.length M))));
     Text "---------- AUC";
     Value (Exact (trapz (roc_curve (map (Z.eqb 1) y) (map snd M))));
     Text "---------- ACCURACY";
     Value (Exact (inject_Z (Z.of_nat (List.length
                     (filter (fun yp => agrees (fst yp) (snd yp))
                        (combine y (map (fun row => Qle_bool (1 # 2) (snd row)) M)))))
                   / inject_Z (Z.of_nat (List.length y)))) ],
   Ok tt).
Proof.
  unfold run, print_results, io_bind, print, lift.
  rewrite log_loss_ok, brier_score_loss_ok, roc_auc_score_ok,
    accuracy_score_ok.
  reflexivity.
Qed.

End PrintResults.

(** C8 (as amended).  For 0/1 labels that show both classes and a
    two-column matrix of finite numbers with one row per label and its
    second column in [0, 1], [print_results] returns normally and prints
    exactly four metrics under their headings, in the order log loss,
    Brier score, ROC AUC, accuracy.  The Brier score, the AUC and the
    accuracy are functions of the labels and of the second column alone,
    and the accuracy counts a row as positive exactly when that column's
    entry is at least 1/2. *)
Theorem print_results_reports_four_metrics (y : list Z) (M : list (Q * Q)) :
  Forall (fun l => l = 0 \/ l = 1)%Z y -> In 0%Z y -> In 1%Z y ->
  List.length M = List.length y ->
  Forall (fun row => 0 <= snd row /\ snd row <= 1) M ->
  run (print_results y (finite M)) =
    ([ Text "---------- LOG LOSS";
       Value (LogLossOf y M);
       Text "---------- BRIER SCORE";
       Value (Exact (Qsum (zip_with (fun l p => (outcome 1 l - p) ^ 2)
                                    y (map snd M))
                     / inject_Z (Z.of_nat (List.length M))));
       Text "---------- AUC";
       Value (Exact (trapz (roc_curve (map (Z.eqb 1) y) (map snd M))));
       Text "---------- ACCURACY";
       Value (Exact (inject_Z (Z.of_nat (List.length
                       (filter (fun yp => agrees (fst yp) (snd yp))
                          (combine y (map (fun row => Qle_bool (1 # 2) (snd row)) M)))))
                     / inject_Z (Z.of_nat (List.length y)))) ],
     Ok tt) /\
  (forall M', map snd M' = map snd M ->
     skipn 2 (fst (run (print_results y (finite M')))) =
     skipn 2 (fst (run (print_results y (finite M))))) /\
  (forall q, ge_half (Some q) = true <-> 1 # 2 <= q).
Proof.
  intros Hb H0 H1 Hlen Hrange.
  split; [now apply print_results_ok|].
  split; [|apply ge_half_spec].
  intros M' Hsnd.
  assert (Hlen' : List.length M' = List.length y).
  { rewrite <- Hlen, <- (length_map snd M'), Hsnd. apply length_map. }
  assert (Hrange' : Forall (fun row => 0 <= snd row /\ snd row <= 1) M').
  { apply Forall_map with (f := snd) (P := fun p => 0 <= p /\ p <= 1).
    rewrite Hsnd. now apply Forall_map. }
  rewrite !print_results_ok by assumption. simpl.
  rewrite Hsnd, Hlen, Hlen'.
  replace (map (fun row => Qle_bool (1 # 2) (snd row)) M')
    with (map (Qle_bool (1 # 2)) (map snd M')) by now rewrite map_map.
  rewrite Hsnd. now rewrite map_map.
Qed.

Lemma print_results_reports_four_metrics_witness :
  let y := [1; 0; 1]%Z in
  let M := [(1 # 4, 3 # 4); (3 # 4, 1 # 4); (1 # 2, 1 # 2)] in
  run (print_results y (finite M)) =
    ([ Text "---------- LOG LOSS";
       Value (LogLossOf y M);
       Text "---------- BRIER SCORE";
       Value (Exact (Qsum (zip_with (fun l p => (outcome 1 l - p) ^ 2)
                                    y (map snd M))
                     / inject_Z (Z.of_nat (List.length M))));
       Text "---------- AUC";
       Value (Exact (trapz (roc_curve (map (Z.eqb 1) y) (map snd M))));
       Text "---------- ACCURACY";
       Value (Exact (inject_Z (Z.of_nat (List.length
                       (filter (fun yp => agrees (fst yp) (snd yp))
                          (combine y (map (fun row => Qle_bool (1 # 2) (snd row)) M)))))
                     / inject_Z (Z.of_nat (List.length y)))) ],
     Ok tt) /\
  (forall M', map snd M' = map snd M ->
     skipn 2 (fst (run (print_results y (finite M')))) =
     skipn 2 (fst (run (print_results y (finite M))))) /\
  (forall q, ge_half (Some q) = true <-> 1 # 2 <= q).
Proof.
  apply (print_results_reports_four_metrics [1; 0; 1]%Z
           [(1 # 4, 3 # 4); (3 # 4, 1 # 4); (1 # 2, 1 # 2)]).
  - repeat (apply Forall_cons; [auto|]). apply Forall_nil.
  - simpl. auto.
  - simpl. auto.
  - reflexivity.
  - repeat (apply Forall_cons; [split; discriminate|]). apply Forall_nil.
Defined.

(** C8 (as stated) fails on labels of one class: [log_loss] raises
    ValueError after the first heading, and no metric is printed. *)
Lemma print_results_one_class_raises :
  run (print_results [1; 1]%Z (finite [(1 # 2, 1 # 2); (1 # 4, 3 # 4)]))
  = ([Text "---------- LOG LOSS"], Raise ValueError).
Proof. reflexivity. Qed.

(** ** The ROC curve of a constant score *)

Lemma insert_desc_Forall (P : Q * bool -> Prop) x l :
  P x -> Forall P l -> Forall P (insert_desc x l).
Proof.
  intros Hx. induction 1 as [|z l Hz Hl IH]; simpl; [now repeat constructor|].
  destruct (Qle_bool (fst z) (fst x)); repeat constructor; assumption.
Qed.

Lemma sort_desc_Forall (P : Q * bool -> Prop) l :
  Forall P l -> Forall P (sort_desc l).
Proof.
  induction 1 as [|x l Hx _ IH]; simpl; [constructor|].
  now apply insert_desc_Forall.
Qed.

Lemma insert_desc_count (f : Q * bool -> bool) x l :
  List.length (filter f (insert_desc x l)) = List.length (filter f (x :: l)).
Proof.
  induction l as [|z l IH]; [reflexivity|]. simpl insert_desc.
  destruct (Qle_bool (fst z) (fst x)); [reflexivity|].
  simpl in *. destruct (f z), (f x); simpl in *; lia.
Qed.

Lemma sort_desc_count (f : Q * bool -> bool) l :
  List.length (filter f (sort_desc l)) = List.length (filter f l).
Proof.
  induction l as [|x l IH]; [reflexivity|]. simpl sort_desc.
  rewrite insert_desc_count. simpl. destruct (f x); simpl; now rewrite IH.
Qed.

Lemma sort_desc_nonempty l : l <> [] -> sort_desc l <> [].
Proof.
  destruct l as [|x l]; [contradiction|]. intros _. simpl.
  destruct (sort_desc l) as [|z l']; simpl; [discriminate|].
  destruct (Qle_bool (fst z) (fst x)); discriminate.
Qed.

(** Scores that are all the same give one point, at the totals. *)
Lemma clf_curve_constant (c : Q) (l : list (Q * bool)) (fps tps : Z) :
  l <> [] -> Forall (fun x => fst x = c) l ->
  clf_curve l fps tps = [((fps + negatives l)%Z, (tps + positives l)%Z)].
Proof.
  intros Hne Hc. revert fps tps.
  induction Hc as [|[s b] l Hs Hl IH]; intros fps tps; [contradiction|].
  simpl in Hs. subst s. destruct l as [|[s' b'] l'].
  - unfold negatives, positives. destruct b; simpl;
      repeat f_equal; lia.
  - assert (Hs' : s' = c) by (inversion Hl; assumption). subst s'.
    change (clf_curve ((c, b) :: (c, b') :: l') fps tps)
      with (if Qeq_bool c c
            then clf_curve ((c, b') :: l')
                   (if b then fps else (fps + 1)%Z)
                   (if b then (tps + 1)%Z else tps)
            else (if b then fps else (fps + 1)%Z,
                  if b then (tps + 1)%Z else tps)
                 :: clf_curve ((c, b') :: l')
                      (if b then fps else (fps + 1)%Z)
                      (if b then (tps + 1)%Z else tps)).
    replace (Qeq_bool c c) with true
      by (symmetry; apply Qeq_bool_iff; reflexivity).
    rewrite IH by discriminate.
    unfold negatives, positives.
    destruct b; cbn [filter snd negb];
      destruct b'; cbn [filter snd negb List.length];
      (f_equal; f_equal; lia).
Qed.

Lemma combine_repeat {A B : Type} (c : A) (l : list B) :
  combine (repeat c (List.length l)) l = map (fun y => (c, y)) l.
Proof. induction l as [|y l IH]; simpl; [reflexivity|]. now rewrite IH. Qed.

Lemma count_map_pair (c : Q) (f : bool -> bool) (ys : list bool) :
  List.length (filter (fun x : Q * bool => f (snd x)) (map (fun y => (c, y)) ys))
  = List.length (filter f ys).
Proof.
  induction ys as [|y ys IH]; simpl; [reflexivity|].
  destruct (f y); simpl; now rewrite IH.
Qed.

(** The area under the ROC curve of a constant score is 1/2 as soon as
    there is a positive and a negative row. *)
Lemma roc_auc_constant (c : Q) (ys : list bool) :
  In true ys -> In false ys ->
  trapz (roc_curve ys (repeat c (List.length ys))) == 1 # 2.
Proof.
  intros Ht Hf. unfold roc_curve. rewrite combine_repeat.
  rewrite (clf_curve_constant c).
  2:{ apply sort_desc_nonempty. destruct ys; [destruct Ht|discriminate]. }
  2:{ apply sort_desc_Forall, Forall_map, Forall_forall. reflexivity. }
  unfold negatives, positives. rewrite !sort_desc_count.
  rewrite (count_map_pair c negb), (count_map_pair c (fun b => b)).
  assert (Hn : (0 < Z.of_nat (List.length (filter negb ys)))%Z).
  { assert (H : In false (filter negb ys)) by now apply filter_In.
    destruct (filter negb ys); [destruct H|simpl; lia]. }
  assert (Hp : (0 < Z.of_nat (List.length (filter (fun b => b) ys)))%Z).
  { assert (H : In true (filter (fun b => b) ys)) by now apply filter_In.
    destruct (filter (fun b => b) ys); [destruct H|simpl; lia]. }
  set (n := Z.of_nat (List.length (filter negb ys))) in *.
  set (p := Z.of_nat (List.length (filter (fun b => b) ys))) in *.
  cbn [last map trapz Z.add].
  assert (Hn' : ~ inject_Z n == 0).
  { intros E. unfold Qeq in E. simpl in E. lia. }
  assert (Hp' : ~ inject_Z p == 0).
  { intros E. unfold Qeq in E. simpl in E. lia. }
  field. split; assumption.
Qed.

(** ** The AUC of the frequency baseline *)

Lemma finite_repeat (a b : Q) (n : nat) :
  repeat (Some a, Some b) n = finite (repeat (a, b) n).
Proof. induction n as [|n IH]; simpl; [reflexivity|]. now rewrite IH. Qed.

Lemma stack_probs_repeat (mu : Q) (n : nat) :
  stack_probs (repeat (Some mu) n) = finite (repeat (1 - mu, mu) n).
Proof.
  rewrite stack_probs_map, <- finite_repeat.
  induction n as [|n IH]; [reflexivity|].
  cbn [repeat map one_minus option_map]. now rewrite IH.
Qed.

Lemma map_snd_repeat (a b : Q) (n : nat) :
  map snd (repeat (a, b) n) = repeat b n.
Proof. induction n as [|n IH]; simpl; [reflexivity|]. now rewrite IH. Qed.

Lemma map_constant {A B : Type} (c : B) (l : list A) :
  map (fun _ => c) l = repeat c (List.length l).
Proof. induction l as [|x l IH]; simpl; [reflexivity|]. now rewrite IH. Qed.

Lemma binary_labels_CTWin (l : list Round) :
  binary_labels l -> Forall (fun z => z = 0 \/ z = 1)%Z (map CTWin l).
Proof. intros H. apply Forall_map. exact H. Qed.

(** C10 (as amended).  With a non-empty training set of 0/1 labels and a
    test set of 0/1 labels that has a row with CTWin = 1 and a row with
    CTWin = 0, the predictions of the frequency baseline are all the same
    number, [roc_auc_score] returns 1/2 on them, and that is the value the
    cell prints under the AUC heading. *)
Theorem baseline_auc_is_half (train test : list Round) :
  train <> [] -> binary_labels train -> binary_labels test ->
  (exists r, In r test /\ CTWin r = 1%Z) ->
  (exists r, In r test /\ CTWin r = 0%Z) ->
  exists mu auc ll bs acc,
    BaselinePred train test = repeat (Some mu) (List.length test) /\
    roc_auc_score (map CTWin test) (BaselinePred train test)
      = Ok (Exact auc) /\
    auc == 1 # 2 /\
    run (baseline train test) =
      ([ Text "---------- LOG LOSS"; Value ll;
         Text "---------- BRIER SCORE"; Value bs;
         Text "---------- AUC"; Value (Exact auc);
         Text "---------- ACCURACY"; Value acc ],
       Ok tt).
Proof.
  intros Hne Hbtrain Hbtest (r1 & Hr1 & E1) (r0 & Hr0 & E0).
  destruct (mean_binary (map CTWin train)) as (mu & Hmu & Hmu0 & Hmu1).
  { destruct train; [contradiction|discriminate]. }
  { now apply binary_labels_CTWin. }
  set (y := map CTWin test).
  set (M := repeat (1 - mu, mu) (List.length test)).
  assert (Hy : Forall (fun z => z = 0 \/ z = 1)%Z y)
    by now apply binary_labels_CTWin.
  assert (Hy0 : In 0%Z y) by (rewrite <- E0; now apply in_map).
  assert (Hy1 : In 1%Z y) by (rewrite <- E1; now apply in_map).
  assert (Hlen : List.length M = List.length y)
    by (unfold M, y; now rewrite repeat_length, length_map).
  assert (Hrange : Forall (fun row => 0 <= snd row /\ snd row <= 1) M).
  { apply Forall_forall. intros row Hrow. apply repeat_spec in Hrow.
    subst row. simpl. now split. }
  assert (Hpred : BaselinePred train test = repeat (Some mu) (List.length test)).
  { unfold BaselinePred. rewrite Hmu. apply map_constant. }
  assert (Hprobs : baseline_probs train test = finite M).
  { unfold baseline_probs. rewrite Hpred. apply stack_probs_repeat. }
  assert (Hscore : BaselinePred train test = map snd (finite M)).
  { rewrite Hpred, snd_finite. unfold M.
    rewrite map_snd_repeat. clear.
    induction (List.length test) as [|n IH]; simpl; [reflexivity|].
    now rewrite IH. }
  exists mu. eexists. eexists. eexists. eexists.
  split; [exact Hpred|].
  split; [rewrite Hscore; now apply roc_auc_score_ok|].
  split.
  - unfold M. rewrite map_snd_repeat.
    replace (List.length test) with (List.length (map (Z.eqb 1) y))
      by (unfold y; now rewrite !length_map).
    apply roc_auc_constant.
    + apply in_map_iff. exists 1%Z. now split.
    + apply in_map_iff. exists 0%Z. now split.
  - unfold baseline. rewrite Hprobs. fold y. now apply print_results_ok.
Qed.

Lemma baseline_auc_is_half_witness :
  let train := [dust2_win; nuke_loss; nuke_win] in
  let test := [vertigo_loss; dust2_win] in
  exists mu auc ll bs acc,
    BaselinePred train test = repeat (Some mu) (List.length test) /\
    roc_auc_score (map CTWin test) (BaselinePred train test)
      = Ok (Exact auc) /\
    auc == 1 # 2 /\
    run (baseline train test) =
      ([ Text "---------- LOG LOSS"; Value ll;
         Text "---------- BRIER SCORE"; Value bs;
         Text "---------- AUC"; Value (Exact auc);
         Text "---------- ACCURACY"; Value acc ],
       Ok tt).
Proof.
  apply (baseline_auc_is_half [dust2_win; nuke_loss; nuke_win]
           [vertigo_loss; dust2_win]).
  - discriminate.
  - repeat (apply Forall_cons; [simpl; auto|]). apply Forall_nil.
  - repeat (apply Forall_cons; [simpl; auto|]). apply Forall_nil.
  - exists dust2_win. simpl. auto.
  - exists vertigo_loss. simpl. auto.
Defined.

(** C10 (as stated) fails on an empty training set: the mean is NaN,
    [log_loss] rejects it with ValueError and no AUC is printed, although
    the test set has a row of each class. *)
Lemma baseline_empty_training_reports_no_auc :
  In nuke_win [nuke_win; nuke_loss] /\ CTWin nuke_win = 1%Z /\
  In nuke_loss [nuke_win; nuke_loss] /\ CTWin nuke_loss = 0%Z /\
  BaselinePred [] [nuke_win; nuke_loss] = [None; None] /\
  roc_auc_score (map CTWin [nuke_win; nuke_loss])
                (BaselinePred [] [nuke_win; nuke_loss]) = Raise ValueError /\
  run (baseline [] [nuke_win; nuke_loss])
  = ([Text "---------- LOG LOSS"], Raise ValueError).
Proof. simpl. repeat split; auto. Qed.

(** ** Selecting and assigning columns of a design matrix *)

Lemma map_seq_nth {A B : Type} (G : A -> B) (l : list A) (d : A) :
  map (fun j => G (nth j l d)) (seq 0 (List.length l)) = map G l.
Proof.
  induction l as [|x l IH]; [reflexivity|].
  cbn [List.length seq map nth]. f_equal.
  rewrite <- seq_shift, map_map. exact IH.
Qed.

Lemma column_select {A : Type} (g : A -> string -> Q) (cs : list string)
  (l : list A) (j : nat) :
  (j < List.length cs)%nat ->
  column (map (fun r => map (g r) cs) l) j
  = map (fun r => g r (nth j cs "")) l.
Proof.
  intros Hj. unfold column. rewrite map_map. apply map_ext. intros r.
  rewrite (nth_indep _ 0 (g r "")) by now rewrite length_map.
  apply map_nth.
Qed.

Lemma forallb_has_column {A : Type} (X : Frame A) (cs : list string) :
  incl cs (columns X) -> forallb (has_column X) cs = true.
Proof.
  intros H. apply forallb_forall. intros c Hc. apply has_column_In. now apply H.
Qed.

Lemma zip_with_map_r {A B C : Type} (f : A -> B -> C) (g : A -> B) (l : list A) :
  zip_with f l (map g l) = map (fun x => f x (g x)) l.
Proof. induction l as [|x l IH]; simpl; [reflexivity|]. now rewrite IH. Qed.

Lemma zip3_map {A B C D E : Type} (f : B -> C -> D -> E)
  (g1 : A -> B) (g2 : A -> C) (g3 : A -> D) (l : list A) :
  zip3 f (map g1 l) (map g2 l) (map g3 l)
  = map (fun x => f (g1 x) (g2 x) (g3 x)) l.
Proof. induction l as [|x l IH]; simpl; [reflexivity|]. now rewrite IH. Qed.

Lemma set_cell_length {A : Type} c cols (r : list A) v :
  List.length (set_cell c cols r v) = List.length r.
Proof.
  revert r. induction cols as [|k cols IH]; intros [|x r]; simpl;
    try reflexivity.
  destruct (String.eqb c k); simpl; [reflexivity|]. now rewrite IH.
Qed.

Lemma lookup_set_cell_other {A : Type} c k cols (r : list A) v :
  k <> c -> lookup k cols (set_cell c cols r v) = lookup k cols r.
Proof.
  intros Hk. revert r. induction cols as [|x cols IH]; intros [|y r]; simpl;
    try reflexivity.
  destruct (String.eqb_spec c x) as [->|Hc]; simpl.
  - destruct (String.eqb_spec k x); [contradiction|reflexivity].
  - destruct (String.eqb k x); [reflexivity|apply IH].
Qed.

Lemma lookup_set_cell_same {A : Type} c cols (r : list A) v :
  In c cols -> List.length r = List.length cols ->
  lookup c cols (set_cell c cols r v) = Some v.
Proof.
  revert r. induction cols as [|x cols IH]; intros [|y r] Hin Hlen;
    simpl in *; try discriminate; [destruct Hin|].
  destruct (String.eqb_spec c x) as [->|Hc]; simpl.
  - now rewrite ?String.eqb_refl.
  - destruct (String.eqb_spec c x); [contradiction|].
    apply IH; [|now injection Hlen].
    destruct Hin as [->|Hin]; [contradiction|exact Hin].
Qed.

Section AssignRow.

Variables (cols : list string) (h : string -> Q).

Let assign (cs : list string) (r : list Q) : list Q :=
  fold_left (fun r' cv => set_cell (fst cv) cols r' (snd cv))
            (combine cs (map h cs)) r.

Lemma assign_row_length cs r : List.length (assign cs r) = List.length r.
Proof.
  unfold assign. revert r. induction cs as [|c cs IH]; intros r; simpl;
    [reflexivity|].
  now rewrite IH, set_cell_length.
Qed.

Lemma assign_row_other cs r k :
  ~ In k cs -> lookup k cols (assign cs r) = lookup k cols r.
Proof.
  unfold assign. revert r. induction cs as [|c cs IH]; intros r Hk; simpl;
    [reflexivity|].
  rewrite IH by (intros H; apply Hk; now right).
  apply lookup_set_cell_other. intros ->. apply Hk. now left.
Qed.

Lemma assign_row_same cs r k :
  NoDup cs -> In k cs -> In k cols -> List.length r = List.length cols ->
  lookup k cols (assign cs r) = Some (h k).
Proof.
  unfold assign. intros Hnd. revert r.
  induction Hnd as [|c cs Hc Hnd IH]; intros r Hk Hcols Hlen;
    [destruct Hk|]. simpl.
  destruct Hk as [->|Hk].
  - fold (assign cs (set_cell k cols r (h k))).
    rewrite assign_row_other by exact Hc.
    now apply lookup_set_cell_same.
  - apply IH; [exact Hk|exact Hcols|]. now rewrite set_cell_length.
Qed.

End AssignRow.

(** ** The fitted scaler *)

Section Standardize.

Variable sqrt : Q -> Q.

Lemma fit_select (X : Design) (cs : list string) :
  rows X <> [] ->
  fit sqrt (map (fun r => map (at_ (columns X) r) cs) (rows X))
  = Ok (mkScaler (map (fun c => Qmean (feature X c)) cs)
                 (map (fun c => scale_of sqrt (feature X c)) cs)).
Proof.
  intros Hne. unfold fit.
  destruct (map (fun r => map (at_ (columns X) r) cs) (rows X))
    as [|v M'] eqn:E.
  { destruct (rows X); [contradiction|discriminate]. }
  assert (Hv : List.length v = List.length cs).
  { destruct (rows X); [discriminate|]. injection E as <- _.
    apply length_map. }
  rewrite <- E, Hv. f_equal. f_equal.
  - rewrite <- (map_seq_nth (fun c => Qmean (feature X c)) cs "").
    apply map_ext_in. intros j Hj. apply in_seq in Hj.
    now rewrite column_select by lia.
  - rewrite <- (map_seq_nth (fun c => scale_of sqrt (feature X c)) cs "").
    apply map_ext_in. intros j Hj. apply in_seq in Hj.
    now rewrite column_select by lia.
Qed.

Lemma transform_select (X_train X : Design) (cs : list string) :
  rows X <> [] ->
  transform
    (mkScaler (map (fun c => Qmean (feature X_train c)) cs)
              (map (fun c => scale_of sqrt (feature X_train c)) cs))
    (map (fun r => map (at_ (columns X) r) cs) (rows X))
  = Ok (map (fun r =>
               map (fun c => (at_ (columns X) r c - Qmean (feature X_train c))
                             / scale_of sqrt (feature X_train c)) cs)
            (rows X)).
Proof.
  intros Hne. unfold transform. cbn [mean_ scale_].
  destruct (map (fun r => map (at_ (columns X) r) cs) (rows X))
    as [|v M'] eqn:E.
  { destruct (rows X); [contradiction|discriminate]. }
  rewrite <- E. clear v M' E.
  replace (forallb _ _) with true.
  - f_equal. rewrite map_map. apply map_ext. intros r. apply zip3_map.
  - symmetry. apply forallb_forall. intros v Hv.
    apply in_map_iff in Hv. destruct Hv as (r & <- & _).
    rewrite !length_map. apply Nat.eqb_refl.
Qed.

Lemma standardize_eq (X_train X_test : Design) :
  incl cols_scaled (columns X_train) ->
  incl cols_scaled (columns X_test) ->
  rows X_train <> [] -> rows X_test <> [] ->
  standardize sqrt X_train X_test
  = Ok (standardized sqrt X_train X_train, standardized sqrt X_train X_test).
Proof.
  intros Htr Hte Hne Hne'. unfold standardize, select_values.
  rewrite !forallb_has_column by assumption. cbn [bind].
  rewrite fit_select by exact Hne. cbn [bind].
  rewrite !transform_select by assumption. reflexivity.
Qed.

Lemma standardized_rows (X_train X : Design) :
  wf X -> incl cols_scaled (columns X) ->
  Forall2 (fun r r' =>
    forall c, In c (columns X) ->
      (In c cols_scaled ->
         at_ (columns X) r' c
         = (at_ (columns X) r c - Qmean (feature X_train c))
           / scale_of sqrt (feature X_train c)) /\
      (~ In c cols_scaled -> at_ (columns X) r' c = at_ (columns X) r c))
    (rows X) (rows (standardized sqrt X_train X)).
Proof.
  intros [_ Hrows] Hincl. unfold standardized, assign_values. cbn [rows].
  rewrite zip_with_map_r.
  apply (Forall_Forall2_map _ _ _ _ Hrows). intros r _ Hlen c Hc.
  cbv beta. split.
  - intros Hs. unfold at_ at 1.
    rewrite (assign_row_same (columns X)
               (fun c => (at_ (columns X) r c - Qmean (feature X_train c))
                         / scale_of sqrt (feature X_train c)));
      try assumption; [reflexivity|].
    repeat constructor; simpl; intuition discriminate.
  - intros Hs. unfold at_ at 1 2.
    now rewrite (assign_row_other (columns X)
                   (fun c => (at_ (columns X) r c - Qmean (feature X_train c))
                             / scale_of sqrt (feature X_train c))).
Qed.

End Standardize.

Lemma cols_scaled_incl : incl cols_scaled COLS_ALL.
Proof.
  intros c Hc. simpl in Hc.
  repeat (destruct Hc as [<-|Hc]; [simpl; tauto|]). destruct Hc.
Qed.

Lemma scale_of_cases (sqrt : Q -> Q) (l : list Q) :
  (sqrt (variance l) == 0 -> scale_of sqrt l = 1) /\
  (~ sqrt (variance l) == 0 -> scale_of sqrt l = sqrt (variance l)).
Proof.
  unfold scale_of, handle_zeros_in_scale.
  destruct (Qeq_bool (sqrt (variance l)) 0) eqn:E; split; intros H;
    try reflexivity.
  - apply Qeq_bool_iff in E. contradiction.
  - apply Qeq_bool_iff in H. congruence.
Qed.

(** C6 (as amended).  On design matrices with the columns of COLS_ALL, at
    least one training row and at least one test row, the standardisation
    succeeds and keeps the header.  A column of cols_scaled holds
    (x - m) / s in the training and in the test matrix alike, where m is
    the mean of that column over the training rows and s is the square
    root of its variance over the training rows, or 1 when that square
    root is 0; a column outside cols_scaled holds x in both. *)
Theorem standardization_uses_training_statistics (sqrt : Q -> Q)
  (X_train X_test : Design) :
  wf X_train -> wf X_test ->
  columns X_train = COLS_ALL -> columns X_test = COLS_ALL ->
  rows X_train <> [] -> rows X_test <> [] ->
  exists X_train_scaled X_test_scaled,
    standardize sqrt X_train X_test = Ok (X_train_scaled, X_test_scaled) /\
    columns X_train_scaled = COLS_ALL /\
    columns X_test_scaled = COLS_ALL /\
    Forall2 (row_standardized sqrt X_train)
            (rows X_train) (rows X_train_scaled) /\
    Forall2 (row_standardized sqrt X_train)
            (rows X_test) (rows X_test_scaled) /\
    (forall c,
       (sqrt (variance (feature X_train c)) == 0 ->
          scale_of sqrt (feature X_train c) = 1) /\
       (~ sqrt (variance (feature X_train c)) == 0 ->
          scale_of sqrt (feature X_train c)
          = sqrt (variance (feature X_train c)))).
Proof.
  intros Hwtr Hwte Hctr Hcte Hne Hne'.
  exists (standardized sqrt X_train X_train), (standardized sqrt X_train X_test).
  assert (Hitr : incl cols_scaled (columns X_train))
    by (rewrite Hctr; apply cols_scaled_incl).
  assert (Hite : incl cols_scaled (columns X_test))
    by (rewrite Hcte; apply cols_scaled_incl).
  split; [now apply standardize_eq|].
  split; [exact Hctr|]. split; [exact Hcte|].
  split; [|split].
  - pose proof (standardized_rows sqrt X_train X_train Hwtr Hitr) as H.
    rewrite Hctr in H. exact H.
  - pose proof (standardized_rows sqrt X_train X_test Hwte Hite) as H.
    rewrite Hcte in H. exact H.
  - intros c. apply scale_of_cases.
Qed.

Lemma COLS_ALL_NoDup : NoDup COLS_ALL.
Proof. repeat constructor; simpl; intuition discriminate. Qed.

Lemma standardization_uses_training_statistics_witness :
  exists X_train_scaled X_test_scaled,
    standardize sqrt_down never_planted_train planted_test
      = Ok (X_train_scaled, X_test_scaled) /\
    columns X_train_scaled = COLS_ALL /\
    columns X_test_scaled = COLS_ALL /\
    Forall2 (row_standardized sqrt_down never_planted_train)
            (rows never_planted_train) (rows X_train_scaled) /\
    Forall2 (row_standardized sqrt_down never_planted_train)
            (rows planted_test) (rows X_test_scaled) /\
    (forall c,
       (sqrt_down (variance (feature never_planted_train c)) == 0 ->
          scale_of sqrt_down (feature never_planted_train c) = 1) /\
       (~ sqrt_down (variance (feature never_planted_train c)) == 0 ->
          scale_of sqrt_down (feature never_planted_train c)
          = sqrt_down (variance (feature never_planted_train c)))).
Proof.
  apply (standardization_uses_training_statistics sqrt_down
           never_planted_train planted_test).
  - split; [exact COLS_ALL_NoDup|]. repeat constructor.
  - split; [exact COLS_ALL_NoDup|]. repeat constructor.
  - reflexivity.
  - reflexivity.
  - discriminate.
  - discriminate.
Defined.

(** C6 (as stated) fails on a training matrix whose BombPlanted column is
    constant: its standard deviation is 0, and the test value 1 becomes
    1 - 0 = 1, which is not (1 - 0) / 0. *)
Lemma standardization_constant_column :
  feature never_planted_train "BombPlanted" = [0; 0] /\
  Qmean (feature never_planted_train "BombPlanted") == 0 /\
  sqrt_down (variance (feature never_planted_train "BombPlanted")) == 0 /\
  feature planted_test "BombPlanted" = [1] /\
  match standardize sqrt_down never_planted_train planted_test with
  | Ok (_, X_test_scaled) => feature X_test_scaled "BombPlanted" = [2 # 2]
  | Raise _ => False
  end /\
  ~ 2 # 2 == (1 - 0) / 0.
Proof.
  repeat match goal with |- _ /\ _ => split end; try reflexivity.
  discriminate.
Qed.

(** ** The parameter grid *)

Lemma In_product (items : param_grid) (p : params) :
  In p (product items) <->
  Forall2 (fun item kv => fst kv = fst item /\ In (snd kv) (snd item)) items p.
Proof.
  revert p. induction items as [|[k vs] items IH]; intros p; simpl.
  - split.
    + intros [<-|[]]. constructor.
    + intros H. inversion H. now left.
  - rewrite in_flat_map. split.
    + intros (v & Hv & Hp). apply in_map_iff in Hp.
      destruct Hp as (p' & <- & Hp'). constructor; [now split|].
      now apply IH.
    + intros H. inversion H as [|? [k' v] ? p' [Hk Hv] Hrest]; subst.
      simpl in Hk, Hv. subst k'. exists v. split; [exact Hv|].
      apply in_map. now apply IH.
Qed.

Lemma flat_map_length_const {A B : Type} (f : A -> list B) (m : nat)
  (l : list A) :
  (forall x, List.length (f x) = m) ->
  List.length (flat_map f l) = (List.length l * m)%nat.
Proof.
  intros H. induction l as [|x l IH]; simpl; [reflexivity|].
  now rewrite length_app, H, IH.
Qed.

Lemma product_length (items : param_grid) :
  List.length (product items)
  = fold_right Nat.mul 1%nat (map (fun item => List.length (snd item)) items).
Proof.
  induction items as [|[k vs] items IH]; [reflexivity|].
  simpl. rewrite <- IH. apply flat_map_length_const.
  intros v. apply length_map.
Qed.

(** ** The best candidate *)

Lemma best_of_spec (score : params -> Q) (best : params) (cs : list params) :
  In (best_of score best cs) (best :: cs) /\
  forall c, In c (best :: cs) -> score c <= score (best_of score best cs).
Proof.
  revert best. induction cs as [|c cs IH]; intros best; simpl.
  - split; [now left|]. intros c [<-|[]]. apply Qle_refl.
  - destruct (Qlt_le_dec (score best) (score c)) as [Hlt|Hle];
      destruct (IH (if Qlt_le_dec (score best) (score c) then c else best))
        as [Hin Hmax];
      destruct (Qlt_le_dec (score best) (score c)) as [Hlt'|Hle'];
      try (exfalso; eapply Qlt_not_le; eassumption).
    + split; [simpl in Hin; tauto|].
      intros x [<-|[<-|Hx]].
      * eapply Qle_trans; [apply Qlt_le_weak; exact Hlt|].
        apply Hmax. now left.
      * apply Hmax. now left.
      * apply Hmax. now right.
    + split; [simpl in Hin; tauto|].
      intros x [<-|[<-|Hx]].
      * apply Hmax. now left.
      * eapply Qle_trans; [exact Hle|]. apply Hmax. now left.
      * apply Hmax. now right.
Qed.

(** ** The folds *)

Lemma map_snd_combine_seq {A : Type} (X : list A) (s : nat) :
  map snd (combine (seq s (List.length X)) X) = X.
Proof.
  revert s. induction X as [|x X IH]; intros s; simpl; [reflexivity|].
  now rewrite IH.
Qed.

Lemma take_rows_split {A : Type} (p : nat -> bool) (X : list A) :
  Permutation (take_rows (fun i => negb (p i)) X ++ take_rows p X) X.
Proof.
  unfold take_rows. rewrite <- map_app.
  rewrite <- (map_snd_combine_seq X 0) at 5.
  apply Permutation_map.
  eapply Permutation_trans.
  - apply filter_or_Permutation. intros x _ H.
    now apply negb_true_iff in H.
  - rewrite filter_all; [apply Permutation_refl|].
    intros x _. now destruct (p (fst x)).
Qed.

Lemma concat_filters_cons {A : Type} (Ps : list (A -> bool)) (x : A) (l : list A) :
  Permutation
    (List.concat (map (fun P => filter P (x :: l)) Ps))
    (repeat x (List.length (filter (fun P => P x) Ps))
     ++ List.concat (map (fun P => filter P l) Ps)).
Proof.
  induction Ps as [|P Ps IH]; simpl; [constructor|].
  destruct (P x); simpl.
  - apply perm_skip.
    eapply Permutation_trans; [apply Permutation_app_head; exact IH|].
    apply Permutation_app_swap_app.
  - eapply Permutation_trans; [apply Permutation_app_head; exact IH|].
    apply Permutation_app_swap_app.
Qed.

(** Filters of which every element passes exactly one split a list. *)
Lemma concat_filters_Permutation {A : Type} (Ps : list (A -> bool)) (l : list A) :
  (forall x, In x l -> List.length (filter (fun P => P x) Ps) = 1%nat) ->
  Permutation (List.concat (map (fun P => filter P l) Ps)) l.
Proof.
  induction l as [|x l IH]; intros H.
  - clear H. simpl.
    induction Ps as [|P Ps IHP]; simpl; [apply perm_nil|exact IHP].
  - eapply Permutation_trans; [apply concat_filters_cons|].
    rewrite (H x (or_introl eq_refl)). simpl. apply perm_skip.
    apply IH. intros y Hy. apply H. now right.
Qed.

Lemma mem_In (i : nat) (l : list nat) : mem i l = true <-> In i l.
Proof.
  unfold mem. rewrite existsb_exists. split.
  - intros (j & Hj & E). apply Nat.eqb_eq in E. now subst.
  - intros H. exists i. split; [exact H|apply Nat.eqb_refl].
Qed.

Lemma in_one_chunk (j : nat) (cs : list (list nat)) :
  NoDup (List.concat cs) -> In j (List.concat cs) ->
  List.length (filter (fun idx => mem j idx) cs) = 1%nat.
Proof.
  induction cs as [|c cs IH]; simpl; intros Hnd Hin; [destruct Hin|].
  apply NoDup_app_remove_l in Hnd as Hnd'.
  destruct (mem j c) eqn:E.
  - simpl. f_equal.
    replace (filter (fun idx => mem j idx) cs) with (@nil (list nat));
      [reflexivity|].
    symmetry. apply mem_In in E.
    assert (Hj : ~ In j (List.concat cs)).
    { intros Hj. clear IH Hin Hnd'.
      induction c as [|a c IHc]; [destruct E|].
      simpl in Hnd. inversion Hnd as [|? ? Ha Hnd']; subst.
      destruct E as [->|E]; [|now apply IHc].
      apply Ha, in_app_iff. now right. }
    clear -Hj. induction cs as [|c' cs IH]; simpl; [reflexivity|].
    simpl in Hj. rewrite in_app_iff in Hj.
    destruct (mem j c') eqn:E'.
    + apply mem_In in E'. tauto.
    + apply IH. tauto.
  - apply IH; [exact Hnd'|].
    apply in_app_iff in Hin. destruct Hin as [Hin|Hin]; [|exact Hin].
    apply mem_In in Hin. congruence.
Qed.

Lemma concat_chunks (sizes : list nat) (l : list nat) :
  list_sum sizes = List.length l -> List.concat (chunks sizes l) = l.
Proof.
  revert l. induction sizes as [|s sizes IH]; intros l H; simpl in *.
  - destruct l; [reflexivity|discriminate].
  - rewrite IH; [apply firstn_skipn|]. rewrite length_skipn. lia.
Qed.

Lemma chunks_length (sizes : list nat) (l : list nat) :
  List.length (chunks sizes l) = List.length sizes.
Proof.
  revert l. induction sizes as [|s sizes IH]; intros l; simpl;
    [reflexivity|]. now rewrite IH.
Qed.

Lemma list_sum_below (m k : nat) :
  list_sum (map (fun i => if Nat.ltb i m then 1 else 0)%nat (seq 0 k))
  = Nat.min m k.
Proof.
  induction k as [|k IH]; [now rewrite Nat.min_0_r|].
  rewrite seq_S, map_app, list_sum_app, IH. simpl.
  destruct (Nat.ltb_spec k m); lia.
Qed.

Lemma list_sum_shift (a : nat) (f : nat -> nat) (l : list nat) :
  list_sum (map (fun i => a + f i)%nat l)
  = (a * List.length l + list_sum (map f l))%nat.
Proof. induction l as [|x l IH]; simpl; [lia|]. rewrite IH. lia. Qed.

Lemma fold_sizes_sum (n k : nat) :
  (0 < k)%nat -> list_sum (fold_sizes n k) = n.
Proof.
  intros Hk. unfold fold_sizes. rewrite list_sum_shift, list_sum_below.
  rewrite length_seq.
  pose proof (Nat.mod_upper_bound n k ltac:(lia)).
  pose proof (Nat.div_mod_eq n k). lia.
Qed.

Lemma fold_sizes_length (n k : nat) : List.length (fold_sizes n k) = k.
Proof. unfold fold_sizes. now rewrite length_map, length_seq. Qed.

Lemma filter_map_length {A B : Type} (f : A -> B) (p : B -> bool) (l : list A) :
  List.length (filter p (map f l))
  = List.length (filter (fun x => p (f x)) l).
Proof.
  induction l as [|x l IH]; simpl; [reflexivity|].
  destruct (p (f x)); simpl; now rewrite IH.
Qed.

Lemma validation_parts {A : Type} (X : list A) (cs : list (list nat)) :
  List.concat (map (fun idx => take_rows (fun i => mem i idx) X) cs)
  = map snd
      (List.concat
         (map (fun idx => filter (fun ix => mem (fst ix) idx)
                            (combine (seq 0 (List.length X)) X)) cs)).
Proof. unfold take_rows. now rewrite concat_map, map_map. Qed.

Section KFoldFacts.

Variable shuffled : Z -> nat -> list nat.
Variables (k : nat) (seed : Z) (X : list Sample).
Hypothesis Hk : (0 < k)%nat.
Hypothesis Hn : (k <= List.length X)%nat.
Hypothesis Hshuffle :
  Permutation (shuffled seed (List.length X)) (seq 0 (List.length X)).

(** [k] splits; each splits the rows into a training and a validation
    part; the validation parts together are the rows, each once. *)
Lemma KFold_spec :
  exists folds,
    KFold shuffled k seed X = Ok folds /\
    List.length folds = k /\
    Forall (fun fold => Permutation (fst fold ++ snd fold) X) folds /\
    Permutation (List.concat (map snd folds)) X.
Proof.
  unfold KFold.
  replace (Nat.ltb (List.length X) k) with false
    by (symmetry; apply Nat.ltb_ge; exact Hn).
  set (cs := chunks (fold_sizes (List.length X) k)
                    (shuffled seed (List.length X))).
  eexists. split; [reflexivity|].
  split; [unfold cs; now rewrite length_map, chunks_length, fold_sizes_length|].
  split.
  - apply Forall_map, Forall_forall. intros idx _. apply take_rows_split.
  - rewrite map_map. cbn [snd]. rewrite validation_parts.
    eapply Permutation_trans;
      [apply Permutation_map|rewrite map_snd_combine_seq; apply Permutation_refl].
    rewrite <- (map_map (fun idx => fun ix : nat * Sample => mem (fst ix) idx)
                        (fun P => filter P (combine (seq 0 (List.length X)) X))).
    apply concat_filters_Permutation. intros ix Hix.
    rewrite filter_map_length.
    assert (Hcat : List.concat cs = shuffled seed (List.length X)).
    { apply concat_chunks. rewrite fold_sizes_sum by exact Hk.
      apply Permutation_length in Hshuffle.
      now rewrite Hshuffle, length_seq. }
    apply in_one_chunk; rewrite Hcat.
    + apply (Permutation_NoDup (Permutation_sym Hshuffle)), seq_NoDup.
    + apply (Permutation_in _ (Permutation_sym Hshuffle)).
      destruct ix as [i x]. now apply in_combine_l in Hix.
Qed.

End KFoldFacts.

Lemma sorted_items_nonempty_values (grid : param_grid) :
  Forall (fun item => snd item <> []) grid ->
  Forall (fun item => snd item <> []) (sorted_items grid).
Proof.
  induction 1 as [|x grid Hx _ IH]; simpl; [constructor|].
  induction IH as [|y l Hy Hl IHl]; simpl; [now repeat constructor|].
  destruct (String.leb (fst x) (fst y)); repeat constructor; assumption.
Qed.

Lemma product_nonempty (items : param_grid) :
  Forall (fun item => snd item <> []) items -> product items <> [].
Proof.
  induction 1 as [|[key vs] items Hvs _ IH]; simpl; [discriminate|].
  simpl in Hvs. destruct vs as [|v vs]; [contradiction|]. simpl.
  destruct (product items); [contradiction|discriminate].
Qed.

Lemma sorted_items_lengths (grid : param_grid) :
  fold_right Nat.mul 1%nat
    (map (fun item => List.length (snd item)) (sorted_items grid))
  = fold_right Nat.mul 1%nat (map (fun item => List.length (snd item)) grid).
Proof.
  induction grid as [|x grid IH]; [reflexivity|]. simpl. rewrite <- IH.
  generalize (sorted_items grid). intros l.
  induction l as [|y l IHl]; simpl; [reflexivity|].
  destruct (String.leb (fst x) (fst y)); simpl; [reflexivity|].
  rewrite IHl. lia.
Qed.

Section GridSearchFacts.

Variable Model : Type.
Variable fit_model : params -> list Sample -> Model.
Variable predict_proba : Model -> list Sample -> list (num * num).
Variable log_loss_value : list Z -> list (num * num) -> Q.
Variable shuffled : Z -> nat -> list nat.

Let score (folds : list (list Sample * list Sample)) (p : params) : Q :=
  mean_test_score Model fit_model predict_proba log_loss_value folds p.

Variables (grid : param_grid) (seed : Z) (train : list Sample).
Hypothesis Hgrid : Forall (fun item => snd item <> []) grid.
Hypothesis Hrows : (5 <= List.length train)%nat.
Hypothesis Hshuffle :
  Permutation (shuffled seed (List.length train))
              (seq 0 (List.length train)).

Lemma GridSearchCV_fit_spec :
  exists folds cv,
    KFold shuffled 5 seed train = Ok folds /\
    List.length folds = 5%nat /\
    Forall (fun fold => Permutation (fst fold ++ snd fold) train) folds /\
    Permutation (List.concat (map snd folds)) train /\
    GridSearchCV_fit Model fit_model predict_proba log_loss_value
                     grid (KFold shuffled 5 seed) train
      = Ok cv /\
    (forall p, picks grid p <-> In p (map fst (cv_results_ cv))) /\
    List.length (cv_results_ cv)
      = fold_right Nat.mul 1%nat
          (map (fun item => List.length (snd item)) grid) /\
    (forall p s, In (p, s) (cv_results_ cv) ->
       s = score folds p) /\
    In (best_params_ cv) (map fst (cv_results_ cv)) /\
    (forall p s, In (p, s) (cv_results_ cv) ->
       s <= score folds (best_params_ cv)) /\
    best_estimator_ cv = fit_model (best_params_ cv) train.
Proof.
  destruct (KFold_spec shuffled 5 seed train ltac:(lia) Hrows Hshuffle)
    as (folds & Hsplit & Hlen & Hparts & Hcover).
  unfold GridSearchCV_fit. rewrite Hsplit. cbn [bind].
  destruct (ParameterGrid grid) as [|c cs] eqn:E.
  { exfalso. revert E. apply product_nonempty.
    now apply sorted_items_nonempty_values. }
  exists folds. eexists.
  repeat match goal with |- _ /\ _ => split end;
    try eassumption; try reflexivity; cbn [cv_results_ best_params_ best_estimator_].
  - intros p. rewrite map_map. cbn [fst]. rewrite map_id, <- E.
    unfold picks, ParameterGrid. symmetry. apply In_product.
  - rewrite length_map, <- E. unfold ParameterGrid.
    now rewrite product_length, sorted_items_lengths.
  - intros p s Hin. apply in_map_iff in Hin.
    destruct Hin as (p' & H & _). now injection H as <- <-.
  - rewrite map_map. cbn [fst]. rewrite map_id. apply best_of_spec.
  - intros p s Hin. apply in_map_iff in Hin.
    destruct Hin as (p' & H & Hp'). injection H as <- <-.
    now apply best_of_spec.
Qed.

End GridSearchFacts.

Lemma xgb_searches_values (grid : param_grid) (file : string) :
  In (grid, file) xgb_searches -> Forall (fun item => snd item <> []) grid.
Proof.
  intros [H|[H|[H|[]]]]; injection H as <- _;
    repeat (apply Forall_cons; [discriminate|]); apply Forall_nil.
Qed.



(** ** Frames: assignment, missing values and the design matrices *)

Lemma map_zip_with_snd {A B C : Type} (f : A -> B -> C) (g : C -> B)
  (l : list A) (l' : list B) :
  List.length l' = List.length l ->
  (forall a b, In a l -> g (f a b) = b) ->
  map g (zip_with f l l') = l'.
Proof.
  revert l'. induction l as [|a l IH]; intros [|b l'] L H; simpl in *;
    try discriminate; auto.
  rewrite H by auto. f_equal. apply IH; auto.
Qed.

Lemma map_zip_with_fst {A B C D : Type} (f : A -> B -> C) (g : C -> D)
  (k : A -> D) (l : list A) (l' : list B) :
  List.length l' = List.length l ->
  (forall a b, In a l -> g (f a b) = k a) ->
  map g (zip_with f l l') = map k l.
Proof.
  revert l'. induction l as [|a l IH]; intros [|b l'] L H; simpl in *;
    try discriminate; auto.
  rewrite H by auto. f_equal. apply IH; auto.
Qed.

Lemma Forall_zip_with {A B C : Type} (f : A -> B -> C) (P : C -> Prop)
  (l : list A) (l' : list B) :
  (forall a b, In a l -> P (f a b)) -> Forall P (zip_with f l l').
Proof.
  revert l'. induction l as [|a l IH]; intros [|b l'] H; simpl; auto.
  constructor.
  - apply H; simpl; auto.
  - apply IH. intros; apply H; simpl; auto.
Qed.

Lemma has_column_app {A : Type} (cols : list string) (rs : list (list A)) c k :
  k <> c ->
  has_column (mkDF (cols ++ [c]) rs) k = has_column (mkDF cols rs) k.
Proof.
  intros N. unfold has_column. cbn [columns]. rewrite existsb_app. simpl.
  destruct (String.eqb_spec k c); [contradiction|].
  now rewrite !orb_false_r.
Qed.

(** X1 (assignment then selection).  On a well-formed frame, assigning a
    series of the frame's length to a column, old or new, succeeds and
    leaves a well-formed frame; reading the column back gives the series
    that was assigned, and reading any other column gives what it gave
    before (its values, or KeyError if it is not there). *)
Theorem setitem_then_getitem (df : DataFrame) (c : string) (s : list cell) :
  wf df -> List.length s = List.length (rows df) ->
  exists df',
    setitem df c s = Ok df' /\ wf df' /\
    getitem df' c = Ok s /\
    (forall k, k <> c -> getitem df' k = getitem df k).
Proof.
  intros [ND RL] L. rewrite Forall_forall in RL.
  unfold setitem. rewrite L, Nat.eqb_refl.
  destruct (has_column df c) eqn:Hc.
  - eexists; split; [reflexivity|].
    assert (Ic : In c (columns df)) by now apply has_column_In.
    split; [|split].
    + split; cbn [columns rows]; auto.
      apply Forall_zip_with. intros r v Hr.
      rewrite set_cell_length. now apply RL.
    + unfold getitem. unfold has_column in *. cbn [columns rows].
      rewrite Hc. f_equal. apply map_zip_with_snd; auto.
      intros r v Hr. unfold loc.
      rewrite lookup_set_cell_same; auto.
    + intros k N. unfold getitem, has_column. cbn [columns rows].
      destruct (existsb (String.eqb k) (columns df)); auto. f_equal.
      rewrite map_zip_with_fst with (k := fun r => loc (columns df) r k); auto.
      intros r v Hr. unfold loc. now rewrite lookup_set_cell_other.
  - assert (Ic : ~ In c (columns df)).
    { intros I. apply has_column_In in I. congruence. }
    eexists; split; [reflexivity|]. split; [|split].
    + split; cbn [columns rows].
      * apply NoDup_app; [auto|repeat constructor; simpl; tauto|].
        intros x Hx [<-|[]]. contradiction.
      * apply Forall_zip_with. intros r v Hr.
        rewrite !length_app. simpl. now rewrite RL.
    + unfold getitem.
      replace (has_column _ c) with true.
      2:{ symmetry. apply has_column_In. cbn [columns]. apply in_or_app.
          simpl; auto. }
      cbn [columns rows]. f_equal. apply map_zip_with_snd; auto.
      intros r v Hr. unfold loc. rewrite lookup_app by now apply RL.
      rewrite lookup_not_In by auto. simpl. now rewrite String.eqb_refl.
    + intros k N. unfold getitem. rewrite has_column_app by auto.
      unfold has_column. cbn [columns rows].
      destruct (existsb (String.eqb k) (columns df)); auto. f_equal.
      rewrite map_zip_with_fst with (k := fun r => loc (columns df) r k); auto.
      intros r v Hr. unfold loc. rewrite lookup_app by now apply RL.
      destruct (lookup k (columns df) r); auto. simpl.
      destruct (String.eqb_spec k c); [contradiction|reflexivity].
Qed.

Lemma setitem_then_getitem_witness :
  exists df',
    setitem unmapped_df "Round" [Num 1; Num 2; Num 3] = Ok df' /\ wf df' /\
    getitem df' "Round" = Ok [Num 1; Num 2; Num 3] /\
    (forall k, k <> "Round" -> getitem df' k = getitem unmapped_df k).
Proof.
  apply (setitem_then_getitem unmapped_df "Round" [Num 1; Num 2; Num 3]).
  - apply unmapped_df_wf.
  - reflexivity.
Defined.

Lemma filter_filter_andb {A : Type} (f g : A -> bool) (l : list A) :
  filter g (filter f l) = filter (fun x => f x && g x) l.
Proof.
  induction l as [|x l IH]; simpl; auto.
  destruct (f x); simpl; [destruct (g x)|]; now rewrite IH.
Qed.

Lemma notna_on_app cols A B r :
  notna_on cols (A ++ B) r = notna_on cols A r && notna_on cols B r.
Proof. unfold notna_on. apply forallb_app. Qed.

Lemma dropna_eq df subset :
  dropna df subset =
  if forallb (has_column df) subset
  then Ok (mkDF (columns df)
                (filter (notna_on (columns df) subset) (rows df)))
  else Raise KeyError.
Proof. reflexivity. Qed.

Lemma dropna_app df A B :
  (d <- dropna df A ;; dropna d B) = dropna df (A ++ B).
Proof.
  rewrite !dropna_eq, forallb_app.
  destruct (forallb (has_column df) A); cbn [bind andb]; auto.
  rewrite dropna_eq. unfold has_column. cbn [columns rows].
  destruct (forallb _ B); auto.
  f_equal. f_equal. rewrite filter_filter_andb.
  apply filter_ext. intros r. now rewrite notna_on_app.
Qed.

(** X2 (dropping missing values composes).  Dropping the rows with a
    missing value under [A] and then those with one under [B] is dropping
    the rows with a missing value under [A ++ B], with the same KeyError
    when a column is not there; so the order of the two calls does not
    matter, and a second call on the same columns changes nothing. *)
Theorem dropna_composes (df : DataFrame) (A B : list string) :
  (d <- dropna df A ;; dropna d B) = dropna df (A ++ B) /\
  (d <- dropna df A ;; dropna d B) = (d <- dropna df B ;; dropna d A) /\
  (d <- dropna df A ;; dropna d A) = dropna df A.
Proof.
  split; [apply dropna_app|]. split.
  - rewrite !dropna_app, !dropna_eq, !forallb_app.
    rewrite andb_comm. destruct (_ && _); auto.
    f_equal. f_equal. apply filter_ext. intros r.
    rewrite !notna_on_app. apply andb_comm.
  - rewrite dropna_app, !dropna_eq, forallb_app.
    destruct (forallb (has_column df) A); auto. cbn [andb].
    f_equal. f_equal. apply filter_ext. intros r.
    rewrite notna_on_app. now destruct (notna_on _ A r).
Qed.

Lemma mask_series_filter (f : cell -> bool) (df : DataFrame) (c : string) :
  mask_rows (map f (map (fun r => loc (columns df) r c) (rows df))) (rows df)
  = filter (fun r => f (loc (columns df) r c)) (rows df).
Proof. apply mask_rows_map_series. Qed.

(** X3 (split and dropna commute).  Dropping the rows with missing
    values from a split frame gives the frame that splitting after the
    drop gives, for the training and for the test side, with the same
    KeyError when GameDate or a listed column is not there. *)
Theorem split_commutes_with_dropna (cutoff : Z) (df : DataFrame)
  (subset : list string) :
  (d <- train_df cutoff df ;; dropna d subset)
  = (d <- dropna df subset ;; train_df cutoff d) /\
  (d <- test_df cutoff df ;; dropna d subset)
  = (d <- dropna df subset ;; test_df cutoff d).
Proof.
  assert (H : forall f : cell -> bool,
            (d <- (dates <- getitem df "GameDate" ;;
                   Ok (boolean_index (map f dates) df)) ;;
             dropna d subset)
            = (d <- dropna df subset ;;
               dates <- getitem d "GameDate" ;;
               Ok (boolean_index (map f dates) d))).
  { intros f.
    rewrite !dropna_eq. unfold getitem, boolean_index, has_column.
    destruct (existsb (String.eqb "GameDate") (columns df)) eqn:G;
      cbn [bind columns rows].
    - rewrite dropna_eq. unfold has_column. cbn [columns rows].
      destruct (forallb _ subset); cbn [bind columns rows]; auto.
      rewrite G. cbn [bind].
      rewrite mask_series_filter.
      rewrite (mask_rows_map_series (fun r => loc (columns df) r "GameDate") f).
      rewrite !filter_filter_andb. do 2 apply f_equal.
      apply filter_ext. intros r. apply andb_comm.
    - destruct (forallb _ subset); cbn [bind columns rows]; auto.
      now rewrite G. }
  split; apply H.
Qed.

Ltac prepare_step :=
  cbn [bind columns rows andb];
  rewrite ?andb_false_r, ?andb_true_r;
  cbn [andb];
  try reflexivity;
  match goal with
  | H : ?b = true |- context [if ?b then _ else _] => rewrite H
  | |- (if ?b then _ else _) = _ => destruct b eqn:?
  | |- bind (if ?b then _ else _) _ = _ => destruct b eqn:?
  end.

(** The data preparation cell in closed form: it needs the columns of
    both lists and CTWin in both frames, and raises KeyError otherwise. *)
Lemma prepare_eq (train test : DataFrame) :
  let t1 := filter (notna_on (columns train) COLS_ALL) (rows train) in
  let s1 := filter (notna_on (columns test) COLS_ALL) (rows test) in
  let t2 := filter (notna_on (columns train) COLS_CB_ALL) t1 in
  let s2 := filter (notna_on (columns test) COLS_CB_ALL) s1 in
  prepare train test =
  if (forallb (has_column train) COLS_ALL && has_column train "CTWin"
      && forallb (has_column train) COLS_CB_ALL)
     && (forallb (has_column test) COLS_ALL && has_column test "CTWin"
         && forallb (has_column test) COLS_CB_ALL)
  then Ok (mkPrepared
             (mkDF COLS_ALL (map (fun r => map (loc (columns train) r) COLS_ALL) t1))
             (map (fun r => loc (columns train) r "CTWin") t1)
             (mkDF COLS_ALL (map (fun r => map (loc (columns test) r) COLS_ALL) s1))
             (map (fun r => loc (columns test) r "CTWin") s1)
             (mkDF COLS_CB_ALL
                   (map (fun r => map (loc (columns train) r) COLS_CB_ALL) t2))
             (map (fun r => loc (columns train) r "CTWin") t2)
             (mkDF COLS_CB_ALL
                   (map (fun r => map (loc (columns test) r) COLS_CB_ALL) s2))
             (map (fun r => loc (columns test) r "CTWin") s2)
             (mkDF (columns train) t2)
             (mkDF (columns test) s2))
  else Raise KeyError.
Proof.
  intros t1 s1 t2 s2. subst t1 s1 t2 s2.
  unfold prepare, dropna, getitems, getitem, has_column.
  repeat prepare_step.
Qed.

Lemma filter_length_eq {A : Type} (f : A -> bool) (l : list A) :
  List.length (filter f l) = List.length l <-> forall x, In x l -> f x = true.
Proof.
  induction l as [|x l IH]; simpl.
  - split; [intros _ ? []|auto].
  - pose proof (filter_length_le f l) as LE.
    destruct (f x) eqn:E; simpl.
    + split.
      * intros L y [<-|Hy]; auto. apply IH; auto.
      * intros H. f_equal. apply IH. auto.
    + split; [lia|]. intros H. specialize (H x (or_introl eq_refl)). congruence.
Qed.

Lemma notna_on_spec cols subset r :
  notna_on cols subset r = true <->
  forall c, In c subset -> loc cols r c <> NA.
Proof.
  unfold notna_on. rewrite forallb_forall. split; intros H c Hc.
  - specialize (H c Hc). now destruct (loc cols r c).
  - specialize (H c Hc). now destruct (loc cols r c).
Qed.

Lemma complete_rows_no_missing (df : DataFrame) (subset cols : list string) :
  incl cols subset ->
  no_missing (mkDF cols (map (fun r => map (loc (columns df) r) cols)
                             (complete_rows df subset))).
Proof.
  intros I. unfold no_missing, complete_rows. cbn [rows].
  rewrite Forall_map. apply Forall_forall. intros r Hr.
  apply filter_In in Hr. destruct Hr as [_ Hr].
  rewrite Forall_map. apply Forall_forall. intros c Hc.
  rewrite notna_on_spec in Hr. auto.
Qed.

Lemma complete_rows_twice (df : DataFrame) (A B : list string) :
  filter (notna_on (columns df) B) (filter (notna_on (columns df) A) (rows df))
  = complete_rows df (A ++ B).
Proof.
  unfold complete_rows. rewrite filter_filter_andb. apply filter_ext.
  intros r. now rewrite notna_on_app.
Qed.

Lemma complete_rows_length (df : DataFrame) (A B : list string) :
  List.length (complete_rows df (A ++ B)) = List.length (complete_rows df A)
  <-> forall r, In r (complete_rows df A) ->
        forall c, In c B -> loc (columns df) r c <> NA.
Proof.
  rewrite <- complete_rows_twice. unfold complete_rows.
  rewrite filter_length_eq. split; intros H r Hr.
  - apply notna_on_spec. auto.
  - apply notna_on_spec. auto.
Qed.

Lemma prepare_tuning_eq (train test : DataFrame) :
  let t1 := filter (notna_on (columns train) Tuning.COLS_ALL) (rows train) in
  let s1 := filter (notna_on (columns test) Tuning.COLS_ALL) (rows test) in
  let t2 := filter (notna_on (columns train) Tuning.COLS_CB_ALL) t1 in
  let s2 := filter (notna_on (columns test) Tuning.COLS_CB_ALL) s1 in
  let sel df cols := map (fun r => map (loc (columns df) r) cols) in
  let lab df := map (fun r => loc (columns df) r "CTWin") in
  Tuning.prepare train test =
  if (forallb (has_column train) Tuning.COLS_ALL
      && forallb (has_column train) Tuning.COLS_NO_SPATIAL
      && has_column train "CTWin"
      && forallb (has_column train) Tuning.COLS_CB_ALL
      && forallb (has_column train) Tuning.COLS_CB_NO_SPATIAL)
     && (forallb (has_column test) Tuning.COLS_ALL
         && forallb (has_column test) Tuning.COLS_NO_SPATIAL
         && has_column test "CTWin"
         && forallb (has_column test) Tuning.COLS_CB_ALL
         && forallb (has_column test) Tuning.COLS_CB_NO_SPATIAL)
  then Ok (Tuning.mkPrepared
             (mkDF Tuning.COLS_ALL (sel train Tuning.COLS_ALL t1))
             (mkDF Tuning.COLS_NO_SPATIAL (sel train Tuning.COLS_NO_SPATIAL t1))
             (lab train t1)
             (mkDF Tuning.COLS_ALL (sel test Tuning.COLS_ALL s1))
             (mkDF Tuning.COLS_NO_SPATIAL (sel test Tuning.COLS_NO_SPATIAL s1))
             (lab test s1)
             (mkDF Tuning.COLS_CB_ALL (sel train Tuning.COLS_CB_ALL t2))
             (mkDF Tuning.COLS_CB_NO_SPATIAL
                   (sel train Tuning.COLS_CB_NO_SPATIAL t2))
             (lab train t2)
             (mkDF Tuning.COLS_CB_ALL (sel test Tuning.COLS_CB_ALL s2))
             (mkDF Tuning.COLS_CB_NO_SPATIAL
                   (sel test Tuning.COLS_CB_NO_SPATIAL s2))
             (lab test s2)
             (mkDF (columns train) t2)
             (mkDF (columns test) s2))
  else Raise KeyError.
Proof.
  intros t1 s1 t2 s2 sel lab. subst t1 s1 t2 s2 sel lab.
  unfold Tuning.prepare, dropna, getitems, getitem, has_column.
  repeat prepare_step.
Qed.

Lemma incl_check (A B : list string) :
  forallb (fun c => existsb (String.eqb c) B) A = true -> incl A B.
Proof.
  intros H c Hc. rewrite forallb_forall in H. apply existsb_eqb_In. auto.
Qed.

Lemma cut_from_complete (df : DataFrame) (A B cols : list string) :
  cut_from df (A ++ B) cols
    (mkDF cols
       (map (fun r => map (loc (columns df) r) cols)
          (filter (notna_on (columns df) B)
             (filter (notna_on (columns df) A) (rows df)))))
    (map (fun r => loc (columns df) r "CTWin")
       (filter (notna_on (columns df) B)
          (filter (notna_on (columns df) A) (rows df)))).
Proof. unfold cut_from. now rewrite complete_rows_twice. Qed.

Lemma no_missing_twice (df : DataFrame) (A B cols : list string) :
  incl cols (A ++ B) ->
  no_missing
    (mkDF cols
       (map (fun r => map (loc (columns df) r) cols)
          (filter (notna_on (columns df) B)
             (filter (notna_on (columns df) A) (rows df))))).
Proof.
  intros I. rewrite complete_rows_twice. now apply complete_rows_no_missing.
Qed.

Ltac incl_by_check := apply incl_check; reflexivity.

Lemma Ok_inj {A : Type} (a b : A) : Ok a = Ok b -> a = b.
Proof. congruence. Qed.

(** X4 (the design matrices hold the complete rounds).  When the data
    preparation cell of either notebook succeeds, every design matrix has
    the columns of its list, holds, in the frame's order, exactly the
    rounds with no missing value under the columns dropped on so far, and
    so has no missing cell; the label series taken with it holds the
    CTWin of the same rounds, row by row.  The frames themselves are left
    with the rounds of the CatBoost matrices: the rounds complete on both
    column lists. *)
Theorem design_matrices_hold_complete_rounds (train test : DataFrame) :
  (forall p, prepare train test = Ok p ->
     cut_from train COLS_ALL COLS_ALL (X_train_ALL p) (y_train p) /\
     cut_from test COLS_ALL COLS_ALL (X_test_ALL p) (y_test p) /\
     cut_from train (COLS_ALL ++ COLS_CB_ALL) COLS_CB_ALL
              (X_train_cb_ALL p) (y_train_cb p) /\
     cut_from test (COLS_ALL ++ COLS_CB_ALL) COLS_CB_ALL
              (X_test_cb_ALL p) (y_test_cb p) /\
     no_missing (X_train_ALL p) /\ no_missing (X_test_ALL p) /\
     no_missing (X_train_cb_ALL p) /\ no_missing (X_test_cb_ALL p) /\
     train_rounds p
     = mkDF (columns train) (complete_rows train (COLS_ALL ++ COLS_CB_ALL)) /\
     test_rounds p
     = mkDF (columns test) (complete_rows test (COLS_ALL ++ COLS_CB_ALL))) /\
  (forall q, Tuning.prepare train test = Ok q ->
     cut_from train Tuning.COLS_ALL Tuning.COLS_ALL
              (Tuning.X_train_ALL q) (Tuning.y_train q) /\
     cut_from train Tuning.COLS_ALL Tuning.COLS_NO_SPATIAL
              (Tuning.X_train_NO_SPATIAL q) (Tuning.y_train q) /\
     cut_from test Tuning.COLS_ALL Tuning.COLS_ALL
              (Tuning.X_test_ALL q) (Tuning.y_test q) /\
     cut_from test Tuning.COLS_ALL Tuning.COLS_NO_SPATIAL
              (Tuning.X_test_NO_SPATIAL q) (Tuning.y_test q) /\
     cut_from train (Tuning.COLS_ALL ++ Tuning.COLS_CB_ALL) Tuning.COLS_CB_ALL
              (Tuning.X_train_cb_ALL q) (Tuning.y_train_cb q) /\
     cut_from train (Tuning.COLS_ALL ++ Tuning.COLS_CB_ALL)
              Tuning.COLS_CB_NO_SPATIAL
              (Tuning.X_train_cb_NO_SPATIAL q) (Tuning.y_train_cb q) /\
     cut_from test (Tuning.COLS_ALL ++ Tuning.COLS_CB_ALL) Tuning.COLS_CB_ALL
              (Tuning.X_test_cb_ALL q) (Tuning.y_test_cb q) /\
     cut_from test (Tuning.COLS_ALL ++ Tuning.COLS_CB_ALL)
              Tuning.COLS_CB_NO_SPATIAL
              (Tuning.X_test_cb_NO_SPATIAL q) (Tuning.y_test_cb q) /\
     no_missing (Tuning.X_train_ALL q) /\
     no_missing (Tuning.X_train_NO_SPATIAL q) /\
     no_missing (Tuning.X_test_ALL q) /\
     no_missing (Tuning.X_test_NO_SPATIAL q) /\
     no_missing (Tuning.X_train_cb_ALL q) /\
     no_missing (Tuning.X_train_cb_NO_SPATIAL q) /\
     no_missing (Tuning.X_test_cb_ALL q) /\
     no_missing (Tuning.X_test_cb_NO_SPATIAL q) /\
     Tuning.train_rounds q
     = mkDF (columns train)
            (complete_rows train (Tuning.COLS_ALL ++ Tuning.COLS_CB_ALL)) /\
     Tuning.test_rounds q
     = mkDF (columns test)
            (complete_rows test (Tuning.COLS_ALL ++ Tuning.COLS_CB_ALL))).
Proof.
  split.
  - intros p H. rewrite prepare_eq in H.
    destruct (_ && _) in H; [|discriminate]. apply Ok_inj in H. subst p.
    unfold X_train_ALL, y_train, X_test_ALL, y_test,
      X_train_cb_ALL, y_train_cb, X_test_cb_ALL, y_test_cb,
      train_rounds, test_rounds.
    repeat match goal with |- _ /\ _ => split end;
      try (repeat split; reflexivity);
      try apply cut_from_complete;
      try (apply complete_rows_no_missing; incl_by_check);
      try (apply no_missing_twice; incl_by_check);
      try (apply f_equal; apply complete_rows_twice).
  - intros q H. rewrite prepare_tuning_eq in H.
    destruct (_ && _) in H; [|discriminate]. apply Ok_inj in H. subst q.
    unfold Tuning.X_train_ALL, Tuning.X_train_NO_SPATIAL, Tuning.y_train,
      Tuning.X_test_ALL, Tuning.X_test_NO_SPATIAL, Tuning.y_test,
      Tuning.X_train_cb_ALL, Tuning.X_train_cb_NO_SPATIAL, Tuning.y_train_cb,
      Tuning.X_test_cb_ALL, Tuning.X_test_cb_NO_SPATIAL, Tuning.y_test_cb,
      Tuning.train_rounds, Tuning.test_rounds.
    repeat match goal with |- _ /\ _ => split end;
      try (repeat split; reflexivity);
      try apply cut_from_complete;
      try (apply complete_rows_no_missing; incl_by_check);
      try (apply no_missing_twice; incl_by_check);
      try (apply f_equal; apply complete_rows_twice).
Qed.

Lemma rows_against_labels {X Y : Type} (df : DataFrame)
  (A B extra : list string) (sel : list cell -> X) (lab : list cell -> Y) :
  incl B (extra ++ A) -> incl extra B ->
  (List.length
     (map sel (filter (notna_on (columns df) B)
                 (filter (notna_on (columns df) A) (rows df))))
   = List.length (map lab (filter (notna_on (columns df) A) (rows df)))
   <-> forall r, In r (complete_rows df A) ->
         forall c, In c extra -> loc (columns df) r c <> NA).
Proof.
  intros IB IE. rewrite !length_map, complete_rows_twice.
  change (filter (notna_on (columns df) A) (rows df))
    with (complete_rows df A).
  rewrite complete_rows_length. split; intros H r Hr c Hc.
  - apply H; auto.
  - destruct (in_app_or _ _ _ (IB c Hc)) as [I|I]; [auto|].
    apply filter_In in Hr. destruct Hr as [_ Hr].
    rewrite notna_on_spec in Hr. auto.
Qed.

Lemma forall_two (P : string -> Prop) (a b : string) :
  (forall c, In c [a; b] -> P c) <-> P a /\ P b.
Proof.
  simpl. split.
  - intros H. split; apply H; auto.
  - intros [Ha Hb] c [<-|[<-|[]]]; auto.
Qed.

Lemma forall_one (P : string -> Prop) (a : string) :
  (forall c, In c [a] -> P c) <-> P a.
Proof.
  simpl. split.
  - intros H. apply H; auto.
  - intros Ha c [<-|[]]; auto.
Qed.

(** X5 (rows of the CatBoost matrices against the labels).  The CatBoost
    matrices are cut after a second [dropna], the labels [y_train] and
    [y_test] before it.  So when the data preparation cell succeeds, a
    CatBoost matrix has one row per label of [y_train_cb] / [y_test_cb],
    and has one row per label of [y_train] / [y_test], which the CatBoost
    cells pass with it, exactly when no round that is complete on the
    one-hot feature list lacks its MapName (or, in the revised notebook,
    its BombSite). *)
Theorem catboost_rows_against_labels (train test : DataFrame) :
  (forall p, prepare train test = Ok p ->
     List.length (rows (X_train_cb_ALL p)) = List.length (y_train_cb p) /\
     List.length (rows (X_test_cb_ALL p)) = List.length (y_test_cb p) /\
     (List.length (rows (X_train_cb_ALL p)) = List.length (y_train p) <->
      forall r, In r (complete_rows train COLS_ALL) ->
        loc (columns train) r "MapName" <> NA /\
        loc (columns train) r "BombSite" <> NA) /\
     (List.length (rows (X_test_cb_ALL p)) = List.length (y_test p) <->
      forall r, In r (complete_rows test COLS_ALL) ->
        loc (columns test) r "MapName" <> NA /\
        loc (columns test) r "BombSite" <> NA)) /\
  (forall q, Tuning.prepare train test = Ok q ->
     List.length (rows (Tuning.X_train_cb_ALL q))
       = List.length (Tuning.y_train_cb q) /\
     List.length (rows (Tuning.X_train_cb_NO_SPATIAL q))
       = List.length (Tuning.y_train_cb q) /\
     List.length (rows (Tuning.X_test_cb_ALL q))
       = List.length (Tuning.y_test_cb q) /\
     List.length (rows (Tuning.X_test_cb_NO_SPATIAL q))
       = List.length (Tuning.y_test_cb q) /\
     (List.length (rows (Tuning.X_train_cb_ALL q))
        = List.length (Tuning.y_train q) <->
      forall r, In r (complete_rows train Tuning.COLS_ALL) ->
        loc (columns train) r "MapName" <> NA) /\
     (List.length (rows (Tuning.X_train_cb_NO_SPATIAL q))
        = List.length (Tuning.y_train q) <->
      forall r, In r (complete_rows train Tuning.COLS_ALL) ->
        loc (columns train) r "MapName" <> NA) /\
     (List.length (rows (Tuning.X_test_cb_ALL q))
        = List.length (Tuning.y_test q) <->
      forall r, In r (complete_rows test Tuning.COLS_ALL) ->
        loc (columns test) r "MapName" <> NA) /\
     (List.length (rows (Tuning.X_test_cb_NO_SPATIAL q))
        = List.length (Tuning.y_test q) <->
      forall r, In r (complete_rows test Tuning.COLS_ALL) ->
        loc (columns test) r "MapName" <> NA)).
Proof.
  split.
  - intros p H. rewrite prepare_eq in H.
    destruct (_ && _) in H; [|discriminate]. apply Ok_inj in H. subst p.
    unfold X_train_ALL, y_train, X_test_ALL, y_test,
      X_train_cb_ALL, y_train_cb, X_test_cb_ALL, y_test_cb.
    cbn [rows].
    repeat match goal with |- _ /\ _ => split end;
      try (now rewrite !length_map).
    + rewrite (rows_against_labels train COLS_ALL COLS_CB_ALL
                 ["MapName"; "BombSite"]) by incl_by_check.
      split; intros H r Hr; specialize (H r Hr);
        now apply (forall_two (fun c => loc (columns train) r c <> NA)).
    + rewrite (rows_against_labels test COLS_ALL COLS_CB_ALL
                 ["MapName"; "BombSite"]) by incl_by_check.
      split; intros H r Hr; specialize (H r Hr);
        now apply (forall_two (fun c => loc (columns test) r c <> NA)).
  - intros q H. rewrite prepare_tuning_eq in H.
    destruct (_ && _) in H; [|discriminate]. apply Ok_inj in H. subst q.
    unfold Tuning.X_train_ALL, Tuning.X_train_NO_SPATIAL, Tuning.y_train,
      Tuning.X_test_ALL, Tuning.X_test_NO_SPATIAL, Tuning.y_test,
      Tuning.X_train_cb_ALL, Tuning.X_train_cb_NO_SPATIAL, Tuning.y_train_cb,
      Tuning.X_test_cb_ALL, Tuning.X_test_cb_NO_SPATIAL, Tuning.y_test_cb.
    cbn [rows].
    repeat match goal with |- _ /\ _ => split end;
      try (now rewrite !length_map).
    + rewrite (rows_against_labels train Tuning.COLS_ALL Tuning.COLS_CB_ALL
                 ["MapName"]) by incl_by_check.
      split; intros H r Hr; specialize (H r Hr);
        now apply (forall_one (fun c => loc (columns train) r c <> NA)).
    + rewrite (rows_against_labels train Tuning.COLS_ALL Tuning.COLS_CB_ALL
                 ["MapName"]) by incl_by_check.
      split; intros H r Hr; specialize (H r Hr);
        now apply (forall_one (fun c => loc (columns train) r c <> NA)).
    + rewrite (rows_against_labels test Tuning.COLS_ALL Tuning.COLS_CB_ALL
                 ["MapName"]) by incl_by_check.
      split; intros H r Hr; specialize (H r Hr);
        now apply (forall_one (fun c => loc (columns test) r c <> NA)).
    + rewrite (rows_against_labels test Tuning.COLS_ALL Tuning.COLS_CB_ALL
                 ["MapName"]) by incl_by_check.
      split; intros H r Hr; specialize (H r Hr);
        now apply (forall_one (fun c => loc (columns test) r c <> NA)).
Qed.

Lemma design_matrices_hold_complete_rounds_witness :
  (exists p, prepare example_train example_test = Ok p /\
     cut_from example_train COLS_ALL COLS_ALL (X_train_ALL p) (y_train p) /\
     cut_from example_test COLS_ALL COLS_ALL (X_test_ALL p) (y_test p) /\
     cut_from example_train (COLS_ALL ++ COLS_CB_ALL) COLS_CB_ALL
              (X_train_cb_ALL p) (y_train_cb p) /\
     cut_from example_test (COLS_ALL ++ COLS_CB_ALL) COLS_CB_ALL
              (X_test_cb_ALL p) (y_test_cb p) /\
     no_missing (X_train_ALL p) /\ no_missing (X_test_ALL p) /\
     no_missing (X_train_cb_ALL p) /\ no_missing (X_test_cb_ALL p) /\
     train_rounds p
     = mkDF (columns example_train) (complete_rows example_train (COLS_ALL ++ COLS_CB_ALL)) /\
     test_rounds p
     = mkDF (columns example_test) (complete_rows example_test (COLS_ALL ++ COLS_CB_ALL))) /\
  (exists q, Tuning.prepare example_train_tuning example_test_tuning = Ok q /\
     cut_from example_train_tuning Tuning.COLS_ALL Tuning.COLS_ALL
              (Tuning.X_train_ALL q) (Tuning.y_train q) /\
     cut_from example_train_tuning Tuning.COLS_ALL Tuning.COLS_NO_SPATIAL
              (Tuning.X_train_NO_SPATIAL q) (Tuning.y_train q) /\
     cut_from example_test_tuning Tuning.COLS_ALL Tuning.COLS_ALL
              (Tuning.X_test_ALL q) (Tuning.y_test q) /\
     cut_from example_test_tuning Tuning.COLS_ALL Tuning.COLS_NO_SPATIAL
              (Tuning.X_test_NO_SPATIAL q) (Tuning.y_test q) /\
     cut_from example_train_tuning (Tuning.COLS_ALL ++ Tuning.COLS_CB_ALL) Tuning.COLS_CB_ALL
              (Tuning.X_train_cb_ALL q) (Tuning.y_train_cb q) /\
     cut_from example_train_tuning (Tuning.COLS_ALL ++ Tuning.COLS_CB_ALL)
              Tuning.COLS_CB_NO_SPATIAL
              (Tuning.X_train_cb_NO_SPATIAL q) (Tuning.y_train_cb q) /\
     cut_from example_test_tuning (Tuning.COLS_ALL ++ Tuning.COLS_CB_ALL) Tuning.COLS_CB_ALL
              (Tuning.X_test_cb_ALL q) (Tuning.y_test_cb q) /\
     cut_from example_test_tuning (Tuning.COLS_ALL ++ Tuning.COLS_CB_ALL)
              Tuning.COLS_CB_NO_SPATIAL
              (Tuning.X_test_cb_NO_SPATIAL q) (Tuning.y_test_cb q) /\
     no_missing (Tuning.X_train_ALL q) /\
     no_missing (Tuning.X_train_NO_SPATIAL q) /\
     no_missing (Tuning.X_test_ALL q) /\
     no_missing (Tuning.X_test_NO_SPATIAL q) /\
     no_missing (Tuning.X_train_cb_ALL q) /\
     no_missing (Tuning.X_train_cb_NO_SPATIAL q) /\
     no_missing (Tuning.X_test_cb_ALL q) /\
     no_missing (Tuning.X_test_cb_NO_SPATIAL q) /\
     Tuning.train_rounds q
     = mkDF (columns example_train_tuning)
            (complete_rows example_train_tuning (Tuning.COLS_ALL ++ Tuning.COLS_CB_ALL)) /\
     Tuning.test_rounds q
     = mkDF (columns example_test_tuning)
            (complete_rows example_test_tuning (Tuning.COLS_ALL ++ Tuning.COLS_CB_ALL))).
Proof.
  split.
  - eexists. split; [vm_compute; reflexivity|].
    apply (proj1 (design_matrices_hold_complete_rounds example_train example_test)).
    vm_compute. reflexivity.
  - eexists. split; [vm_compute; reflexivity|].
    apply (proj2 (design_matrices_hold_complete_rounds example_train_tuning example_test_tuning)).
    vm_compute. reflexivity.
Defined.

Lemma catboost_rows_against_labels_witness :
  (exists p, prepare example_train example_test = Ok p /\
     List.length (rows (X_train_cb_ALL p)) = List.length (y_train_cb p) /\
     List.length (rows (X_test_cb_ALL p)) = List.length (y_test_cb p) /\
     (List.length (rows (X_train_cb_ALL p)) = List.length (y_train p) <->
      forall r, In r (complete_rows example_train COLS_ALL) ->
        loc (columns example_train) r "MapName" <> NA /\
        loc (columns example_train) r "BombSite" <> NA) /\
     (List.length (rows (X_test_cb_ALL p)) = List.length (y_test p) <->
      forall r, In r (complete_rows example_test COLS_ALL) ->
        loc (columns example_test) r "MapName" <> NA /\
        loc (columns example_test) r "BombSite" <> NA)) /\
  (exists q, Tuning.prepare example_train_tuning example_test_tuning = Ok q /\
     List.length (rows (Tuning.X_train_cb_ALL q))
       = List.length (Tuning.y_train_cb q) /\
     List.length (rows (Tuning.X_train_cb_NO_SPATIAL q))
       = List.length (Tuning.y_train_cb q) /\
     List.length (rows (Tuning.X_test_cb_ALL q))
       = List.length (Tuning.y_test_cb q) /\
     List.length (rows (Tuning.X_test_cb_NO_SPATIAL q))
       = List.length (Tuning.y_test_cb q) /\
     (List.length (rows (Tuning.X_train_cb_ALL q))
        = List.length (Tuning.y_train q) <->
      forall r, In r (complete_rows example_train_tuning Tuning.COLS_ALL) ->
        loc (columns example_train_tuning) r "MapName" <> NA) /\
     (List.length (rows (Tuning.X_train_cb_NO_SPATIAL q))
        = List.length (Tuning.y_train q) <->
      forall r, In r (complete_rows example_train_tuning Tuning.COLS_ALL) ->
        loc (columns example_train_tuning) r "MapName" <> NA) /\
     (List.length (rows (Tuning.X_test_cb_ALL q))
        = List.length (Tuning.y_test q) <->
      forall r, In r (complete_rows example_test_tuning Tuning.COLS_ALL) ->
        loc (columns example_test_tuning) r "MapName" <> NA) /\
     (List.length (rows (Tuning.X_test_cb_NO_SPATIAL q))
        = List.length (Tuning.y_test q) <->
      forall r, In r (complete_rows example_test_tuning Tuning.COLS_ALL) ->
        loc (columns example_test_tuning) r "MapName" <> NA)).
Proof.
  split.
  - eexists. split; [vm_compute; reflexivity|].
    apply (proj1 (catboost_rows_against_labels example_train example_test)).
    vm_compute. reflexivity.
  - eexists. split; [vm_compute; reflexivity|].
    apply (proj2 (catboost_rows_against_labels example_train_tuning example_test_tuning)).
    vm_compute. reflexivity.
Defined.

(** The columns of an encoded frame: the columns it had, and one
    indicator column for each value that occurs. *)
Lemma In_columns_one_hot_frame (df : DataFrame) (c k : string) :
  NoDup (columns df) -> In c (columns df) ->
  (In k (columns (one_hot_frame df c)) <->
   In k (columns df) \/
   exists m, k = dummy_name c m /\ In (Str m) (series df c)).
Proof.
  intros ND Hc. unfold one_hot_frame. cbn [columns].
  rewrite !in_app_iff, In_drop_name, in_map_iff by assumption. split.
  - intros [[[Hk _]|[m [<- Hm]]]|[<-|[]]]; auto.
    right. exists m. split; auto. now apply In_levels.
  - intros [Hk|[m [-> Hm]]].
    + destruct (string_dec k c) as [->|N]; [right; simpl; auto|auto].
    + left. right. exists m. split; auto. now apply In_levels.
Qed.

Lemma preprocess_revised_eq (df : DataFrame) :
  wf df -> In "MapName" (columns df) -> In "BombSite" (columns df) ->
  fresh "MapName" df ->
  preprocess_revised df
  = Ok (one_hot_frame (one_hot_frame df "MapName") "BombSite").
Proof.
  intros W HM HB FM. unfold preprocess_revised.
  rewrite one_hot_eq; [|apply W|now apply has_column_In]. cbn [bind].
  apply one_hot_eq.
  - now apply one_hot_frame_wf.
  - apply has_column_In, In_columns_one_hot_frame; auto. apply W.
Qed.

Lemma dummy_name_prefixes (m m' : string) :
  dummy_name "MapName" m <> dummy_name "BombSite" m'.
Proof. unfold dummy_name. simpl. discriminate. Qed.

Lemma In_columns_revised (df : DataFrame) (k : string) :
  wf df -> In "MapName" (columns df) -> In "BombSite" (columns df) ->
  fresh "MapName" df ->
  (In k (columns (one_hot_frame (one_hot_frame df "MapName") "BombSite")) <->
   In k (columns df) \/
   (exists m, k = dummy_name "MapName" m /\ In (Str m) (series df "MapName")) \/
   (exists m, k = dummy_name "BombSite" m /\ In (Str m) (series df "BombSite"))).
Proof.
  intros W HM HB FM.
  assert (W1 : wf (one_hot_frame df "MapName")) by now apply one_hot_frame_wf.
  assert (S1 : series (one_hot_frame df "MapName") "BombSite"
               = series df "BombSite").
  { apply (keeps_series ["MapName"]); auto.
    - now apply one_hot_frame_keeps.
    - simpl. intros [E|[]]. discriminate. }
  rewrite In_columns_one_hot_frame;
    [|apply W1|apply In_columns_one_hot_frame; auto; apply W].
  rewrite S1, In_columns_one_hot_frame; auto; [tauto|apply W].
Qed.

Lemma prepare_outcome (cols : list string) (tr te : list (list cell)) :
  (incl (COLS_ALL ++ "CTWin" :: COLS_CB_ALL) cols ->
   exists p, prepare (mkDF cols tr) (mkDF cols te) = Ok p) /\
  (forall p, prepare (mkDF cols tr) (mkDF cols te) = Ok p ->
     incl COLS_ALL cols) /\
  (forall e, prepare (mkDF cols tr) (mkDF cols te) = Raise e -> e = KeyError).
Proof.
  rewrite prepare_eq. split; [|split].
  - intros I.
    assert (forall cs, incl cs (COLS_ALL ++ "CTWin" :: COLS_CB_ALL) ->
            forall rs : list (list cell),
              forallb (has_column (mkDF cols rs)) cs = true) as F.
    { intros cs Hcs rs. apply forallb_has_column. cbn [columns].
      intros c Hc. auto. }
    assert (forall rs : list (list cell),
              has_column (mkDF cols rs) "CTWin" = true) as C.
    { intros rs. apply has_column_In. cbn [columns]. apply I.
      apply in_or_app. right. simpl. auto. }
    rewrite !F, !C by incl_by_check. cbn [andb]. eauto.
  - intros p H. destruct (_ && _) eqn:E in H; [|discriminate].
    rewrite !andb_true_iff in E. destruct E as [[[E _] _] _].
    rewrite forallb_forall in E. intros c Hc.
    apply (has_column_In (mkDF cols tr)). auto.
  - intros e H. destruct (_ && _) in H; congruence.
Qed.

Lemma COLS_ALL_encoded :
  COLS_ALL
  = map (fun cm => dummy_name (fst cm) (snd cm)) encoded_values ++ cols_scaled.
Proof. reflexivity. Qed.

Lemma prepare_tuning_outcome (cols : list string) (tr te : list (list cell)) :
  (incl (Tuning.COLS_ALL ++ ["CTWin"; "MapName"]) cols ->
   exists q, Tuning.prepare (mkDF cols tr) (mkDF cols te) = Ok q) /\
  (forall q, Tuning.prepare (mkDF cols tr) (mkDF cols te) = Ok q ->
     incl Tuning.COLS_ALL cols) /\
  (forall e, Tuning.prepare (mkDF cols tr) (mkDF cols te) = Raise e ->
     e = KeyError).
Proof.
  rewrite prepare_tuning_eq. split; [|split].
  - intros I.
    assert (forall cs, incl cs (Tuning.COLS_ALL ++ ["CTWin"; "MapName"]) ->
            forall rs : list (list cell),
              forallb (has_column (mkDF cols rs)) cs = true) as F.
    { intros cs Hcs rs. apply forallb_has_column. cbn [columns].
      intros c Hc. auto. }
    assert (forall rs : list (list cell),
              has_column (mkDF cols rs) "CTWin" = true) as C.
    { intros rs. apply has_column_In. cbn [columns]. apply I.
      apply in_or_app. right. simpl. auto. }
    rewrite !F, !C by incl_by_check. cbn [andb]. eauto.
  - intros q H. destruct (_ && _) eqn:E in H; [|discriminate].
    rewrite !andb_true_iff in E. destruct E as [[[[[E _] _] _] _] _].
    rewrite forallb_forall in E. intros c Hc.
    apply (has_column_In (mkDF cols tr)). auto.
  - intros e H. destruct (_ && _) in H; congruence.
Qed.

Lemma encoded_values_column (c m : string) :
  In (c, m) encoded_values -> c = "MapName" \/ c = "BombSite".
Proof.
  intros H. simpl in H.
  repeat (destruct H as [H|H]; [inversion H; auto|]). contradiction.
Qed.

(** X6 (the notebook needs every encoded value in the data).  On a csv
    frame with all twelve numeric features, GameDate, MapName, BombSite and
    CTWin and no column named like an indicator, the cells from the
    encoding to the design matrices succeed exactly when each of the
    seven maps (and, in the revised notebook, each of the three bomb site
    values) named in the feature list occurs in the data; otherwise the
    indicator column is never made and the cells raise KeyError. *)
Theorem design_matrices_need_every_value (df : DataFrame) :
  wf df -> incl csv_columns (columns df) ->
  fresh "MapName" df -> fresh "BombSite" df ->
  ((exists p, design_matrices df = Ok p) <->
   forall c m, In (c, m) encoded_values -> In (Str m) (series df c)) /\
  (forall e, design_matrices df = Raise e -> e = KeyError) /\
  ((exists q, Tuning.design_matrices df = Ok q) <->
   forall m, In m Tuning.encoded_maps -> In (Str m) (series df "MapName")) /\
  (forall e, Tuning.design_matrices df = Raise e -> e = KeyError).
Proof.
  intros W I FM FB.
  assert (HM : In "MapName" (columns df)) by (apply I; simpl; auto).
  assert (HB : In "BombSite" (columns df)) by (apply I; simpl; auto).
  assert (HG : In "GameDate" (columns df)) by (apply I; simpl; auto).
  assert (IC : incl ("CTWin" :: COLS_CB_ALL) (columns df)).
  { intros k Hk. apply I. revert k Hk. incl_by_check. }
  assert (IS : incl cols_scaled (columns df)).
  { intros k Hk. apply I. revert k Hk. incl_by_check. }
  assert (R : ((exists p, design_matrices df = Ok p) <->
               (forall c m, In (c, m) encoded_values ->
                  In (Str m) (series df c)))
          /\ forall e, design_matrices df = Raise e -> e = KeyError).
  { unfold design_matrices.
    rewrite preprocess_revised_eq by assumption. cbn [bind].
    set (df2 := one_hot_frame (one_hot_frame df "MapName") "BombSite").
    assert (G2 : has_column df2 "GameDate" = true).
    { apply has_column_In, In_columns_revised; auto. }
    rewrite train_df_filter, test_df_filter by assumption. cbn [bind].
    match goal with
    | |- context [prepare (mkDF _ ?tr) (mkDF _ ?te)] =>
        destruct (prepare_outcome (columns df2) tr te) as (P1 & P2 & P3)
    end.
    split; [split|exact P3].
    - intros [p Hp] c m Hcm. apply P2 in Hp.
      assert (Hk : In (dummy_name c m) (columns df2)).
      { apply Hp. rewrite COLS_ALL_encoded. apply in_or_app. left.
        apply in_map_iff. now exists (c, m). }
      apply In_columns_revised in Hk; auto.
      destruct (encoded_values_column c m Hcm) as [-> | ->];
        destruct Hk as [Hk|[[m' [E Hm]]|[m' [E Hm]]]].
      + now apply fresh_dummy_name in Hk.
      + apply dummy_name_inj in E. now subst.
      + now apply dummy_name_prefixes in E.
      + now apply fresh_dummy_name in Hk.
      + symmetry in E. now apply dummy_name_prefixes in E.
      + apply dummy_name_inj in E. now subst.
    - intros H. apply P1. intros k Hk. apply In_columns_revised; auto.
      apply in_app_or in Hk. destruct Hk as [Hk|Hk]; [|left; now apply IC].
      rewrite COLS_ALL_encoded in Hk. apply in_app_or in Hk.
      destruct Hk as [Hk|Hk]; [|left; now apply IS].
      apply in_map_iff in Hk. destruct Hk as [[c m] [<- Hcm]]. cbn [fst snd].
      right. destruct (encoded_values_column c m Hcm) as [-> | ->];
        [left|right]; exists m; auto. }
  assert (T : ((exists q, Tuning.design_matrices df = Ok q) <->
               (forall m, In m Tuning.encoded_maps ->
                  In (Str m) (series df "MapName")))
          /\ forall e, Tuning.design_matrices df = Raise e -> e = KeyError).
  { unfold Tuning.design_matrices, preprocess_tuning.
    rewrite one_hot_eq; [|apply W|now apply has_column_In]. cbn [bind].
    set (df1 := one_hot_frame df "MapName").
    assert (C1 : forall k, In k (columns df1) <->
              In k (columns df) \/
              exists m, k = dummy_name "MapName" m /\
                        In (Str m) (series df "MapName")).
    { intros k. apply In_columns_one_hot_frame; auto. apply W. }
    assert (G1 : has_column df1 "GameDate" = true).
    { apply has_column_In, C1. auto. }
    rewrite train_df_filter, test_df_filter by assumption. cbn [bind].
    match goal with
    | |- context [Tuning.prepare (mkDF _ ?tr) (mkDF _ ?te)] =>
        destruct (prepare_tuning_outcome (columns df1) tr te) as (P1 & P2 & P3)
    end.
    split; [split|exact P3].
    - intros [q Hq] m Hm. apply P2 in Hq.
      assert (Hk : In (dummy_name "MapName" m) (columns df1)).
      { apply Hq.
        change Tuning.COLS_ALL
          with (map (dummy_name "MapName") Tuning.encoded_maps ++ cols_scaled).
        apply in_or_app. left. now apply in_map. }
      apply C1 in Hk. destruct Hk as [Hk|[m' [E Hm']]].
      + now apply fresh_dummy_name in Hk.
      + apply dummy_name_inj in E. now subst.
    - intros H. apply P1. intros k Hk. apply C1.
      apply in_app_or in Hk. destruct Hk as [Hk|Hk].
      + change Tuning.COLS_ALL
          with (map (dummy_name "MapName") Tuning.encoded_maps ++ cols_scaled)
          in Hk.
        apply in_app_or in Hk. destruct Hk as [Hk|Hk]; [|left; now apply IS].
        apply in_map_iff in Hk. destruct Hk as [m [<- Hm]].
        right. exists m. auto.
      + left. apply I. revert k Hk. incl_by_check. }
  tauto.
Qed.

Lemma example_rounds_wf : wf example_rounds.
Proof.
  split.
  - repeat constructor; simpl; intuition discriminate.
  - repeat constructor.
Qed.

Lemma example_rounds_fresh c :
  c = "MapName" \/ c = "BombSite" -> fresh c example_rounds.
Proof.
  intros [-> | ->] k Hk; simpl in Hk;
    repeat (destruct Hk as [<-|Hk]; [reflexivity|]); destruct Hk.
Qed.

Lemma design_matrices_need_every_value_witness :
  ((exists p, design_matrices example_rounds = Ok p) <->
   forall c m, In (c, m) encoded_values ->
     In (Str m) (series example_rounds c)) /\
  (forall e, design_matrices example_rounds = Raise e -> e = KeyError) /\
  ((exists q, Tuning.design_matrices example_rounds = Ok q) <->
   forall m, In m Tuning.encoded_maps ->
     In (Str m) (series example_rounds "MapName")) /\
  (forall e, Tuning.design_matrices example_rounds = Raise e -> e = KeyError).
Proof.
  apply (design_matrices_need_every_value example_rounds).
  - apply example_rounds_wf.
  - apply incl_refl.
  - apply example_rounds_fresh. now left.
  - apply example_rounds_fresh. now right.
Defined.

Lemma lookup_map_self {A : Type} (f : string -> A) (c : string)
  (cols : list string) :
  In c cols -> lookup c cols (map f cols) = Some (f c).
Proof.
  induction cols as [|k cols IH]; intros H; [destruct H|]. simpl.
  destruct (String.eqb_spec c k) as [->|N]; [reflexivity|].
  destruct H as [->|H]; [congruence|auto].
Qed.

(** X7 (selecting columns, then reading one).  [df[cols]] raises KeyError
    unless the frame has every listed column; otherwise it gives a frame
    with exactly these columns and one row per row of [df], in which a
    listed column reads as it does in [df] and any other column raises
    KeyError. *)
Theorem getitems_then_getitem (df : DataFrame) (cols : list string) :
  (incl cols (columns df) ->
   exists d,
     getitems df cols = Ok d /\ columns d = cols /\
     List.length (rows d) = List.length (rows df) /\
     (forall c, In c cols -> getitem d c = getitem df c) /\
     (forall c, ~ In c cols -> getitem d c = Raise KeyError)) /\
  (~ incl cols (columns df) -> getitems df cols = Raise KeyError).
Proof.
  unfold getitems. split.
  - intros I. rewrite forallb_has_column by assumption.
    eexists. split; [reflexivity|]. cbn [columns rows].
    split; [reflexivity|]. split; [apply length_map|]. split.
    + intros c Hc. unfold getitem.
      replace (has_column (mkDF cols _) c) with true
        by (symmetry; now apply has_column_In).
      replace (has_column df c) with true
        by (symmetry; apply has_column_In; auto).
      cbn [columns rows]. rewrite map_map. f_equal.
      apply map_ext. intros r. unfold loc at 1.
      now rewrite lookup_map_self.
    + intros c Hc. unfold getitem.
      destruct (has_column (mkDF cols _) c) eqn:E; [|reflexivity].
      apply has_column_In in E. contradiction.
  - intros N. destruct (forallb (has_column df) cols) eqn:E; [|reflexivity].
    exfalso. apply N. intros c Hc. rewrite forallb_forall in E.
    apply has_column_In. auto.
Qed.

Lemma getitems_then_getitem_witness :
  exists d,
    getitems unmapped_df ["CTWin"; "MapName"] = Ok d /\
    columns d = ["CTWin"; "MapName"] /\
    List.length (rows d) = List.length (rows unmapped_df) /\
    (forall c, In c ["CTWin"; "MapName"] ->
       getitem d c = getitem unmapped_df c) /\
    (forall c, ~ In c ["CTWin"; "MapName"] -> getitem d c = Raise KeyError).
Proof.
  apply (proj1 (getitems_then_getitem unmapped_df ["CTWin"; "MapName"])).
  incl_by_check.
Defined.

(** X8 (the columns of an encoded frame).  Encoding a column the frame
    does not have raises KeyError.  Otherwise the encoded frame has as
    many rows as before and exactly these columns: the columns it had,
    and one indicator column for each value that occurs in the encoded
    column; no indicator column is made for a value that does not
    occur. *)
Theorem one_hot_columns (df : DataFrame) (c : string) :
  NoDup (columns df) ->
  (~ In c (columns df) -> one_hot df c = Raise KeyError) /\
  (In c (columns df) ->
   exists df',
     one_hot df c = Ok df' /\
     List.length (rows df') = List.length (rows df) /\
     forall k, In k (columns df') <->
       In k (columns df) \/
       exists m, k = dummy_name c m /\ In (Str m) (series df c)).
Proof.
  intros ND. split.
  - intros N. unfold one_hot, getitem.
    destruct (has_column df c) eqn:E; [|reflexivity].
    apply has_column_In in E. contradiction.
  - intros Hc. exists (one_hot_frame df c).
    split; [apply one_hot_eq; auto; now apply has_column_In|].
    split; [apply length_map|].
    intros k. now apply In_columns_one_hot_frame.
Qed.

Lemma one_hot_columns_witness :
  (~ In "MapName" (columns unmapped_df) ->
   one_hot unmapped_df "MapName" = Raise KeyError) /\
  (In "MapName" (columns unmapped_df) ->
   exists df',
     one_hot unmapped_df "MapName" = Ok df' /\
     List.length (rows df') = List.length (rows unmapped_df) /\
     forall k, In k (columns df') <->
       In k (columns unmapped_df) \/
       exists m, k = dummy_name "MapName" m /\
                 In (Str m) (series unmapped_df "MapName")).
Proof.
  apply (one_hot_columns unmapped_df "MapName").
  apply unmapped_df_wf.
Defined.

(** ** Metrics: every outcome of [print_results] *)

Lemma all_finite2_cases (P : list (num * num)) :
  (exists M, P = finite M /\ all_finite2 P = Ok M) \/
  ((forall M, P <> finite M) /\ all_finite2 P = Raise ValueError).
Proof.
  induction P as [|[[a|] [b|]] P IH]; simpl.
  - left. now exists [].
  - destruct IH as [(M & -> & E)|(N & E)].
    + left. exists ((a, b) :: M). rewrite E. auto.
    + right. rewrite E. split; auto.
      intros [|[a' b'] M] H; [discriminate|].
      simpl in H. injection H as _ _ H. now apply N in H.
  - right. split; auto. intros [|[a' b'] M] H; discriminate.
  - right. split; auto. intros [|[a' b'] M] H; discriminate.
  - right. split; auto. intros [|[a' b'] M] H; discriminate.
Qed.

Lemma finite_length (M : list (Q * Q)) :
  List.length (finite M) = List.length M.
Proof. unfold finite. apply length_map. Qed.

Lemma check_consistent_length_fails {A B : Type} (a : list A) (b : list B) :
  List.length a <> List.length b ->
  check_consistent_length a b = Raise ValueError.
Proof.
  intros H. unfold check_consistent_length.
  destruct (Nat.eqb_spec (List.length a) (List.length b)); congruence.
Qed.

Lemma two_labels (y : list Z) :
  List.length (unique_labels y) = 2%nat <->
  exists a b, unique_labels y = [a; b].
Proof.
  split.
  - destruct (unique_labels y) as [|a [|b [|c l]]]; try discriminate. eauto.
  - intros (a & b & ->). reflexivity.
Qed.

Lemma log_loss_outcome (y : list Z) (P : list (num * num)) :
  (forall M, P = finite M -> List.length M = List.length y ->
     List.length (unique_labels y) = 2%nat ->
     log_loss y P = Ok (LogLossOf y M)) /\
  ((forall M, P <> finite M) \/ List.length P <> List.length y
   \/ List.length (unique_labels y) <> 2%nat ->
   log_loss y P = Raise ValueError).
Proof.
  unfold log_loss. split.
  - intros M -> L U. rewrite all_finite2_finite. cbn [bind].
    rewrite check_consistent_length_ok by auto. cbn [bind].
    apply two_labels in U. now destruct U as (a & b & ->).
  - intros H. destruct (all_finite2_cases P) as [(M & -> & E)|(N & E)];
      rewrite E; cbn [bind]; [|reflexivity].
    rewrite finite_length in H.
    destruct (Nat.eq_dec (List.length y) (List.length M)) as [L|L].
    + rewrite check_consistent_length_ok by auto. cbn [bind].
      destruct H as [H|[H|H]]; [now destruct (H M)|congruence|].
      destruct (unique_labels y) as [|a [|b [|c l]]]; auto.
      now destruct H.
    + now rewrite check_consistent_length_fails.
Qed.

Lemma in_range_forallb (p : list Q) :
  forallb (fun q => Qle_bool 0 q && Qle_bool q 1) p = true <->
  Forall (fun q => 0 <= q /\ q <= 1) p.
Proof.
  rewrite forallb_forall, Forall_forall. split; intros H q Hq.
  - specialize (H q Hq). apply andb_true_iff in H.
    now rewrite !Qle_bool_iff in H.
  - apply andb_true_iff. rewrite !Qle_bool_iff. auto.
Qed.

Lemma two_labels_nonempty (y : list Z) :
  List.length (unique_labels y) = 2%nat -> y <> [].
Proof. intros H ->. discriminate. Qed.

Lemma brier_score_loss_outcome (y : list Z) (M : list (Q * Q)) :
  List.length M = List.length y ->
  List.length (unique_labels y) = 2%nat ->
  (Forall (fun row => 0 <= snd row /\ snd row <= 1) M ->
   exists bs, brier_score_loss y (map snd (finite M)) = Ok (Exact bs)) /\
  (~ Forall (fun row => 0 <= snd row /\ snd row <= 1) M ->
   brier_score_loss y (map snd (finite M)) = Raise ValueError).
Proof.
  intros L U. unfold brier_score_loss.
  rewrite snd_finite, all_finite_Some. cbn [bind].
  rewrite check_consistent_length_ok by (now rewrite length_map).
  cbn [bind]. rewrite U. cbn [Nat.ltb Nat.leb].
  destruct (map snd M) as [|q qs] eqn:E.
  { apply two_labels_nonempty in U. destruct M; [|discriminate].
    destruct y; [congruence|discriminate]. }
  rewrite <- E. clear E.
  assert (R : forallb (fun q => Qle_bool 0 q && Qle_bool q 1) (map snd M) = true
              <-> Forall (fun row => 0 <= snd row /\ snd row <= 1) M).
  { rewrite in_range_forallb, Forall_map. reflexivity. }
  destruct (forallb _ (map snd M)); split; intros H; eauto.
  - destruct H. now apply R.
  - assert (false = true) by now apply R. discriminate.
Qed.

Lemma roc_auc_score_two (y : list Z) (M : list (Q * Q)) :
  List.length M = List.length y ->
  List.length (unique_labels y) = 2%nat ->
  exists auc, roc_auc_score y (map snd (finite M)) = Ok (Exact auc).
Proof.
  intros L U. unfold roc_auc_score.
  rewrite snd_finite, all_finite_Some. cbn [bind].
  rewrite check_consistent_length_ok by (now rewrite length_map).
  cbn [bind]. apply two_labels in U. destruct U as (a & b & ->). eauto.
Qed.

Lemma accuracy_score_two (y : list Z) (M : list (Q * Q)) :
  List.length M = List.length y ->
  List.length (unique_labels y) = 2%nat ->
  exists acc,
    accuracy_score y (map ge_half (map snd (finite M))) = Ok (Exact acc).
Proof.
  intros L U. unfold accuracy_score.
  rewrite check_consistent_length_ok
    by (now rewrite !length_map, finite_length).
  cbn [bind]. apply two_labels_nonempty in U. destruct y; [congruence|eauto].
Qed.

(** X9 (every outcome of print_results).  [print_results] ends in one of
    three ways.  If the probability matrix holds a NaN, or has not one
    row per label, or the labels do not show exactly two classes, it
    raises ValueError from [log_loss], having printed the first heading
    only.  Otherwise, if a probability of the second column lies outside
    [0, 1], it prints the log loss and raises ValueError from
    [brier_score_loss] under the second heading.  Otherwise it prints the
    four headings, each followed by a number, and returns. *)
Theorem print_results_outcomes (y : list Z) (P : list (num * num)) :
  ((forall M, P <> finite M) \/ List.length P <> List.length y
   \/ List.length (unique_labels y) <> 2%nat ->
   run (print_results y P)
   = ([Text "---------- LOG LOSS"], Raise ValueError)) /\
  (forall M, P = finite M -> List.length M = List.length y ->
     List.length (unique_labels y) = 2%nat ->
     (~ Forall (fun row => 0 <= snd row /\ snd row <= 1) M ->
      run (print_results y P)
      = ([ Text "---------- LOG LOSS"; Value (LogLossOf y M);
           Text "---------- BRIER SCORE" ],
         Raise ValueError)) /\
     (Forall (fun row => 0 <= snd row /\ snd row <= 1) M ->
      exists bs auc acc,
        run (print_results y P)
        = ([ Text "---------- LOG LOSS"; Value (LogLossOf y M);
             Text "---------- BRIER SCORE"; Value (Exact bs);
             Text "---------- AUC"; Value (Exact auc);
             Text "---------- ACCURACY"; Value (Exact acc) ],
           Ok tt))).
Proof.
  destruct (log_loss_outcome y P) as [LO LR]. split.
  - intros H. unfold run, print_results, io_bind, print, lift.
    now rewrite (LR H).
  - intros M -> L U.
    destruct (brier_score_loss_outcome y M L U) as [BO BR].
    unfold run, print_results, io_bind, print, lift.
    rewrite (LO M eq_refl L U). split; intros H.
    + now rewrite (BR H).
    + destruct (BO H) as [bs ->].
      destruct (roc_auc_score_two y M L U) as [auc ->].
      destruct (accuracy_score_two y M L U) as [acc ->].
      now exists bs, auc, acc.
Qed.

Lemma print_results_outcomes_witness :
  run (print_results [1; 2]%Z [(Some (1 # 2), None); (Some 0, Some 1)])
  = ([Text "---------- LOG LOSS"], Raise ValueError) /\
  run (print_results [1; 2]%Z (finite [(1 # 2, 3 # 2); (0, 1)]))
  = ([ Text "---------- LOG LOSS";
       Value (LogLossOf [1; 2]%Z [(1 # 2, 3 # 2); (0, 1)]);
       Text "---------- BRIER SCORE" ],
     Raise ValueError) /\
  exists bs auc acc,
    run (print_results [1; 2]%Z (finite [(1 # 2, 1 # 2); (0, 1)]))
    = ([ Text "---------- LOG LOSS";
         Value (LogLossOf [1; 2]%Z [(1 # 2, 1 # 2); (0, 1)]);
         Text "---------- BRIER SCORE"; Value (Exact bs);
         Text "---------- AUC"; Value (Exact auc);
         Text "---------- ACCURACY"; Value (Exact acc) ],
       Ok tt).
Proof.
  split; [|split].
  - apply (proj1 (print_results_outcomes [1; 2]%Z
                    [(Some (1 # 2), None); (Some 0, Some 1)])).
    left. intros [|[a b] M] H; discriminate.
  - apply (proj2 (print_results_outcomes [1; 2]%Z
                    (finite [(1 # 2, 3 # 2); (0, 1)]))
             [(1 # 2, 3 # 2); (0, 1)] eq_refl eq_refl eq_refl).
    intros H. inversion H as [|? ? [_ H1] _]; subst. now apply H1.
  - apply (proj2 (print_results_outcomes [1; 2]%Z
                    (finite [(1 # 2, 1 # 2); (0, 1)]))
             [(1 # 2, 1 # 2); (0, 1)] eq_refl eq_refl eq_refl).
    repeat constructor; simpl; unfold Qle; simpl; lia.
Defined.

(** ** Metrics: the reported numbers lie in the unit interval *)

Lemma sq_unit (a : Q) : 0 <= a -> a <= 1 -> 0 <= a * a /\ a * a <= 1.
Proof.
  intros H0 H1. split.
  - now apply Qmult_le_0_compat.
  - apply Qle_trans with (1 * a).
    + now apply Qmult_le_compat_r.
    + now rewrite Qmult_1_l.
Qed.

Lemma sq_err_unit (pos label : Z) (q : Q) :
  0 <= q -> q <= 1 ->
  0 <= (outcome pos label - q) ^ 2 /\ (outcome pos label - q) ^ 2 <= 1.
Proof.
  intros H0 H1. unfold outcome.
  destruct (Z.eqb label pos).
  - setoid_replace ((1 - q) ^ 2) with ((1 - q) * (1 - q)) by (simpl; ring).
    apply sq_unit.
    + apply Qle_minus_iff in H1. exact H1.
    + apply Qle_minus_iff. setoid_replace (1 + - (1 - q)) with q by ring.
      exact H0.
  - setoid_replace ((0 - q) ^ 2) with (q * q) by (simpl; ring).
    now apply sq_unit.
Qed.

Lemma Qsum_unit_bounds (l : list Q) :
  Forall (fun x => 0 <= x /\ x <= 1) l ->
  0 <= Qsum l /\ Qsum l <= inject_Z (Z.of_nat (List.length l)).
Proof.
  induction 1 as [|x l [H0 H1] _ [IH0 IH1]]; simpl Qsum.
  - split; apply Qle_refl.
  - split.
    + setoid_replace 0 with (0 + 0) by ring. now apply Qplus_le_compat.
    + cbn [List.length]. rewrite Nat2Z.inj_succ, <- Z.add_1_l, inject_Z_plus.
      now apply Qplus_le_compat.
Qed.

Lemma Qdiv_unit (s : Q) (n : Z) :
  (0 < n)%Z -> 0 <= s -> s <= inject_Z n ->
  0 <= s / inject_Z n /\ s / inject_Z n <= 1.
Proof.
  intros Hn H0 H1.
  assert (0 < inject_Z n).
  { change 0 with (inject_Z 0). now rewrite <- Zlt_Qlt. }
  split.
  - apply Qle_shift_div_l; [assumption|]. now rewrite Qmult_0_l.
  - apply Qle_shift_div_r; [assumption|]. now rewrite Qmult_1_l.
Qed.

Lemma zip_with_length {A B C : Type} (f : A -> B -> C) (l : list A)
  (l' : list B) :
  List.length l = List.length l' ->
  List.length (zip_with f l l') = List.length l'.
Proof.
  revert l'. induction l as [|a l IH]; intros [|b l'] H; simpl in *;
    try discriminate; auto.
Qed.

Lemma Forall_zip_with_r {A B C : Type} (f : A -> B -> C) (P : B -> Prop)
  (R : C -> Prop) (l : list A) (l' : list B) :
  Forall P l' -> (forall a b, P b -> R (f a b)) -> Forall R (zip_with f l l').
Proof.
  intros H F. revert l. induction H as [|b l' Hb _ IH]; intros [|a l]; simpl;
    auto.
Qed.

Lemma check_consistent_length_inv {A B : Type} (a : list A) (b : list B) u :
  check_consistent_length a b = Ok u -> List.length a = List.length b.
Proof.
  unfold check_consistent_length.
  destruct (Nat.eqb_spec (List.length a) (List.length b)); congruence.
Qed.

Lemma all_finite_inv (l : list num) (qs : list Q) :
  all_finite l = Ok qs -> l = map Some qs.
Proof.
  revert qs. induction l as [|[q|] l IH]; intros qs H; simpl in H.
  - now injection H as <-.
  - destruct (all_finite l) as [l''|]; [|discriminate].
    cbn [bind] in H. injection H as <-. simpl. f_equal. now apply IH.
  - discriminate.
Qed.

Lemma all_finite_error (l : list num) e :
  all_finite l = Raise e -> e = ValueError.
Proof.
  induction l as [|[q|] l IH]; simpl; intros H; try congruence.
  destruct (all_finite l); [discriminate|]. cbn [bind] in H.
  apply IH. congruence.
Qed.

Lemma check_consistent_length_error {A B : Type} (a : list A) (b : list B) e :
  check_consistent_length a b = Raise e -> e = ValueError.
Proof.
  unfold check_consistent_length. destruct (Nat.eqb _ _); congruence.
Qed.

Lemma brier_score_loss_unit (y : list Z) (p : list num) :
  match brier_score_loss y p with
  | Ok v => exists q, v = Exact q /\ 0 <= q /\ q <= 1
  | Raise e => e = ValueError
  end.
Proof.
  unfold brier_score_loss.
  destruct (all_finite p) as [ps|e] eqn:E; cbn [bind];
    [|now apply all_finite_error in E].
  destruct (check_consistent_length y ps) as [u|e] eqn:L; cbn [bind];
    [|now apply check_consistent_length_error in L].
  apply check_consistent_length_inv in L.
  destruct (Nat.ltb 2 _); [reflexivity|].
  destruct ps as [|q0 ps]; [reflexivity|].
  destruct (forallb _ (q0 :: ps)) eqn:R; [|reflexivity].
  apply in_range_forallb in R.
  eexists. split; [reflexivity|].
  apply Qdiv_unit.
  - simpl List.length. lia.
  - apply Qsum_unit_bounds.
    eapply Forall_zip_with_r; [exact R|].
    intros a b [H0 H1]. now apply sq_err_unit.
  - match goal with
    | |- Qsum (zip_with ?f _ _) <= _ =>
        rewrite <- (zip_with_length f y (q0 :: ps) L)
    end.
    apply Qsum_unit_bounds.
    eapply Forall_zip_with_r; [exact R|].
    intros a b [H0 H1]. now apply sq_err_unit.
Qed.

Lemma accuracy_score_unit (y : list Z) (pred : list bool) :
  match accuracy_score y pred with
  | Ok v => (v = NaN /\ y = []) \/ exists q, v = Exact q /\ 0 <= q /\ q <= 1
  | Raise e => e = ValueError
  end.
Proof.
  unfold accuracy_score.
  destruct (check_consistent_length y pred) as [u|e] eqn:L; cbn [bind];
    [|now apply check_consistent_length_error in L].
  apply check_consistent_length_inv in L.
  destruct y as [|l y]; [now left|]. right.
  eexists. split; [reflexivity|].
  apply ratio_bounds; [|simpl List.length; lia].
  split; [lia|]. apply Nat2Z.inj_le.
  etransitivity; [apply filter_length_le|].
  rewrite length_combine. lia.
Qed.

Lemma negatives_cons (s : Q) (y : bool) (l : list (Q * bool)) :
  negatives ((s, y) :: l) = ((if y then 0 else 1) + negatives l)%Z.
Proof. unfold negatives. simpl. destruct y; simpl List.length; lia. Qed.

Lemma positives_cons (s : Q) (y : bool) (l : list (Q * bool)) :
  positives ((s, y) :: l) = ((if y then 1 else 0) + positives l)%Z.
Proof. unfold positives. simpl. destruct y; simpl List.length; lia. Qed.

Lemma negatives_nonneg l : (0 <= negatives l)%Z.
Proof. unfold negatives. lia. Qed.

Lemma positives_nonneg l : (0 <= positives l)%Z.
Proof. unfold positives. lia. Qed.

Lemma clf_curve_cons (s : Q) (y : bool) (s' : Q) (y' : bool)
  (rest : list (Q * bool)) (fps tps : Z) :
  clf_curve ((s, y) :: (s', y') :: rest) fps tps =
  if Qeq_bool s s'
  then clf_curve ((s', y') :: rest)
         (if y then fps else (fps + 1)%Z) (if y then (tps + 1)%Z else tps)
  else (if y then fps else (fps + 1)%Z, if y then (tps + 1)%Z else tps)
       :: clf_curve ((s', y') :: rest)
            (if y then fps else (fps + 1)%Z) (if y then (tps + 1)%Z else tps).
Proof. reflexivity. Qed.

Lemma clf_curve_one (s : Q) (y : bool) (fps tps : Z) :
  clf_curve [(s, y)] fps tps =
  [(if y then fps else (fps + 1)%Z, if y then (tps + 1)%Z else tps)].
Proof. reflexivity. Qed.

(** The curve ends at the numbers of negative and of positive rows. *)
Lemma clf_curve_last (l : list (Q * bool)) :
  forall (c0 : Z * Z) (fps tps : Z) (d : Z * Z),
    l <> [] ->
    last (c0 :: clf_curve l fps tps) d
    = ((fps + negatives l)%Z, (tps + positives l)%Z).
Proof.
  induction l as [|[s y] rest IH]; intros c0 fps tps d N; [congruence|].
  destruct rest as [|[s' y'] rest'].
  - rewrite clf_curve_one, negatives_cons, positives_cons.
    cbn [last]. unfold negatives, positives. simpl.
    destruct y; f_equal; lia.
  - rewrite clf_curve_cons, negatives_cons, positives_cons.
    destruct (Qeq_bool s s').
    + rewrite IH by discriminate. destruct y; f_equal; lia.
    + change (last (c0 :: ?a :: ?X) d) with (last (a :: X) d).
      rewrite IH by discriminate. destruct y; f_equal; lia.
Qed.

Lemma trapezoid_bound (x0 x1 y0 y1 : Q) :
  x0 <= x1 -> 0 <= y0 -> y0 <= 1 -> 0 <= y1 -> y1 <= 1 ->
  0 <= (x1 - x0) * (y0 + y1) / 2 /\ (x1 - x0) * (y0 + y1) / 2 <= x1 - x0.
Proof.
  intros Hx A0 A1 B0 B1.
  assert (D : 0 <= x1 - x0) by (now apply Qle_minus_iff in Hx).
  assert (S0 : 0 <= y0 + y1).
  { setoid_replace 0 with (0 + 0) by ring. now apply Qplus_le_compat. }
  assert (S1 : y0 + y1 <= 2).
  { setoid_replace 2 with (1 + 1) by ring. now apply Qplus_le_compat. }
  split.
  - apply Qle_shift_div_l; [reflexivity|]. rewrite Qmult_0_l.
    now apply Qmult_le_0_compat.
  - apply Qle_shift_div_r; [reflexivity|].
    rewrite (Qmult_comm (x1 - x0) (y0 + y1)), (Qmult_comm (x1 - x0) 2).
    now apply Qmult_le_compat_r.
Qed.

Section RocArea.

(** The numbers of negative and of positive rows, both positive. *)
Variables n p : Z.
Hypothesis Hn : (0 < n)%Z.
Hypothesis Hp : (0 < p)%Z.

Let rate (c : Z * Z) : Q * Q :=
  let '(fps, tps) := c in
  (inject_Z fps / inject_Z n, inject_Z tps / inject_Z p).

Lemma rate_diff (a b : Z) :
  inject_Z a / inject_Z n - inject_Z b / inject_Z n
  == inject_Z (a - b) / inject_Z n.
Proof.
  unfold Z.sub. rewrite inject_Z_plus, inject_Z_opp. field.
  intros E. unfold Qeq in E. simpl in E. lia.
Qed.

Lemma rate_le (a b : Z) :
  (a <= b)%Z -> inject_Z a / inject_Z n <= inject_Z b / inject_Z n.
Proof.
  intros H. apply Qle_minus_iff.
  setoid_replace (inject_Z b / inject_Z n + - (inject_Z a / inject_Z n))
    with (inject_Z b / inject_Z n - inject_Z a / inject_Z n) by ring.
  rewrite rate_diff.
  apply Qle_shift_div_l.
  - change 0 with (inject_Z 0). now rewrite <- Zlt_Qlt.
  - rewrite Qmult_0_l. change 0 with (inject_Z 0). rewrite <- Zle_Qle. lia.
Qed.

Lemma first_trapezoid (f0 t0 f1 t1 : Z) :
  (f0 <= f1)%Z -> (0 <= t0 <= p)%Z -> (0 <= t1 <= p)%Z ->
  let A := (inject_Z f1 / inject_Z n - inject_Z f0 / inject_Z n)
           * (inject_Z t0 / inject_Z p + inject_Z t1 / inject_Z p) / 2 in
  0 <= A /\ A <= inject_Z (f1 - f0) / inject_Z n.
Proof.
  intros Hf H0 H1 A. subst A. rewrite <- rate_diff.
  destruct (ratio_bounds t0 p H0 Hp), (ratio_bounds t1 p H1 Hp).
  apply trapezoid_bound; auto. now apply rate_le.
Qed.

Lemma curve_area (l : list (Q * bool)) :
  forall f0 t0 fps tps : Z,
    l <> [] -> (f0 <= fps)%Z -> (0 <= t0 <= tps)%Z ->
    (tps + positives l <= p)%Z ->
    0 <= trapz (map rate ((f0, t0) :: clf_curve l fps tps)) /\
    trapz (map rate ((f0, t0) :: clf_curve l fps tps))
    <= inject_Z (fps + negatives l - f0) / inject_Z n.
Proof.
  induction l as [|[s y] rest IH]; intros f0 t0 fps tps N Hf Ht Hpos;
    [congruence|].
  rewrite positives_cons in Hpos.
  pose proof (positives_nonneg rest) as Prest.
  destruct rest as [|[s' y'] rest'].
  - rewrite clf_curve_one, negatives_cons.
    change (negatives []) with 0%Z.
    cbn [map trapz rate].
    match goal with
    | |- 0 <= ?A + 0 /\ ?A + 0 <= _ =>
        setoid_replace (A + 0) with A by ring
    end.
    replace (fps + ((if y then 0 else 1) + 0) - f0)%Z
      with ((if y then fps else (fps + 1)%Z) - f0)%Z by (destruct y; lia).
    apply first_trapezoid; destruct y; lia.
  - rewrite clf_curve_cons, negatives_cons.
    destruct (Qeq_bool s s').
    + replace (fps + ((if y then 0 else 1) + negatives ((s', y') :: rest'))
               - f0)%Z
        with ((if y then fps else fps + 1)
              + negatives ((s', y') :: rest') - f0)%Z by (destruct y; lia).
      apply IH; try discriminate; destruct y; lia.
    + set (f1 := if y then fps else (fps + 1)%Z).
      set (t1 := if y then (tps + 1)%Z else tps).
      set (rest := (s', y') :: rest') in *.
      assert (F1 : (f0 <= f1)%Z) by (subst f1; destruct y; lia).
      assert (T1 : (0 <= t1 <= p)%Z) by (subst t1; destruct y; lia).
      assert (T0 : (0 <= t0 <= p)%Z) by (destruct y; lia).
      assert (P1 : (t1 + positives rest <= p)%Z)
        by (subst t1; destruct y; lia).
      destruct (IH f1 t1 f1 t1) as [I0 I1];
        [discriminate|lia|lia|exact P1|].
      destruct (first_trapezoid f0 t0 f1 t1) as [A0 A1]; [lia|lia|lia|].
      change (trapz (map rate ((f0, t0) :: (f1, t1) :: clf_curve rest f1 t1)))
        with ((inject_Z f1 / inject_Z n - inject_Z f0 / inject_Z n)
              * (inject_Z t0 / inject_Z p + inject_Z t1 / inject_Z p) / 2
              + trapz (map rate ((f1, t1) :: clf_curve rest f1 t1))).
      split.
      * setoid_replace 0 with (0 + 0) by ring. now apply Qplus_le_compat.
      * replace (fps + ((if y then 0 else 1) + negatives rest) - f0)%Z
          with ((f1 - f0) + (f1 + negatives rest - f1))%Z
          by (subst f1; destruct y; lia).
        rewrite inject_Z_plus.
        setoid_replace
          ((inject_Z (f1 - f0) + inject_Z (f1 + negatives rest - f1))
           / inject_Z n)
          with (inject_Z (f1 - f0) / inject_Z n
                + inject_Z (f1 + negatives rest - f1) / inject_Z n).
        -- now apply Qplus_le_compat.
        -- field. intros E. unfold Qeq in E. simpl in E. lia.
Qed.

End RocArea.

Lemma In_combine_snd {A B : Type} (b : B) (s : list A) (ys : list B) :
  List.length s = List.length ys -> In b ys ->
  exists a, In (a, b) (combine s ys).
Proof.
  revert s. induction ys as [|y ys IH]; intros [|a s] L H; simpl in *;
    try discriminate; try contradiction.
  destruct H as [->|H].
  - exists a. auto.
  - destruct (IH s) as [a' Ha]; auto. exists a'. auto.
Qed.

Lemma count_positive {A : Type} (f : A -> bool) (x : A) (l : list A) :
  In x l -> f x = true -> (0 < List.length (filter f l))%nat.
Proof.
  intros Hx Hf.
  assert (I : In x (filter f l)) by (apply filter_In; auto).
  destruct (filter f l); [destruct I|simpl; lia].
Qed.

(** The area under a ROC curve lies between 0 and 1. *)
Lemma roc_auc_unit (ys : list bool) (s : list Q) :
  List.length s = List.length ys -> In true ys -> In false ys ->
  0 <= trapz (roc_curve ys s) /\ trapz (roc_curve ys s) <= 1.
Proof.
  intros L Ht Hf. unfold roc_curve.
  set (l := sort_desc (combine s ys)).
  destruct (In_combine_snd true s ys L Ht) as [a Ha].
  destruct (In_combine_snd false s ys L Hf) as [b Hb].
  assert (Hp : (0 < positives l)%Z).
  { unfold positives, l. rewrite sort_desc_count.
    apply (inj_lt 0). now apply count_positive with (x := (a, true)). }
  assert (Hn : (0 < negatives l)%Z).
  { unfold negatives, l. rewrite sort_desc_count.
    apply (inj_lt 0). now apply count_positive with (x := (b, false)). }
  assert (N : l <> []).
  { intros E. rewrite E in Hp. unfold positives in Hp. simpl in Hp. lia. }
  rewrite (clf_curve_last l (0%Z, 0%Z) 0 0 (0%Z, 0%Z) N).
  cbn [Z.add].
  destruct (curve_area (negatives l) (positives l) Hn Hp l 0 0 0 0 N)
    as [A0 A1]; try lia.
  split; [exact A0|].
  eapply Qle_trans; [exact A1|].
  replace (0 + negatives l - 0)%Z with (negatives l) by lia.
  apply Qle_shift_div_r.
  - change 0 with (inject_Z 0). now rewrite <- Zlt_Qlt.
  - rewrite Qmult_1_l. apply Qle_refl.
Qed.

Lemma two_labels_classes (y : list Z) (a b : Z) :
  unique_labels y = [a; b] ->
  In true (map (Z.eqb (Z.max a b)) y) /\ In false (map (Z.eqb (Z.max a b)) y).
Proof.
  intros U.
  assert (Ia : In a y) by (apply (nodup_In Z.eq_dec); fold (unique_labels y);
                           rewrite U; simpl; auto).
  assert (Ib : In b y) by (apply (nodup_In Z.eq_dec); fold (unique_labels y);
                           rewrite U; simpl; auto).
  assert (ND : NoDup [a; b]) by (rewrite <- U; apply NoDup_nodup).
  assert (Nab : a <> b).
  { inversion ND as [|? ? H _]; subst. simpl in H. intuition. }
  destruct (Z.max_spec a b) as [[_ E]|[_ E]]; rewrite E; split;
    apply in_map_iff.
  - exists b. split; auto. apply Z.eqb_refl.
  - exists a. split; auto. apply Z.eqb_neq. congruence.
  - exists a. split; auto. apply Z.eqb_refl.
  - exists b. split; auto. now apply Z.eqb_neq.
Qed.

Lemma roc_auc_score_unit (y : list Z) (p : list num) :
  match roc_auc_score y p with
  | Ok v => exists q, v = Exact q /\ 0 <= q /\ q <= 1
  | Raise e => e = ValueError
  end.
Proof.
  unfold roc_auc_score.
  destruct (all_finite p) as [s|e] eqn:E; cbn [bind];
    [|now apply all_finite_error in E].
  destruct (check_consistent_length y s) as [u|e] eqn:L; cbn [bind];
    [|now apply check_consistent_length_error in L].
  apply check_consistent_length_inv in L.
  destruct (unique_labels y) as [|a [|b [|c l]]] eqn:U; try reflexivity.
  destruct (two_labels_classes y a b U) as [Ht Hf].
  eexists. split; [reflexivity|].
  apply roc_auc_unit; auto. now rewrite length_map.
Qed.

(** X10 (the reported metrics are fractions).  Whatever the labels and the
    scores, [brier_score_loss], [roc_auc_score] and [accuracy_score]
    either raise ValueError or return a number between 0 and 1; the one
    exception is the accuracy of an empty sample, which is NaN. *)
Theorem metrics_lie_in_unit_interval (y : list Z) (p : list num)
  (pred : list bool) :
  match brier_score_loss y p with
  | Ok v => exists q, v = Exact q /\ 0 <= q /\ q <= 1
  | Raise e => e = ValueError
  end /\
  match roc_auc_score y p with
  | Ok v => exists q, v = Exact q /\ 0 <= q /\ q <= 1
  | Raise e => e = ValueError
  end /\
  match accuracy_score y pred with
  | Ok v => (v = NaN /\ y = []) \/ exists q, v = Exact q /\ 0 <= q /\ q <= 1
  | Raise e => e = ValueError
  end.
Proof.
  split; [apply brier_score_loss_unit|].
  split; [apply roc_auc_score_unit|apply accuracy_score_unit].
Qed.

(** ** Baselines: accuracy, outcomes, and a single map *)

Lemma agrees_constant (b : bool) (test : list Round) :
  List.length
    (filter (fun yp => agrees (fst yp) (snd yp))
       (combine (map CTWin test)
          (map (fun row : Q * Q => Qle_bool (1 # 2) (snd row))
             (repeat (if b then (0, 1) else (1, 0)) (List.length test)))))
  = List.length
      (filter (fun r => Z.eqb (CTWin r) (if b then 1 else 0)%Z) test).
Proof.
  induction test as [|r test IH]; simpl; [reflexivity|].
  unfold agrees at 1. cbn [fst snd].
  replace (Qle_bool (1 # 2) (snd (if b then (0, 1) else (1, 0)))) with b
    by now destruct b.
  destruct (Z.eqb (CTWin r) (if b then 1 else 0)); simpl; now rewrite IH.
Qed.

Lemma accuracy_of_constant (mu : Q) (test : list Round) :
  inject_Z (Z.of_nat (List.length
     (filter (fun yp => agrees (fst yp) (snd yp))
        (combine (map CTWin test)
           (map (fun row : Q * Q => Qle_bool (1 # 2) (snd row))
              (repeat (1 - mu, mu) (List.length test)))))))
  / inject_Z (Z.of_nat (List.length (map CTWin test)))
  = share (if Qle_bool (1 # 2) mu then 1 else 0)%Z test.
Proof.
  unfold share. rewrite length_map. f_equal. f_equal. f_equal.
  rewrite <- (agrees_constant (Qle_bool (1 # 2) mu) test).
  f_equal. f_equal. f_equal.
  rewrite !map_repeat. f_equal. cbn [snd]. now destruct (Qle_bool (1 # 2) mu).
Qed.

(** X11 (accuracy of the frequency baseline).  With a non-empty training
    set and 0/1 labels that show both classes in the test set, the
    baseline cell prints its four metrics, and the accuracy it prints is
    a class share of the test set: the share of CT wins when CT won at
    least half of the training rounds, the share of CT losses
    otherwise. *)
Theorem baseline_accuracy_is_a_class_share (train test : list Round) :
  train <> [] -> binary_labels train -> binary_labels test ->
  (exists r, In r test /\ CTWin r = 1%Z) ->
  (exists r, In r test /\ CTWin r = 0%Z) ->
  exists mu ll bs auc acc,
    mean (map CTWin train) = Some mu /\
    run (baseline train test) =
      ([ Text "---------- LOG LOSS"; Value ll;
         Text "---------- BRIER SCORE"; Value bs;
         Text "---------- AUC"; Value auc;
         Text "---------- ACCURACY"; Value (Exact acc) ],
       Ok tt) /\
    (1 # 2 <= mu -> acc = share 1 test) /\
    (mu < 1 # 2 -> acc = share 0 test).
Proof.
  intros Hne Hbtrain Hbtest (r1 & Hr1 & E1) (r0 & Hr0 & E0).
  destruct (mean_binary (map CTWin train)) as (mu & Hmu & Hmu0 & Hmu1).
  { destruct train; [contradiction|discriminate]. }
  { now apply binary_labels_CTWin. }
  set (y := map CTWin test).
  set (M := repeat (1 - mu, mu) (List.length test)).
  assert (Hy : Forall (fun z => z = 0 \/ z = 1)%Z y)
    by now apply binary_labels_CTWin.
  assert (Hy0 : In 0%Z y) by (rewrite <- E0; now apply in_map).
  assert (Hy1 : In 1%Z y) by (rewrite <- E1; now apply in_map).
  assert (Hlen : List.length M = List.length y)
    by (unfold M, y; now rewrite repeat_length, length_map).
  assert (Hrange : Forall (fun row => 0 <= snd row /\ snd row <= 1) M).
  { apply Forall_forall. intros row Hrow. apply repeat_spec in Hrow.
    subst row. simpl. now split. }
  assert (Hprobs : baseline_probs train test = finite M).
  { unfold baseline_probs, BaselinePred. rewrite Hmu, map_constant.
    apply stack_probs_repeat. }
  exists mu. do 3 eexists.
  exists (share (if Qle_bool (1 # 2) mu then 1 else 0)%Z test).
  split; [exact Hmu|]. split.
  - unfold baseline. fold y. rewrite Hprobs.
    rewrite (print_results_ok y M Hy Hy0 Hy1 Hlen Hrange).
    unfold y, M. rewrite accuracy_of_constant. reflexivity.
  - split; intros H.
    + apply Qle_bool_iff in H. now rewrite H.
    + destruct (Qle_bool (1 # 2) mu) eqn:E; [|reflexivity].
      apply Qle_bool_iff in E. exfalso. now apply (Qlt_not_le _ _ H).
Qed.

Lemma baseline_accuracy_is_a_class_share_witness :
  let train := [dust2_win; nuke_loss; nuke_win] in
  let test := [vertigo_loss; dust2_win; nuke_loss] in
  exists mu ll bs auc acc,
    mean (map CTWin train) = Some mu /\
    run (baseline train test) =
      ([ Text "---------- LOG LOSS"; Value ll;
         Text "---------- BRIER SCORE"; Value bs;
         Text "---------- AUC"; Value auc;
         Text "---------- ACCURACY"; Value (Exact acc) ],
       Ok tt) /\
    (1 # 2 <= mu -> acc = share 1 test) /\
    (mu < 1 # 2 -> acc = share 0 test).
Proof.
  apply (baseline_accuracy_is_a_class_share
           [dust2_win; nuke_loss; nuke_win]
           [vertigo_loss; dust2_win; nuke_loss]).
  - discriminate.
  - repeat (apply Forall_cons; [simpl; auto|]); apply Forall_nil.
  - repeat (apply Forall_cons; [simpl; auto|]); apply Forall_nil.
  - exists dust2_win. simpl. auto.
  - exists vertigo_loss. simpl. auto.
Defined.

Lemma maps_seen_dec (train test : list Round) :
  maps_seen train test \/
  exists r, In r test /\ ~ In (MapName r) (map MapName train).
Proof.
  induction test as [|r test IH].
  - left. intros r [].
  - destruct (in_dec string_dec (MapName r) (map MapName train)) as [I|N].
    + destruct IH as [S|(r' & Hr' & N)].
      * left. intros x [<-|Hx]; auto.
      * right. exists r'. simpl. auto.
    + right. exists r. simpl. auto.
Qed.

Lemma baseline_map_predict_unseen (train test : list Round) :
  (exists r, In r test /\ ~ In (MapName r) (map MapName train)) ->
  baseline_map_predict train test = Raise IndexError.
Proof.
  intros (r & Hr & N). unfold baseline_map_predict. rewrite test_maps.
  rewrite baseline_map_loop_unseen; [reflexivity|].
  exists (MapName r). split; auto. apply In_unique. now apply in_map.
Qed.

(** X12 (every outcome of the per-map baseline).  [baseline_map] reaches
    its predictions exactly when the test set is not empty and each of
    its maps occurs in the training set.  On an empty test set it raises
    ValueError from [pd.concat]; when a test map is missing from the
    training set it raises IndexError; in both cases nothing is
    printed. *)
Theorem baseline_map_outcomes (train test : list Round) :
  ((exists rows, baseline_map_predict train test = Ok rows) <->
   test <> [] /\ maps_seen train test) /\
  (baseline_map_predict train test = Raise ValueError <-> test = []) /\
  (baseline_map_predict train test = Raise IndexError <->
   exists r, In r test /\ ~ In (MapName r) (map MapName train)) /\
  (forall e, baseline_map_predict train test = Raise e ->
     run (baseline_map train test) = ([], Raise e)).
Proof.
  assert (E : test = [] -> baseline_map_predict train test = Raise ValueError)
    by (intros ->; reflexivity).
  assert (S : test <> [] -> maps_seen train test ->
              exists rows, baseline_map_predict train test = Ok rows).
  { intros N Hs. destruct (baseline_map_predict_seen train test Hs N)
      as (rows & H & _). eauto. }
  pose proof (baseline_map_predict_unseen train test) as U.
  assert (C : forall r, In r test -> ~ In (MapName r) (map MapName train) ->
              ~ maps_seen train test) by (intros r Hr N Hs; auto).
  destruct test as [|r0 test'] eqn:Et.
  - rewrite E by reflexivity.
    repeat match goal with |- _ /\ _ => split end.
    + split; [intros [rows H]; discriminate|intros [H _]; congruence].
    + tauto.
    + split; [discriminate|intros (r & [] & _)].
    + intros e H. unfold run, baseline_map, io_bind, lift.
      rewrite E by reflexivity. now injection H as <-.
  - rewrite <- Et in *. assert (N : test <> []) by (rewrite Et; discriminate).
    clear Et. destruct (maps_seen_dec train test) as [Hs|Hu].
    + destruct (S N Hs) as [rows H]. rewrite H.
      repeat match goal with |- _ /\ _ => split end.
      * split; eauto.
      * split; [discriminate|intros ->; congruence].
      * split; [discriminate|]. intros (r & Hr & Hn).
        exfalso. apply (C r Hr Hn Hs).
      * discriminate.
    + rewrite (U Hu).
      repeat match goal with |- _ /\ _ => split end.
      * split; [intros [rows H]; discriminate|].
        intros [_ Hs]. destruct Hu as (r & Hr & Hn). exfalso.
        apply (C r Hr Hn Hs).
      * split; [discriminate|intros ->; congruence].
      * tauto.
      * intros e H. unfold run, baseline_map, io_bind, lift.
        rewrite (U Hu). now injection H as <-.
Qed.

Lemma unique_constant (m : string) (l : list string) :
  l <> [] -> (forall x, In x l -> x = m) -> unique l = [m].
Proof.
  intros N H. destruct l as [|x l]; [congruence|].
  rewrite (H x (or_introl eq_refl)) in *. unfold unique. simpl.
  assert (forall x, In x l -> x = m) as H' by (intros; apply H; simpl; auto).
  clear H N. induction l as [|y l IH]; simpl; [reflexivity|].
  rewrite (H' y (or_introl eq_refl)).
  destruct (string_dec m m) as [_|Nin]; [|congruence].
  apply IH. intros; apply H'; simpl; auto.
Qed.

Lemma combine_map_r {A B : Type} (f : A -> B) (l : list A) :
  combine l (map f l) = map (fun x => (x, f x)) l.
Proof. induction l as [|x l IH]; simpl; [reflexivity|]. now rewrite IH. Qed.

(** X13 (one map: the two baselines agree).  When every training and
    every test round is played on the same map, the per-map baseline
    gives each test round, in order, the prediction of the frequency
    baseline, and the two cells print the same. *)
Theorem baseline_map_on_one_map (train test : list Round) (m : string) :
  train <> [] -> test <> [] ->
  (forall r, In r train -> MapName r = m) ->
  (forall r, In r test -> MapName r = m) ->
  baseline_map_predict train test
  = Ok (combine test (BaselinePred train test)) /\
  run (baseline_map train test) = run (baseline train test).
Proof.
  intros Ntrain Ntest Htrain Htest.
  assert (Hm : In m (map MapName train)).
  { destruct train as [|r train]; [congruence|].
    simpl. left. apply Htrain. simpl. auto. }
  assert (Hmean : map_mean train m = mean (map CTWin train)).
  { unfold map_mean. rewrite filter_all; [reflexivity|].
    intros r Hr. rewrite (Htrain r Hr). apply String.eqb_refl. }
  assert (P : baseline_map_predict train test
              = Ok (combine test (BaselinePred train test))).
  { unfold baseline_map_predict. rewrite test_maps.
    rewrite (unique_constant m).
    2:{ destruct test; [congruence|discriminate]. }
    2:{ intros x Hx. apply in_map_iff in Hx. destruct Hx as (r & <- & Hr).
        auto. }
    rewrite baseline_map_loop_seen by (intros x [<-|[]]; exact Hm).
    cbn [map app bind pd_concat List.concat]. rewrite app_nil_r.
    rewrite filter_all.
    2:{ intros rp Hrp. apply in_map_iff in Hrp.
        destruct Hrp as (r & <- & Hr). cbn [fst].
        rewrite (Htest r Hr). apply String.eqb_refl. }
    rewrite map_map. cbn [fst]. rewrite Hmean.
    unfold BaselinePred. now rewrite combine_map_r. }
  split; [exact P|].
  unfold run, baseline_map, baseline, io_bind, lift. rewrite P.
  unfold baseline_probs, BaselinePred.
  rewrite combine_map_r, !map_map. cbn [fst snd].
  reflexivity.
Qed.

Lemma baseline_map_on_one_map_witness :
  let train := [nuke_win; nuke_loss; nuke_win] in
  let test := [nuke_loss; nuke_win] in
  baseline_map_predict train test
  = Ok (combine test (BaselinePred train test)) /\
  run (baseline_map train test) = run (baseline train test).
Proof.
  apply (baseline_map_on_one_map [nuke_win; nuke_loss; nuke_win]
           [nuke_loss; nuke_win] "de_nuke").
  - discriminate.
  - discriminate.
  - intros r H. simpl in H.
    repeat (destruct H as [<-|H]; [reflexivity|]). destruct H.
  - intros r H. simpl in H.
    repeat (destruct H as [<-|H]; [reflexivity|]). destruct H.
Defined.

(** ** Standardisation: the statistics of the scaled training columns *)

Lemma Qsum_ext {A : Type} (g h : A -> Q) (l : list A) :
  (forall x, In x l -> g x == h x) -> Qsum (map g l) == Qsum (map h l).
Proof.
  induction l as [|x l IH]; intros H; simpl; [reflexivity|].
  rewrite (H x) by (simpl; auto). rewrite IH; [reflexivity|].
  intros; apply H; simpl; auto.
Qed.

Lemma Qsum_scaled {A : Type} (k : A -> Q) (c : Q) (l : list A) :
  ~ c == 0 -> Qsum (map (fun x => k x / c) l) == Qsum (map k l) / c.
Proof.
  intros Hc. induction l as [|x l IH]; simpl.
  - field. exact Hc.
  - rewrite IH. field. exact Hc.
Qed.

Lemma Qsum_shifted (mu : Q) (l : list Q) :
  Qsum (map (fun x => x - mu) l)
  == Qsum l - inject_Z (Z.of_nat (List.length l)) * mu.
Proof.
  induction l as [|x l IH].
  - simpl. ring.
  - cbn [map Qsum fold_right List.length].
    change (fold_right Qplus 0 (map (fun x => x - mu) l))
      with (Qsum (map (fun x => x - mu) l)).
    change (fold_right Qplus 0 l) with (Qsum l).
    rewrite IH, Nat2Z.inj_succ, <- Z.add_1_l, inject_Z_plus. ring.
Qed.

Lemma length_nonzero {A : Type} (l : list A) :
  l <> [] -> ~ inject_Z (Z.of_nat (List.length l)) == 0.
Proof.
  intros N E. destruct l; [congruence|].
  unfold Qeq in E. simpl in E. lia.
Qed.

Lemma scale_of_nonzero (sqrt : Q -> Q) (l : list Q) :
  ~ scale_of sqrt l == 0.
Proof.
  unfold scale_of, handle_zeros_in_scale.
  destruct (Qeq_bool (sqrt (variance l)) 0) eqn:E.
  - intros H. discriminate.
  - now apply Qeq_bool_neq.
Qed.

Section Standardized.

Variables (l : list Q) (sigma : Q).
Hypothesis Hl : l <> [].
Hypothesis Hsigma : ~ sigma == 0.

Let scaled : list Q := map (fun x => (x - Qmean l) / sigma) l.

(** A standardised column has mean 0 ... *)
Lemma Qmean_scaled : Qmean scaled == 0.
Proof.
  pose proof (length_nonzero l Hl) as Hn.
  unfold Qmean, scaled. rewrite length_map.
  rewrite (Qsum_scaled (fun x => x - Qmean l) sigma l Hsigma).
  rewrite Qsum_shifted. unfold Qmean. field. split; assumption.
Qed.

(** ... and the variance of the column over the square of the scale. *)
Lemma variance_scaled : variance scaled == variance l / (sigma * sigma).
Proof.
  pose proof (length_nonzero l Hl) as Hn.
  pose proof Qmean_scaled as M0.
  unfold variance at 1. set (m := Qmean scaled) in *.
  unfold Qmean at 1. unfold scaled. rewrite map_map, !length_map.
  rewrite (Qsum_ext _ (fun x => (x - Qmean l) ^ 2 / (sigma * sigma))).
  - rewrite (Qsum_scaled (fun x => (x - Qmean l) ^ 2)).
    + unfold variance. set (mu := Qmean l). unfold Qmean.
      rewrite length_map. field. split; assumption.
    + intros E. apply Hsigma. apply Qmult_integral in E. tauto.
  - intros x _. rewrite M0. field. exact Hsigma.
Qed.

End Standardized.

Lemma Forall2_map_eq {A B C : Type} (R : A -> B -> Prop) (g : B -> C)
  (h : A -> C) (l : list A) (l' : list B) :
  Forall2 R l l' -> (forall a b, R a b -> g b = h a) -> map g l' = map h l.
Proof.
  intros F H. induction F as [|a b l l' Hab _ IH]; simpl; [reflexivity|].
  now rewrite (H a b Hab), IH.
Qed.

(** A standardised column, as a function of the column it comes from. *)
Lemma feature_standardized (sqrt : Q -> Q) (X_train X : Design) (c : string) :
  wf X -> incl cols_scaled (columns X) -> In c cols_scaled ->
  feature (standardized sqrt X_train X) c
  = map (fun x => (x - Qmean (feature X_train c))
                  / scale_of sqrt (feature X_train c))
        (feature X c).
Proof.
  intros W I Hc. unfold feature at 1.
  change (feature X c) with (map (fun r => at_ (columns X) r c) (rows X)).
  rewrite map_map.
  change (columns (standardized sqrt X_train X)) with (columns X).
  apply (Forall2_map_eq _ _ _ _ _ (standardized_rows sqrt X_train X W I)).
  intros r r' H. now apply H; [apply I|].
Qed.



(** X15 (when the standardisation fails).  The standardisation raises
    KeyError when the training matrix lacks one of the columns to scale.
    With these columns in both matrices it succeeds exactly when both
    have at least one row, and raises ValueError on a training or a test
    matrix with no row. *)
Theorem standardize_outcomes (sqrt : Q -> Q) (X_train X_test : Design) :
  (~ incl cols_scaled (columns X_train) ->
   standardize sqrt X_train X_test = Raise KeyError) /\
  (incl cols_scaled (columns X_train) -> incl cols_scaled (columns X_test) ->
   ((exists scaled, standardize sqrt X_train X_test = Ok scaled) <->
    rows X_train <> [] /\ rows X_test <> []) /\
   (rows X_train = [] \/ rows X_test = [] ->
    standardize sqrt X_train X_test = Raise ValueError)).
Proof.
  split.
  - intros N. unfold standardize, select_values.
    destruct (forallb (has_column X_train) cols_scaled) eqn:E; [|reflexivity].
    exfalso. apply N. intros c Hc. rewrite forallb_forall in E.
    apply has_column_In. auto.
  - intros Itr Ite.
    assert (V : rows X_train = [] \/ rows X_test = [] ->
                standardize sqrt X_train X_test = Raise ValueError).
    { intros H. unfold standardize, select_values.
      rewrite !forallb_has_column by assumption. cbn [bind].
      destruct (rows X_train) as [|r rs] eqn:Etr; [reflexivity|].
      rewrite <- Etr.
      rewrite (fit_select sqrt X_train cols_scaled) by congruence.
      cbn [bind].
      rewrite (transform_select sqrt X_train X_train cols_scaled)
        by congruence.
      cbn [bind].
      destruct H as [H|H]; [congruence|]. now rewrite H. }
    split; [|exact V]. split.
    + intros [scaled H].
      destruct (rows X_train) eqn:Etr;
        [rewrite V in H by auto; discriminate|].
      destruct (rows X_test) eqn:Ete;
        [rewrite V in H by auto; discriminate|].
      split; discriminate.
    + intros [Ntr Nte]. eexists. now apply standardize_eq.
Qed.

Lemma standardize_outcomes_witness :
  (exists scaled,
     standardize sqrt_down never_planted_train planted_test = Ok scaled) /\
  standardize sqrt_down never_planted_train (mkDF COLS_ALL [])
  = Raise ValueError.
Proof.
  split.
  - apply (proj2 (standardize_outcomes sqrt_down never_planted_train
                    planted_test)).
    + apply cols_scaled_incl.
    + apply cols_scaled_incl.
    + split; discriminate.
  - apply (proj2 (standardize_outcomes sqrt_down never_planted_train
                    (mkDF COLS_ALL []))).
    + apply cols_scaled_incl.
    + apply cols_scaled_incl.
    + now right.
Defined.

(** ** Grid search: ties, small training sets, and the sizes of the folds *)

Lemma best_of_first_from (score : params -> Q) (cs : list params) :
  forall (best : params) (pre mid : list params),
    (forall c, In c pre -> score c < score best) ->
    (forall c, In c mid -> score c <= score best) ->
    exists l1 l2,
      pre ++ best :: mid ++ cs = l1 ++ best_of score best cs :: l2 /\
      (forall c, In c l1 -> score c < score (best_of score best cs)) /\
      (forall c, In c l2 -> score c <= score (best_of score best cs)).
Proof.
  induction cs as [|c cs IH]; intros best pre mid Hpre Hmid.
  - exists pre, mid. rewrite app_nil_r. auto.
  - cbn [best_of]. destruct (Qlt_le_dec (score best) (score c)) as [Lt|Le].
    + destruct (IH c (pre ++ best :: mid) []) as (l1 & l2 & E & H1 & H2).
      * intros x Hx. apply in_app_or in Hx. destruct Hx as [Hx|[<-|Hx]].
        -- eapply Qlt_trans; [apply Hpre; exact Hx|exact Lt].
        -- exact Lt.
        -- eapply Qle_lt_trans; [apply Hmid; exact Hx|exact Lt].
      * intros x [].
      * exists l1, l2. split; [|auto].
        rewrite <- E. cbn [app]. now rewrite <- app_assoc.
    + destruct (IH best pre (mid ++ [c])) as (l1 & l2 & E & H1 & H2); auto.
      * intros x Hx. apply in_app_or in Hx. destruct Hx as [Hx|[<-|[]]]; auto.
      * exists l1, l2. split; [|auto].
        rewrite <- E. now rewrite <- app_assoc.
Qed.

(** The best candidate is the first of those with the greatest score. *)
Lemma best_of_first (score : params -> Q) (best : params) (cs : list params) :
  exists l1 l2,
    best :: cs = l1 ++ best_of score best cs :: l2 /\
    (forall c, In c l1 -> score c < score (best_of score best cs)) /\
    (forall c, In c l2 -> score c <= score (best_of score best cs)).
Proof.
  apply (best_of_first_from score cs best [] []); intros c [].
Qed.





Lemma chunks_lengths (sizes : list nat) (l : list nat) :
  (list_sum sizes <= List.length l)%nat ->
  map (@List.length nat) (chunks sizes l) = sizes.
Proof.
  revert l. induction sizes as [|s sizes IH]; intros l H; simpl in *;
    [reflexivity|].
  rewrite length_firstn, IH by (rewrite length_skipn; lia).
  f_equal. lia.
Qed.

Lemma NoDup_in_concat {A : Type} (c : list A) (cs : list (list A)) :
  NoDup (List.concat cs) -> In c cs -> NoDup c.
Proof.
  induction cs as [|c' cs IH]; intros ND H; [destruct H|].
  simpl in ND. destruct H as [<-|H].
  - now apply NoDup_app_remove_r in ND.
  - apply IH; auto. now apply NoDup_app_remove_l in ND.
Qed.

Lemma map_fst_combine_seq {A : Type} (X : list A) (s : nat) :
  map fst (combine (seq s (List.length X)) X) = seq s (List.length X).
Proof.
  revert s. induction X as [|x X IH]; intros s; simpl; [reflexivity|].
  now rewrite IH.
Qed.

Lemma take_rows_length {A : Type} (X : list A) (idx : list nat) :
  NoDup idx -> (forall i, In i idx -> (i < List.length X)%nat) ->
  List.length (take_rows (fun i => mem i idx) X) = List.length idx.
Proof.
  intros ND B. unfold take_rows. rewrite length_map.
  rewrite <- (filter_map_length fst (fun i => mem i idx)).
  rewrite map_fst_combine_seq. apply Permutation_length, NoDup_Permutation.
  - apply NoDup_filter, seq_NoDup.
  - exact ND.
  - intros i. rewrite filter_In, in_seq, mem_In. split.
    + tauto.
    + intros Hi. specialize (B i Hi). split; [lia|exact Hi].
Qed.

Lemma take_rows_complement_length {A : Type} (p : nat -> bool) (X : list A) :
  (List.length (take_rows (fun i => negb (p i)) X)
   + List.length (take_rows p X))%nat = List.length X.
Proof.
  rewrite <- length_app. apply Permutation_length, take_rows_split.
Qed.

Lemma fold_sizes_balanced (n k : nat) :
  Forall (fun s => s = (n / k)%nat \/ s = (n / k + 1)%nat) (fold_sizes n k).
Proof.
  unfold fold_sizes. apply Forall_map, Forall_forall. intros i _.
  destruct (Nat.ltb i (n mod k)); [right|left]; lia.
Qed.

(** X18 (the folds are balanced).  When the shuffle is a permutation of
    the positions, the validation parts of a k-fold split of n >= k rows
    have the sizes the splitter computes, n div k plus one for the first
    n mod k folds: no two folds differ by more than one row, and each
    training part holds the rows outside its validation part. *)
Theorem KFold_balanced (shuffled : Z -> nat -> list nat)
  (k : nat) (seed : Z) (X : list Sample) :
  (0 < k)%nat -> (k <= List.length X)%nat ->
  Permutation (shuffled seed (List.length X)) (seq 0 (List.length X)) ->
  exists folds,
    KFold shuffled k seed X = Ok folds /\
    map (fun fold => List.length (snd fold)) folds
    = fold_sizes (List.length X) k /\
    Forall (fun fold =>
              (List.length (snd fold) = List.length X / k \/
               List.length (snd fold) = List.length X / k + 1) /\
              List.length (fst fold) + List.length (snd fold)
              = List.length X)%nat
           folds.
Proof.
  intros Hk Hn Hs. unfold KFold.
  replace (Nat.ltb (List.length X) k) with false
    by (symmetry; apply Nat.ltb_ge; exact Hn).
  set (n := List.length X) in *.
  set (cs := chunks (fold_sizes n k) (shuffled seed n)).
  assert (Ls : List.length (shuffled seed n) = n).
  { apply Permutation_length in Hs. now rewrite Hs, length_seq. }
  assert (Hcat : List.concat cs = shuffled seed n).
  { apply concat_chunks. rewrite fold_sizes_sum by exact Hk. now rewrite Ls. }
  assert (Hidx : forall idx, In idx cs ->
            List.length (take_rows (fun i => mem i idx) X) = List.length idx).
  { intros idx Hidx. apply take_rows_length.
    - apply (NoDup_in_concat idx cs); auto. rewrite Hcat.
      apply (Permutation_NoDup (Permutation_sym Hs)), seq_NoDup.
    - intros i Hi. fold n.
      assert (In i (seq 0 n)) as Hi'.
      { apply (Permutation_in _ Hs). rewrite <- Hcat.
        apply in_concat. eauto. }
      apply in_seq in Hi'. lia. }
  assert (Hsizes : map (@List.length nat) cs = fold_sizes n k).
  { apply chunks_lengths. rewrite fold_sizes_sum by exact Hk. lia. }
  eexists. split; [reflexivity|]. split.
  - rewrite map_map. cbn [snd]. rewrite <- Hsizes.
    apply map_ext_in. exact Hidx.
  - apply Forall_map, Forall_forall. intros idx Hin. cbn [fst snd]. split.
    + rewrite (Hidx idx Hin).
      pose proof (fold_sizes_balanced n k) as B. rewrite <- Hsizes in B.
      rewrite Forall_map, Forall_forall in B. now apply B.
    + apply take_rows_complement_length.
Qed.

Lemma KFold_balanced_witness :
  exists folds,
    KFold reversed 5 RANDOM_STATE six_samples = Ok folds /\
    map (fun fold => List.length (snd fold)) folds
    = fold_sizes (List.length six_samples) 5 /\
    Forall (fun fold =>
              (List.length (snd fold) = List.length six_samples / 5 \/
               List.length (snd fold) = List.length six_samples / 5 + 1) /\
              List.length (fst fold) + List.length (snd fold)
              = List.length six_samples)%nat
           folds.
Proof.
  apply (KFold_balanced reversed 5 RANDOM_STATE six_samples).
  - simpl. lia.
  - simpl. lia.
  - unfold reversed. apply Permutation_sym, Permutation_rev.
Defined.

(** ** From the csv frame to the design matrices *)

Lemma isna_indicator (v : cell) (m : string) : isna (indicator v m) = false.
Proof. destruct v; simpl; try reflexivity. now destruct (String.eqb s m). Qed.

Lemma filter_map_commute {A B : Type} (h : A -> B) (g : B -> bool)
  (l : list A) :
  filter g (map h l) = map h (filter (fun x => g (h x)) l).
Proof.
  induction l as [|x l IH]; simpl; [reflexivity|].
  destruct (g (h x)); simpl; now rewrite IH.
Qed.

Section RevisedRow.

Variable df : DataFrame.
Hypothesis W : wf df.
Hypothesis HM : In "MapName" (columns df).
Hypothesis HB : In "BombSite" (columns df).
Hypothesis FM : fresh "MapName" df.
Hypothesis FB : fresh "BombSite" df.

Let df1 := one_hot_frame df "MapName".
Let df2 := one_hot_frame df1 "BombSite".
Let lvM := levels (series df "MapName").
Let lvB := levels (series df1 "BombSite").
Let encode (r : list cell) : list cell :=
  one_hot_row "BombSite" (columns df1) lvB
    (one_hot_row "MapName" (columns df) lvM r).

Lemma revised_rows : rows df2 = map encode (rows df).
Proof. unfold df2, df1, one_hot_frame. cbn [rows]. now rewrite map_map. Qed.

Lemma series_BombSite : series df1 "BombSite" = series df "BombSite".
Proof.
  apply (keeps_series ["MapName"]); auto.
  - now apply one_hot_frame_keeps.
  - simpl. intros [E|[]]. discriminate.
Qed.

Lemma fresh_BombSite_encoded : fresh "BombSite" df1.
Proof.
  intros k Hk. apply In_columns_one_hot_frame in Hk; [|apply W|exact HM].
  destruct Hk as [Hk|[m [-> _]]]; [now apply FB|reflexivity].
Qed.

Variable r : list cell.
Hypothesis Hr : In r (rows df).

Lemma revised_row :
  (forall k, In k (columns df) ->
     loc (columns df2) (encode r) k = loc (columns df) r k) /\
  (forall m, In (Str m) (series df "MapName") ->
     loc (columns df2) (encode r) (dummy_name "MapName" m)
     = indicator (loc (columns df) r "MapName") m) /\
  (forall m, In (Str m) (series df "BombSite") ->
     loc (columns df2) (encode r) (dummy_name "BombSite" m)
     = indicator (loc (columns df) r "BombSite") m).
Proof.
  destruct W as [ND RL]. rewrite Forall_forall in RL.
  pose proof (RL r Hr) as L.
  assert (W1 : wf df1) by (now apply one_hot_frame_wf).
  destruct W1 as [ND1 _].
  set (r1 := one_hot_row "MapName" (columns df) lvM r).
  assert (L1 : List.length r1 = List.length (columns df1))
    by (apply one_hot_row_length; exact L).
  assert (O1 : forall k, In k (columns df) ->
            loc (columns df1) r1 k = loc (columns df) r k).
  { intros k Hk. destruct (string_dec k "MapName") as [->|N].
    - now apply one_hot_row_restored.
    - now apply one_hot_row_other. }
  assert (O2 : forall k, In k (columns df1) -> k <> "BombSite" ->
            loc (columns df2) (encode r) k = loc (columns df1) r1 k).
  { intros k Hk N. now apply one_hot_row_other. }
  assert (C1 : forall k, In k (columns df) -> In k (columns df1)).
  { intros k Hk. apply In_columns_one_hot_frame; auto. }
  split; [|split].
  - intros k Hk. destruct (string_dec k "BombSite") as [->|N].
    + rewrite <- (O1 "BombSite" HB). now apply one_hot_row_restored.
    + rewrite O2; auto.
  - intros m Hm.
    rewrite O2.
    + apply one_hot_row_indicator; auto. now apply In_levels.
    + apply In_columns_one_hot_frame; auto. right. eauto.
    + unfold dummy_name. simpl. discriminate.
  - intros m Hm. rewrite <- (O1 "BombSite" HB).
    apply one_hot_row_indicator; auto.
    + apply fresh_BombSite_encoded.
    + apply In_levels. now rewrite series_BombSite.
Qed.

End RevisedRow.

Lemma Forall2_map_self {A B : Type} (R : A -> B -> Prop) (f : A -> B)
  (l : list A) :
  (forall x, In x l -> R x (f x)) -> Forall2 R l (map f l).
Proof.
  induction l as [|x l IH]; intros H; simpl; constructor.
  - apply H. simpl. auto.
  - apply IH. intros; apply H; simpl; auto.
Qed.

Lemma design_matrices_closed (df : DataFrame) :
  wf df -> In "MapName" (columns df) -> In "BombSite" (columns df) ->
  In "GameDate" (columns df) -> fresh "MapName" df ->
  let df2 := one_hot_frame (one_hot_frame df "MapName") "BombSite" in
  design_matrices df
  = prepare
      (mkDF (columns df2)
            (filter (fun r => lt_cutoff CUTOFF_DATE (GameDate df2 r)) (rows df2)))
      (mkDF (columns df2)
            (filter (fun r => ge_cutoff CUTOFF_DATE (GameDate df2 r)) (rows df2))).
Proof.
  intros W HM HB HG FM df2. unfold design_matrices.
  rewrite preprocess_revised_eq by assumption. cbn [bind]. fold df2.
  assert (G2 : has_column df2 "GameDate" = true).
  { apply has_column_In, In_columns_revised; auto. }
  rewrite train_df_filter, test_df_filter by assumption. reflexivity.
Qed.

Lemma revised_columns_suffice (df : DataFrame) :
  wf df -> incl csv_columns (columns df) -> fresh "MapName" df ->
  (forall c m, In (c, m) encoded_values -> In (Str m) (series df c)) ->
  incl (COLS_ALL ++ "CTWin" :: COLS_CB_ALL)
       (columns (one_hot_frame (one_hot_frame df "MapName") "BombSite")).
Proof.
  intros W I FM H k Hk.
  assert (HM : In "MapName" (columns df)) by (apply I; simpl; auto).
  assert (HB : In "BombSite" (columns df)) by (apply I; simpl; auto).
  apply In_columns_revised; auto.
  apply in_app_or in Hk. destruct Hk as [Hk|Hk].
  - rewrite COLS_ALL_encoded in Hk. apply in_app_or in Hk.
    destruct Hk as [Hk|Hk].
    + apply in_map_iff in Hk. destruct Hk as [[c m] [<- Hcm]]. cbn [fst snd].
      right. destruct (encoded_values_column c m Hcm) as [-> | ->];
        [left|right]; exists m; auto.
    + left. apply I. revert k Hk. incl_by_check.
  - left. apply I. revert k Hk. incl_by_check.
Qed.

Lemma forallb_ext_on {A : Type} (f g : A -> bool) (l : list A) :
  (forall x, In x l -> f x = g x) -> forallb f l = forallb g l.
Proof.
  induction l as [|x l IH]; intros H; simpl; [reflexivity|].
  rewrite (H x) by (simpl; auto). f_equal. apply IH.
  intros; apply H; simpl; auto.
Qed.

Section CutRows.

Variable df : DataFrame.
Hypothesis W : wf df.
Hypothesis I : incl csv_columns (columns df).
Hypothesis FM : fresh "MapName" df.
Hypothesis FB : fresh "BombSite" df.
Hypothesis Hvalues :
  forall c m, In (c, m) encoded_values -> In (Str m) (series df c).

Let df2 := one_hot_frame (one_hot_frame df "MapName") "BombSite".

Variable side : cell -> bool.

Let kept : list (list cell) :=
  filter (notna_on (columns df2) COLS_ALL)
    (filter (fun r => side (GameDate df2 r)) (rows df2)).

Lemma cut_rows :
  Forall2 (encodes_round (columns df))
    (filter (usable side df) (rows df))
    (map (fun r => map (loc (columns df2) r) COLS_ALL) kept) /\
  map (fun r => loc (columns df2) r "CTWin") kept
  = map (fun r => loc (columns df) r "CTWin")
        (filter (usable side df) (rows df)).
Proof.
  assert (HM : In "MapName" (columns df)) by (apply I; simpl; auto).
  assert (HB : In "BombSite" (columns df)) by (apply I; simpl; auto).
  assert (HG : In "GameDate" (columns df)) by (apply I; simpl; auto).
  assert (HC : In "CTWin" (columns df)) by (apply I; simpl; auto 10).
  assert (IS : incl cols_scaled (columns df)).
  { intros k Hk. apply I. revert k Hk. incl_by_check. }
  pose proof (revised_row df W HM HB FM FB) as Row.
  set (encode := fun r : list cell =>
         one_hot_row "BombSite" (columns (one_hot_frame df "MapName"))
           (levels (series (one_hot_frame df "MapName") "BombSite"))
           (one_hot_row "MapName" (columns df)
              (levels (series df "MapName")) r)).
  assert (RR : rows df2 = map encode (rows df)) by apply revised_rows.
  fold df2 in Row. fold encode in Row.
  unfold kept. rewrite RR.
  rewrite !filter_map_commute, filter_filter_andb.
  assert (E : filter (fun r => side (GameDate df2 (encode r))
                               && notna_on (columns df2) COLS_ALL (encode r))
                     (rows df)
              = filter (usable side df) (rows df)).
  { apply filter_ext_in. intros r Hr.
    destruct (Row r Hr) as (K & M & B). unfold usable, GameDate.
    rewrite (K "GameDate" HG). f_equal.
    rewrite COLS_ALL_encoded, notna_on_app.
    replace (notna_on (columns df2) (map _ encoded_values) (encode r))
      with true.
    - cbn [andb]. unfold notna_on. apply forallb_ext_on.
      intros c Hc. now rewrite (K c (IS c Hc)).
    - symmetry. apply forallb_forall. intros k Hk.
      apply in_map_iff in Hk. destruct Hk as [[c m] [<- Hcm]].
      cbn [fst snd].
      destruct (encoded_values_column c m Hcm) as [-> | ->].
      + rewrite M by auto. now rewrite isna_indicator.
      + rewrite B by auto. now rewrite isna_indicator. }
  rewrite E. split.
  - rewrite map_map. apply Forall2_map_self. intros r Hr.
    apply filter_In in Hr. destruct Hr as [Hr _].
    destruct (Row r Hr) as (K & M & B). split.
    + intros c m Hcm. unfold loc at 1. rewrite lookup_map_self.
      * destruct (encoded_values_column c m Hcm) as [-> | ->]; auto.
      * rewrite COLS_ALL_encoded. apply in_or_app. left.
        apply in_map_iff. now exists (c, m).
    + intros c Hc. unfold loc at 1. rewrite lookup_map_self.
      * apply K. auto.
      * now apply cols_scaled_incl.
  - rewrite map_map. apply map_ext_in. intros r Hr.
    apply filter_In in Hr. destruct Hr as [Hr _].
    destruct (Row r Hr) as (K & _ & _). now apply K.
Qed.

End CutRows.


Lemma example_rounds_values (c m : string) :
  In (c, m) encoded_values -> In (Str m) (series example_rounds c).
Proof.
  intros H. simpl in H.
  repeat (destruct H as [H|H];
          [injection H as <- <-; vm_compute;
           repeat first [left; reflexivity | right]|]).
  destruct H.
Qed.


Lemma prepare_tuning_succeeds (cols : list string) (tr te : list (list cell)) :
  incl (Tuning.COLS_ALL ++ ["CTWin"; "MapName"]) cols ->
  exists q, Tuning.prepare (mkDF cols tr) (mkDF cols te) = Ok q.
Proof. apply prepare_tuning_outcome. Qed.

Section TuningRows.

Variable df : DataFrame.
Hypothesis W : wf df.
Hypothesis I : incl Tuning.csv_columns (columns df).
Hypothesis FM : fresh "MapName" df.
Hypothesis Hvalues :
  forall m, In m Tuning.encoded_maps -> In (Str m) (series df "MapName").

Let df1 := one_hot_frame df "MapName".
Let encode (r : list cell) : list cell :=
  one_hot_row "MapName" (columns df) (levels (series df "MapName")) r.

Lemma tuning_row (r : list cell) :
  In r (rows df) ->
  (forall k, In k (columns df) ->
     loc (columns df1) (encode r) k = loc (columns df) r k) /\
  (forall m, In m Tuning.encoded_maps ->
     loc (columns df1) (encode r) (dummy_name "MapName" m)
     = indicator (loc (columns df) r "MapName") m).
Proof.
  intros Hr. destruct W as [ND RL]. rewrite Forall_forall in RL.
  pose proof (RL r Hr) as L. split.
  - intros k Hk. destruct (string_dec k "MapName") as [->|N].
    + now apply one_hot_row_restored.
    + now apply one_hot_row_other.
  - intros m Hm. apply one_hot_row_indicator; auto.
    apply In_levels. auto.
Qed.

Lemma tuning_columns_suffice :
  incl (Tuning.COLS_ALL ++ ["CTWin"; "MapName"]) (columns df1).
Proof.
  assert (HM : In "MapName" (columns df)) by (apply I; simpl; auto).
  intros k Hk. apply In_columns_one_hot_frame; [apply W|exact HM|].
  apply in_app_or in Hk. destruct Hk as [Hk|Hk].
  - change Tuning.COLS_ALL
      with (map (dummy_name "MapName") Tuning.encoded_maps ++ cols_scaled)
      in Hk.
    apply in_app_or in Hk. destruct Hk as [Hk|Hk].
    + apply in_map_iff in Hk. destruct Hk as [m [<- Hm]].
      right. exists m. auto.
    + left. apply I. revert k Hk. incl_by_check.
  - left. apply I. revert k Hk. incl_by_check.
Qed.

Variable side : cell -> bool.

Let kept : list (list cell) :=
  filter (notna_on (columns df1) Tuning.COLS_ALL)
    (filter (fun r => side (GameDate df1 r)) (rows df1)).

Lemma tuning_cut_rows (header : list string) :
  incl header Tuning.COLS_ALL ->
  incl (map (dummy_name "MapName") Tuning.encoded_maps) header ->
  Forall2 (Tuning.encodes_round header (columns df))
    (filter (usable side df) (rows df))
    (map (fun r => map (loc (columns df1) r) header) kept) /\
  map (fun r => loc (columns df1) r "CTWin") kept
  = map (fun r => loc (columns df) r "CTWin")
        (filter (usable side df) (rows df)).
Proof.
  intros Hh Hd.
  assert (HG : In "GameDate" (columns df)) by (apply I; simpl; auto).
  assert (HC : In "CTWin" (columns df)) by (apply I; simpl; auto).
  assert (IS : incl cols_scaled (columns df)).
  { intros k Hk. apply I. revert k Hk. incl_by_check. }
  assert (RR : rows df1 = map encode (rows df)) by reflexivity.
  unfold kept. rewrite RR.
  rewrite !filter_map_commute, filter_filter_andb.
  assert (E : filter (fun r => side (GameDate df1 (encode r))
                               && notna_on (columns df1) Tuning.COLS_ALL
                                    (encode r))
                     (rows df)
              = filter (usable side df) (rows df)).
  { apply filter_ext_in. intros r Hr.
    destruct (tuning_row r Hr) as (K & M). unfold usable, GameDate.
    rewrite (K "GameDate" HG). f_equal.
    change Tuning.COLS_ALL
      with (map (dummy_name "MapName") Tuning.encoded_maps ++ cols_scaled).
    rewrite notna_on_app.
    replace (notna_on (columns df1) (map _ Tuning.encoded_maps) (encode r))
      with true.
    - cbn [andb]. unfold notna_on. apply forallb_ext_on.
      intros c Hc. now rewrite (K c (IS c Hc)).
    - symmetry. apply forallb_forall. intros k Hk.
      apply in_map_iff in Hk. destruct Hk as [m [<- Hm]].
      rewrite M by auto. now rewrite isna_indicator. }
  rewrite E. split.
  - rewrite map_map. apply Forall2_map_self. intros r Hr.
    apply filter_In in Hr. destruct Hr as [Hr _].
    destruct (tuning_row r Hr) as (K & M). split.
    + intros m Hm. unfold loc at 1. rewrite lookup_map_self; auto.
      apply Hd. now apply in_map.
    + intros c Hc Hin. unfold loc at 1. rewrite lookup_map_self; auto.
  - rewrite map_map. apply map_ext_in. intros r Hr.
    apply filter_In in Hr. destruct Hr as [Hr _].
    destruct (tuning_row r Hr) as (K & _). now apply K.
Qed.

End TuningRows.

(** X20 (which rounds reach the design matrices, tuning notebook).  On a
    csv frame in which each of the seven maps occurs, the cells of the
    tuning notebook succeed, and both feature sets are cut from the same
    rounds: in the frame's order, the rounds dated before the cutoff (on
    or after it, for the test matrices) that have all twelve numeric
    features, the spatial ones included.  Each row holds the 0/1
    indicators of the round's map and the numeric features of its column
    list; a round whose MapName is missing is kept with all seven
    indicators at 0. *)
Theorem tuning_design_matrices_keep_rounds_with_features (df : DataFrame) :
  wf df -> incl Tuning.csv_columns (columns df) -> fresh "MapName" df ->
  (forall m, In m Tuning.encoded_maps -> In (Str m) (series df "MapName")) ->
  let train := filter (usable (lt_cutoff CUTOFF_DATE_tuning) df) (rows df) in
  let test := filter (usable (ge_cutoff CUTOFF_DATE_tuning) df) (rows df) in
  exists q,
    Tuning.design_matrices df = Ok q /\
    Forall2 (Tuning.encodes_round Tuning.COLS_ALL (columns df))
            train (rows (Tuning.X_train_ALL q)) /\
    Forall2 (Tuning.encodes_round Tuning.COLS_NO_SPATIAL (columns df))
            train (rows (Tuning.X_train_NO_SPATIAL q)) /\
    Tuning.y_train q = map (fun r => loc (columns df) r "CTWin") train /\
    Forall2 (Tuning.encodes_round Tuning.COLS_ALL (columns df))
            test (rows (Tuning.X_test_ALL q)) /\
    Forall2 (Tuning.encodes_round Tuning.COLS_NO_SPATIAL (columns df))
            test (rows (Tuning.X_test_NO_SPATIAL q)) /\
    Tuning.y_test q = map (fun r => loc (columns df) r "CTWin") test.
Proof.
  intros W I FM Hv train test. subst train test.
  assert (HM : In "MapName" (columns df)) by (apply I; simpl; auto).
  assert (HG : In "GameDate" (columns df)) by (apply I; simpl; auto).
  unfold Tuning.design_matrices, preprocess_tuning.
  rewrite one_hot_eq; [|apply W|now apply has_column_In]. cbn [bind].
  set (df1 := one_hot_frame df "MapName").
  assert (G1 : has_column df1 "GameDate" = true).
  { apply has_column_In, In_columns_one_hot_frame; auto. apply W. }
  rewrite train_df_filter, test_df_filter by assumption. cbn [bind].
  match goal with
  | |- context [Tuning.prepare (mkDF _ ?tr) (mkDF _ ?te)] =>
      destruct (prepare_tuning_succeeds (columns df1) tr te
                  (tuning_columns_suffice df W I Hv)) as [q Hq]
  end.
  exists q. split; [exact Hq|].
  rewrite prepare_tuning_eq in Hq. destruct (_ && _) in Hq; [|discriminate].
  apply Ok_inj in Hq. subst q.
  unfold Tuning.X_train_ALL, Tuning.X_train_NO_SPATIAL, Tuning.y_train,
    Tuning.X_test_ALL, Tuning.X_test_NO_SPATIAL, Tuning.y_test.
  cbn [rows columns].
  pose proof (tuning_cut_rows df W I FM Hv) as C.
  destruct (C (lt_cutoff CUTOFF_DATE_tuning) Tuning.COLS_ALL) as [A1 A2];
    [incl_by_check|incl_by_check|].
  destruct (C (lt_cutoff CUTOFF_DATE_tuning) Tuning.COLS_NO_SPATIAL)
    as [B1 _]; [incl_by_check|incl_by_check|].
  destruct (C (ge_cutoff CUTOFF_DATE_tuning) Tuning.COLS_ALL) as [A3 A4];
    [incl_by_check|incl_by_check|].
  destruct (C (ge_cutoff CUTOFF_DATE_tuning) Tuning.COLS_NO_SPATIAL)
    as [B3 _]; [incl_by_check|incl_by_check|].
  repeat split; assumption.
Qed.

Lemma tuning_design_matrices_keep_rounds_with_features_witness :
  let train := filter (usable (lt_cutoff CUTOFF_DATE_tuning) example_rounds)
                      (rows example_rounds) in
  let test := filter (usable (ge_cutoff CUTOFF_DATE_tuning) example_rounds)
                     (rows example_rounds) in
  exists q,
    Tuning.design_matrices example_rounds = Ok q /\
    Forall2 (Tuning.encodes_round Tuning.COLS_ALL (columns example_rounds))
            train (rows (Tuning.X_train_ALL q)) /\
    Forall2 (Tuning.encodes_round Tuning.COLS_NO_SPATIAL
               (columns example_rounds))
            train (rows (Tuning.X_train_NO_SPATIAL q)) /\
    Tuning.y_train q
    = map (fun r => loc (columns example_rounds) r "CTWin") train /\
    Forall2 (Tuning.encodes_round Tuning.COLS_ALL (columns example_rounds))
            test (rows (Tuning.X_test_ALL q)) /\
    Forall2 (Tuning.encodes_round Tuning.COLS_NO_SPATIAL
               (columns example_rounds))
            test (rows (Tuning.X_test_NO_SPATIAL q)) /\
    Tuning.y_test q
    = map (fun r => loc (columns example_rounds) r "CTWin") test.
Proof.
  apply (tuning_design_matrices_keep_rounds_with_features example_rounds).
  - apply example_rounds_wf.
  - incl_by_check.
  - apply example_rounds_fresh. now left.
  - intros m Hm. apply (example_rounds_values "MapName" m).
    simpl in Hm. simpl.
    repeat (destruct Hm as [<-|Hm]; [tauto|]). destruct Hm.
Defined.
